(** * y3nko_api: request gating, authentication context and resolver mutations

    A shallow embedding of the parts of the GraphQL backend that carry
    invariants: the fixed-window rate limiter
    (src/middleware/rateLimiter.ts), the context builder and authorization
    guard (src/middleware/auth.ts), the error classifier
    (src/middleware/errorHandler.ts), the query wrapper
    (src/config/database.ts) and the trip, vehicle, booking, payment and
    review mutations of the resolvers, run against a relational store that
    follows database/schema.sql. Beside them: the limiter under mixed
    traffic, the role guards, the connection pool of
    src/config/database.ts, the notification resolvers, the statements
    that updateUser and updateVehicle build, and the order in which
    src/index.ts puts limiter, context and resolver.

    Conventions.
    - JavaScript numbers that hold millisecond clocks, counters and GraphQL
      [Int] arguments are integers well inside the exact range of a double;
      they are modelled as [Z].
    - A thrown [Error] is its message; [result] is either a value or a throw.
    - Every reading of [Date.now()], every [uuidv4()] and the answer of the
      identity provider are inputs of the function that consumes them. *)

From stdpp Require Import gmap strings list sorting pretty.
From Stdlib Require Import ZArith Lia Permutation.

Open Scope string_scope.
Open Scope Z_scope.

(** ** Thrown errors *)

Inductive result (A : Type) : Type :=
| Ok (a : A)
| Throw (message : string).
Arguments Ok {A} a.
Arguments Throw {A} message.

(** ** String primitives of the JavaScript runtime used by the sources *)

Module Js.

(** [s.startsWith(p)]. *)
Fixpoint startsWith (p s : string) : bool :=
  match p, s with
  | EmptyString, _ => true
  | String a p', String b s' => if Ascii.eqb a b then startsWith p' s' else false
  | String _ _, EmptyString => false
  end.

(** [s.includes(needle)]. *)
Fixpoint includes (needle s : string) : bool :=
  startsWith needle s ||
  match s with
  | EmptyString => false
  | String _ s' => includes needle s'
  end.

(** [s.substring(n)] for [0 <= n]. *)
Fixpoint substring_from (n : nat) (s : string) : string :=
  match n, s with
  | O, _ => s
  | S n', String _ s' => substring_from n' s'
  | S _, EmptyString => EmptyString
  end.

(** The comma (code point 44) and the double quote (code point 34). *)
Definition comma : Ascii.ascii := Ascii.ascii_of_nat 44.
Definition dq : string := String (Ascii.ascii_of_nat 34) EmptyString.

(** [s.split(',')[0]]: the text before the first comma. *)
Fixpoint split_comma_head (s : string) : string :=
  match s with
  | EmptyString => EmptyString
  | String c s' => if Ascii.eqb c comma then EmptyString else String c (split_comma_head s')
  end.

(** Truthiness of a string value: only the empty string is falsy. *)
Definition truthy (s : string) : bool :=
  match s with
  | EmptyString => false
  | String _ _ => true
  end.

(** [`${v}`] for a value that is a string or [undefined]. *)
Definition template_of (v : option string) : string :=
  match v with
  | Some s => s
  | None => "undefined"
  end.

(** [Math.ceil(a / b)] for integers [a] and [0 < b]. *)
Definition ceil_div (a b : Z) : Z := - ((- a) / b).

End Js.

(** ** Rate limiter (src/middleware/rateLimiter.ts) *)

Module RateLimiter.

(** An entry of [RateLimitStore]. *)
Record entry : Type := { count : Z; resetTime : Z }.

(** [req.headers['x-forwarded-for']]: absent, a string or an array. *)
Inductive forwarded_for : Type :=
| FwdUndefined
| FwdString (s : string)
| FwdArray (l : list string).

(** The fields of the request that [getKey] reads. *)
Record Request : Type := {
  x_forwarded_for : forwarded_for;
  remoteAddress : option string
}.

(** The limiter object: its configuration and its store. *)
Record limiter : Type := {
  store : gmap string entry;
  windowMs : Z;
  maxRequests : Z
}.

(** [new InMemoryRateLimiter(windowMs = 15 * 60 * 1000, maxRequests = 100)]. *)
Definition default_windowMs : Z := 15 * 60 * 1000.
Definition default_maxRequests : Z := 100.

Definition new_limiter (w m : Z) : limiter :=
  {| store := ∅; windowMs := w; maxRequests := m |}.

Definition with_store (l : limiter) (s : gmap string entry) : limiter :=
  {| store := s; windowMs := windowMs l; maxRequests := maxRequests l |}.

(** [cleanup()], run at time [now] by the five-minute interval. *)
Definition cleanup (l : limiter) (now : Z) : limiter :=
  with_store l (filter (fun kv => ~ (resetTime (snd kv) < now)) (store l)).

Definition getKey (req : Request) : string :=
  let ip :=
    match x_forwarded_for req with
    | FwdUndefined => remoteAddress req
    | FwdString s =>
        if Js.truthy s then Some (Js.split_comma_head s) else remoteAddress req
    | FwdArray l => head l
    end in
  ("rate_limit:" ++ Js.template_of ip)%string.

(** What [isAllowed] returns. *)
Record decision : Type := {
  allowed : bool;
  d_resetTime : Z;
  remaining : Z
}.

(** [isAllowed(req)], with [now] the value of [Date.now()]. *)
Definition isAllowed (l : limiter) (req : Request) (now : Z) : limiter * decision :=
  let key := getKey req in
  let fresh :=
    let e := {| count := 1; resetTime := now + windowMs l |} in
    (with_store l (<[key := e]> (store l)),
     {| allowed := true; d_resetTime := resetTime e; remaining := maxRequests l - 1 |}) in
  match store l !! key with
  | None => fresh
  | Some e =>
      if bool_decide (resetTime e < now) then fresh
      else
        let e' := {| count := count e + 1; resetTime := resetTime e |} in
        (with_store l (<[key := e']> (store l)),
         {| allowed := bool_decide (count e' <= maxRequests l);
            d_resetTime := resetTime e';
            remaining := Z.max 0 (maxRequests l - count e') |})
  end.

(** What the middleware does with the request after setting the headers. *)
Inductive outcome : Type :=
| Next
| Rejected (status : Z) (retryAfter : Z).

Record response : Type := {
  x_ratelimit_remaining : Z;
  x_ratelimit_reset : Z;
  served : outcome
}.

(** [rateLimiterMiddleware(req, res, next)]; [now] is the clock read inside
    [isAllowed], [now'] the clock read when the 429 body is built. *)
Definition rateLimiterMiddleware (l : limiter) (req : Request) (now now' : Z)
  : limiter * response :=
  let '(l', d) := isAllowed l req now in
  (l',
   {| x_ratelimit_remaining := remaining d;
      x_ratelimit_reset := d_resetTime d;
      served :=
        if negb (allowed d)
        then Rejected 429 (Js.ceil_div (d_resetTime d - now') 1000)
        else Next |}).

(** A run of the middleware over successive requests of one client; each
    request comes with its two clock readings. *)
Fixpoint serve (l : limiter) (req : Request) (clock : list (Z * Z))
  : limiter * list response :=
  match clock with
  | [] => (l, [])
  | (now, now') :: rest =>
      let '(l1, r) := rateLimiterMiddleware l req now now' in
      let '(l2, rs) := serve l1 req rest in
      (l2, r :: rs)
  end.

End RateLimiter.

(** ** Context builder and authorization guard (src/middleware/auth.ts) *)

Module Auth.

(** The decoded token the identity provider resolves to (the fields that
    [authMiddleware] reads). *)
Record DecodedIdToken : Type := {
  tok_uid : string;
  tok_email : option string;
  tok_phone_number : option string
}.

Record FirebaseUser : Type := {
  uid : string;
  email : option string;
  phone_number : option string;
  custom_claims : option DecodedIdToken
}.

(** The part of [GraphQLContext] that [authMiddleware] produces. *)
Record GraphQLContext : Type := {
  isAuthenticated : bool;
  user : option FirebaseUser
}.

(** Observable effects of the context builder: calls to the identity
    provider and log lines. *)
Inductive event : Type :=
| VerifyIdToken (token : string)
| LogDebug (text : string)
| LogWarn (text : string)
| LogError (text : string).

(** A computation that leaves a trace of events and returns or throws. *)
Definition eff (A : Type) : Type := (list event * result A)%type.

Definition eff_ret {A} (a : A) : eff A := ([], Ok a).

Definition eff_bind {A B} (m : eff A) (k : A -> eff B) : eff B :=
  match m with
  | (t, Ok a) => let '(t', r) := k a in ((t ++ t')%list, r)
  | (t, Throw e) => (t, Throw e)
  end.

(** [try { body } catch (e) { handler(e) }] on traced computations. *)
Definition eff_try {A} (body : eff A) (handler : string -> eff A) : eff A :=
  match body with
  | (t, Ok a) => (t, Ok a)
  | (t, Throw e) => let '(t', r) := handler e in ((t ++ t')%list, r)
  end.

Definition log (e : event) : eff unit := ([e], Ok tt).

Definition unauthenticated : GraphQLContext :=
  {| isAuthenticated := false; user := None |}.

Section WithProvider.

(** [admin.auth().verifyIdToken]: resolves to a decoded token or rejects. *)
Variable verifyIdToken : string -> result DecodedIdToken.

Definition call_verifyIdToken (token : string) : eff DecodedIdToken :=
  ([VerifyIdToken token], verifyIdToken token).

(** [authMiddleware(req)], with [authorization] the value of
    [req.headers.authorization]. *)
Definition authMiddleware (authorization : option string) : eff GraphQLContext :=
  eff_try
    (match authorization with
     | None => eff_ret unauthenticated
     | Some authHeader =>
         if negb (Js.truthy authHeader) || negb (Js.startsWith "Bearer " authHeader)
         then eff_ret unauthenticated
         else
           let token := Js.substring_from 7 authHeader in
           eff_try
             (eff_bind (call_verifyIdToken token) (fun decodedToken =>
              let u := {| uid := tok_uid decodedToken;
                          email := tok_email decodedToken;
                          phone_number := tok_phone_number decodedToken;
                          custom_claims := Some decodedToken |} in
              eff_bind (log (LogDebug "User authenticated successfully")) (fun _ =>
              eff_ret {| isAuthenticated := true; user := Some u |})))
             (fun tokenError =>
              eff_bind (log (LogWarn "Invalid Firebase token:")) (fun _ =>
              eff_ret unauthenticated))
     end)
    (fun error =>
     eff_bind (log (LogError "Authentication middleware error:")) (fun _ =>
     eff_ret unauthenticated)).

End WithProvider.

(** [requireAuth(context)]. *)
Definition requireAuth (context : GraphQLContext) : result FirebaseUser :=
  match isAuthenticated context, user context with
  | true, Some u => Ok u
  | _, _ => Throw "Authentication required"
  end.

End Auth.

(** ** Error classifier (src/middleware/errorHandler.ts) *)

Module ErrorHandler.

(** The fields of the incoming error that the classifier reads. *)
Record ApolloGraphQLError : Type := {
  err_message : string;
  err_extensions : option string
}.

Record GraphQLError : Type := {
  message : string;
  code : string;
  statusCode : Z;
  extensions : option string
}.

(** [errorHandler(error)]; [production] is
    [process.env.NODE_ENV === 'production']. An [extensions] object is
    represented by its [code]. *)
Definition errorHandler (production : bool) (error : ApolloGraphQLError) : GraphQLError :=
  let m := err_message error in
  if Js.includes "Authentication required" m then
    {| message := "Authentication required"; code := "UNAUTHENTICATED";
       statusCode := 401; extensions := Some "UNAUTHENTICATED" |}
  else if Js.includes "Insufficient permissions" m then
    {| message := "Insufficient permissions"; code := "FORBIDDEN";
       statusCode := 403; extensions := Some "FORBIDDEN" |}
  else if Js.includes "not found" m then
    {| message := "Resource not found"; code := "NOT_FOUND";
       statusCode := 404; extensions := Some "NOT_FOUND" |}
  else if Js.includes "duplicate key" m || Js.includes "already exists" m then
    {| message := "Resource already exists"; code := "CONFLICT";
       statusCode := 409; extensions := Some "CONFLICT" |}
  else if Js.includes "validation" m then
    {| message := "Validation error"; code := "BAD_USER_INPUT";
       statusCode := 400; extensions := Some "BAD_USER_INPUT" |}
  else if Js.includes "database" m || Js.includes "connection" m then
    {| message := "Database error occurred"; code := "INTERNAL_SERVER_ERROR";
       statusCode := 500; extensions := Some "INTERNAL_SERVER_ERROR" |}
  else if production then
    {| message := "An unexpected error occurred"; code := "INTERNAL_SERVER_ERROR";
       statusCode := 500; extensions := Some "INTERNAL_SERVER_ERROR" |}
  else
    {| message := m; code := "INTERNAL_SERVER_ERROR";
       statusCode := 500; extensions := err_extensions error |}.

(** The error a resolver's throw reaches the formatter as. *)
Definition thrown (msg : string) : ApolloGraphQLError :=
  {| err_message := msg; err_extensions := None |}.

End ErrorHandler.

(** ** The relational store (database/schema.sql) *)

Module Store.

(** The enumerated column types of the schema. *)
Inductive trip_status : Type :=
| TripScheduled | TripActive | TripCompleted | TripCancelled.

Inductive booking_status : Type :=
| BookingPending | BookingConfirmed | BookingCancelled | BookingCompleted.

Inductive payment_status : Type :=
| PaymentPending | PaymentPaid | PaymentFailed | PaymentRefunded.

(** Input conversion of a quoted literal to an enumerated type: a label
    that is not one of the type's labels is refused by the store. *)
Definition trip_status_in (lit : string) : option trip_status :=
  if String.eqb lit "scheduled" then Some TripScheduled
  else if String.eqb lit "active" then Some TripActive
  else if String.eqb lit "completed" then Some TripCompleted
  else if String.eqb lit "cancelled" then Some TripCancelled
  else None.

Definition booking_status_in (lit : string) : option booking_status :=
  if String.eqb lit "pending" then Some BookingPending
  else if String.eqb lit "confirmed" then Some BookingConfirmed
  else if String.eqb lit "cancelled" then Some BookingCancelled
  else if String.eqb lit "completed" then Some BookingCompleted
  else None.

Definition payment_status_in (lit : string) : option payment_status :=
  if String.eqb lit "pending" then Some PaymentPending
  else if String.eqb lit "paid" then Some PaymentPaid
  else if String.eqb lit "failed" then Some PaymentFailed
  else if String.eqb lit "refunded" then Some PaymentRefunded
  else None.

Definition enum_error (type_name lit : string) : string :=
  ("invalid input value for enum " ++ type_name ++ ": " ++ Js.dq ++ lit ++ Js.dq)%string.

(** Rows. Only the columns that the modelled statements read or write are
    kept; the remaining columns of a row pass through every statement
    unchanged. Identifiers are compared as text: an id handed to a
    statement is taken to be well-formed for its column (the input syntax
    of [UUID] is not modelled), and the users that trips, bookings and
    reviews refer to are taken to exist. *)
Record Trip : Type := {
  t_id : string;
  t_driver_id : string;
  t_trip_status : trip_status
}.

Record Vehicle : Type := {
  v_id : string;
  v_driver_id : string
}.

Record Booking : Type := {
  b_id : string;
  b_trip_id : string;
  b_rider_id : string;
  b_booking_status : booking_status;
  b_payment_status : payment_status
}.

Record Payment : Type := {
  p_id : string;
  p_booking_id : string;
  p_paystack_reference : string;
  p_paystack_transaction_id : option string;
  p_payment_status : payment_status;
  p_gateway_response : option string
}.

Record Review : Type := {
  r_id : string;
  r_booking_id : string;
  r_reviewer_id : string;
  r_reviewee_id : string;
  r_rating : Z;
  r_comment : option string
}.

(** [average_rating DECIMAL(3,2)] is held in hundredths; [None] is NULL. *)
Record DriverProfile : Type := {
  dp_id : string;
  dp_user_id : string;
  dp_vehicle_id : option string;
  dp_average_rating : option Z
}.

(** A row of [SELECT b.*, t.driver_id FROM bookings b JOIN trips t ...]. *)
Record BookingWithDriver : Type := {
  bd_booking : Booking;
  bd_driver_id : string
}.

Record Db : Type := {
  trips : list Trip;
  vehicles : list Vehicle;
  bookings : list Booking;
  payments : list Payment;
  reviews : list Review;
  driver_profiles : list DriverProfile
}.

Definition set_trips (d : Db) (x : list Trip) : Db :=
  {| trips := x; vehicles := vehicles d; bookings := bookings d;
     payments := payments d; reviews := reviews d;
     driver_profiles := driver_profiles d |}.

Definition set_vehicles (d : Db) (x : list Vehicle) : Db :=
  {| trips := trips d; vehicles := x; bookings := bookings d;
     payments := payments d; reviews := reviews d;
     driver_profiles := driver_profiles d |}.

Definition set_bookings (d : Db) (x : list Booking) : Db :=
  {| trips := trips d; vehicles := vehicles d; bookings := x;
     payments := payments d; reviews := reviews d;
     driver_profiles := driver_profiles d |}.

Definition set_payments (d : Db) (x : list Payment) : Db :=
  {| trips := trips d; vehicles := vehicles d; bookings := bookings d;
     payments := x; reviews := reviews d;
     driver_profiles := driver_profiles d |}.

Definition set_reviews (d : Db) (x : list Review) : Db :=
  {| trips := trips d; vehicles := vehicles d; bookings := bookings d;
     payments := payments d; reviews := x;
     driver_profiles := driver_profiles d |}.

Definition set_driver_profiles (d : Db) (x : list DriverProfile) : Db :=
  {| trips := trips d; vehicles := vehicles d; bookings := bookings d;
     payments := payments d; reviews := reviews d;
     driver_profiles := x |}.

(** Column assignments. *)
Definition with_trip_status (s : trip_status) (t : Trip) : Trip :=
  {| t_id := t_id t; t_driver_id := t_driver_id t; t_trip_status := s |}.

Definition with_booking_status (s : booking_status) (b : Booking) : Booking :=
  {| b_id := b_id b; b_trip_id := b_trip_id b; b_rider_id := b_rider_id b;
     b_booking_status := s; b_payment_status := b_payment_status b |}.

Definition with_booking_payment_status (s : payment_status) (b : Booking) : Booking :=
  {| b_id := b_id b; b_trip_id := b_trip_id b; b_rider_id := b_rider_id b;
     b_booking_status := b_booking_status b; b_payment_status := s |}.

Definition with_payment_status (s : payment_status) (p : Payment) : Payment :=
  {| p_id := p_id p; p_booking_id := p_booking_id p;
     p_paystack_reference := p_paystack_reference p;
     p_paystack_transaction_id := p_paystack_transaction_id p;
     p_payment_status := s; p_gateway_response := p_gateway_response p |}.

Definition with_verification (s : payment_status) (txn response : string) (p : Payment)
  : Payment :=
  {| p_id := p_id p; p_booking_id := p_booking_id p;
     p_paystack_reference := p_paystack_reference p;
     p_paystack_transaction_id := Some txn;
     p_payment_status := s; p_gateway_response := Some response |}.

Definition with_average_rating (a : option Z) (p : DriverProfile) : DriverProfile :=
  {| dp_id := dp_id p; dp_user_id := dp_user_id p;
     dp_vehicle_id := dp_vehicle_id p; dp_average_rating := a |}.

(** [UPDATE ... SET ... WHERE P]: the table afterwards and the rows hit. *)
Definition update_where {A} (P : A -> Prop) `{forall x, Decision (P x)}
    (f : A -> A) (l : list A) : list A :=
  (fun x => if decide (P x) then f x else x) <$> l.

Definition updated_rows {A} (P : A -> Prop) `{forall x, Decision (P x)}
    (f : A -> A) (l : list A) : list A :=
  f <$> filter P l.

(** What the driver hands back for a statement: the array of returned rows
    and, beside it, the number of rows the statement affected
    ([result.count]). A statement without a RETURNING clause returns no
    rows. *)
Record QueryResult (R : Type) : Type := {
  rows : list R;
  count : nat
}.
Arguments rows {R} _.
Arguments count {R} _.

Definition returning {R} (l : list R) : QueryResult R :=
  {| rows := l; count := length l |}.

Definition affected (R : Type) (n : nat) : QueryResult R :=
  {| rows := []; count := n |}.

(** *** Aggregates *)

Definition sum_Z (l : list Z) : Z := foldr Z.add 0 l.

(** Ratings of the reviews [WHERE reviewee_id = $1]. *)
Definition ratings_for (reviewee : string) (rs : list Review) : list Z :=
  r_rating <$> filter (fun r => r_reviewee_id r = reviewee) rs.

(** [num / den] (with [0 < den]) rounded to hundredths, ties away from
    zero, as the store rounds a numeric to scale 2. The quotient is taken
    exactly; the store carries it to sixteen or more significant digits
    before rounding, which gives the same hundredths for any number of
    reviews a table can hold. *)
Definition round_hundredths (num den : Z) : Z :=
  if 0 <=? num then (200 * num + den) / (2 * den)
  else - ((200 * (- num) + den) / (2 * den)).

(** The cast [::DECIMAL(3,2)]: at most three digits, two of them after the
    point. *)
Definition decimal_3_2 (num den : Z) : result Z :=
  let h := round_hundredths num den in
  if Z.abs h <? 1000 then Ok h else Throw "numeric field overflow".

(** [SELECT AVG(rating)::DECIMAL(3,2) FROM reviews WHERE reviewee_id = $1];
    the average of no row is NULL. *)
Definition avg_rating (reviewee : string) (rs : list Review) : result (option Z) :=
  match ratings_for reviewee rs with
  | [] => Ok None
  | x :: l =>
      match decimal_3_2 (sum_Z (x :: l)) (Z.of_nat (length (x :: l))) with
      | Ok h => Ok (Some h)
      | Throw e => Throw e
      end
  end.

End Store.

(** ** Statements and the query wrapper (src/config/database.ts) *)

Module Database.
Import Store.

(** The statements that the modelled resolvers send, each with its bound
    parameters in the order [$1, $2, ...]. A status label written inside
    the statement text is carried as [status]. The index is the row type
    of the result.

    - [UpdateTripStatus]:
      [UPDATE trips SET trip_status = '<status>' WHERE id = $1 AND driver_id = $2 RETURNING *]
    - [DeleteVehicle]:
      [DELETE FROM vehicles WHERE id = $1 AND driver_id = $2]
    - [UpdateBookingStatus]:
      [UPDATE bookings SET booking_status = '<status>' WHERE id = $1 RETURNING *]
    - [UpdateBookingStatusOfRider]:
      [UPDATE bookings SET booking_status = '<status>' WHERE id = $1 AND rider_id = $2 RETURNING *]
    - [UpdatePaymentVerified]:
      [UPDATE payments SET payment_status = '<status>', paystack_transaction_id = $1,
       gateway_response = $2 WHERE paystack_reference = $3 RETURNING *]
    - [UpdatePaymentStatus]:
      [UPDATE payments SET payment_status = '<status>' WHERE id = $1 RETURNING *]
    - [UpdateBookingPaymentStatus]:
      [UPDATE bookings SET payment_status = '<status>' WHERE id = $1]
    - [SelectBookingParty]:
      [SELECT b.*, t.driver_id FROM bookings b JOIN trips t ON b.trip_id = t.id
       WHERE b.id = $1 AND (b.rider_id = $2 OR t.driver_id = $2)]
    - [SelectReviewId]:
      [SELECT id FROM reviews WHERE booking_id = $1 AND reviewer_id = $2]
    - [InsertReview]:
      [INSERT INTO reviews (id, booking_id, reviewer_id, reviewee_id, rating, comment, created_at)
       VALUES ($1, $2, $3, $4, $5, $6, NOW()) RETURNING *]
    - [UpdateAverageRating]:
      [UPDATE driver_profiles SET average_rating =
       (SELECT AVG(rating)::DECIMAL(3,2) FROM reviews WHERE reviewee_id = $1) WHERE user_id = $1] *)
Inductive Stmt : Type -> Type :=
| UpdateTripStatus (status id driver_id : string) : Stmt Trip
| DeleteVehicle (id driver_id : string) : Stmt Vehicle
| UpdateBookingStatus (status id : string) : Stmt Booking
| UpdateBookingStatusOfRider (status id rider_id : string) : Stmt Booking
| UpdatePaymentVerified (status txn response reference : string) : Stmt Payment
| UpdatePaymentStatus (status id : string) : Stmt Payment
| UpdateBookingPaymentStatus (status id : string) : Stmt Booking
| SelectBookingParty (id uid : string) : Stmt BookingWithDriver
| SelectReviewId (booking_id reviewer_id : string) : Stmt string
| InsertReview (id booking_id reviewer_id reviewee_id : string) (rating : Z)
    (comment : option string) : Stmt Review
| UpdateAverageRating (reviewee_id : string) : Stmt DriverProfile.

(** The meaning of a statement on the store: the store afterwards and the
    driver's result, or the error the store raises. Constraints of the
    schema that a statement of the resolvers can run into are checked:
    enum input (done when the statement is analysed, before any row is
    looked at), the primary key and the rating check of an inserted
    review, the reference from a driver profile to a deleted vehicle. The
    aggregate of [UpdateAverageRating] is computed only when a profile row
    is to be updated. *)
Definition exec {R} (s : Stmt R) (d : Db) : result (Db * QueryResult R) :=
  match s in Stmt R return result (Db * QueryResult R) with
  | UpdateTripStatus status id driver_id =>
      match trip_status_in status with
      | None => Throw (enum_error "trip_status" status)
      | Some st =>
          Ok (set_trips d
                (update_where (fun t => t_id t = id /\ t_driver_id t = driver_id)
                   (with_trip_status st) (trips d)),
              returning
                (updated_rows (fun t => t_id t = id /\ t_driver_id t = driver_id)
                   (with_trip_status st) (trips d)))
      end
  | DeleteVehicle id driver_id =>
      if decide (Exists (fun p =>
                   Exists (fun v => dp_vehicle_id p = Some (v_id v))
                     (filter (fun v => v_id v = id /\ v_driver_id v = driver_id)
                        (vehicles d)))
                   (driver_profiles d))
      then Throw "update or delete on table vehicles violates foreign key constraint fk_driver_profiles_vehicle_id"
      else
        Ok (set_vehicles d
              (filter (fun v => ~ (v_id v = id /\ v_driver_id v = driver_id)) (vehicles d)),
            affected Vehicle
              (length (filter (fun v => v_id v = id /\ v_driver_id v = driver_id)
                         (vehicles d))))
  | UpdateBookingStatus status id =>
      match booking_status_in status with
      | None => Throw (enum_error "booking_status" status)
      | Some st =>
          Ok (set_bookings d
                (update_where (fun b => b_id b = id) (with_booking_status st) (bookings d)),
              returning
                (updated_rows (fun b => b_id b = id) (with_booking_status st) (bookings d)))
      end
  | UpdateBookingStatusOfRider status id rider_id =>
      match booking_status_in status with
      | None => Throw (enum_error "booking_status" status)
      | Some st =>
          Ok (set_bookings d
                (update_where (fun b => b_id b = id /\ b_rider_id b = rider_id)
                   (with_booking_status st) (bookings d)),
              returning
                (updated_rows (fun b => b_id b = id /\ b_rider_id b = rider_id)
                   (with_booking_status st) (bookings d)))
      end
  | UpdatePaymentVerified status txn response reference =>
      match payment_status_in status with
      | None => Throw (enum_error "payment_status" status)
      | Some st =>
          Ok (set_payments d
                (update_where (fun p => p_paystack_reference p = reference)
                   (with_verification st txn response) (payments d)),
              returning
                (updated_rows (fun p => p_paystack_reference p = reference)
                   (with_verification st txn response) (payments d)))
      end
  | UpdatePaymentStatus status id =>
      match payment_status_in status with
      | None => Throw (enum_error "payment_status" status)
      | Some st =>
          Ok (set_payments d
                (update_where (fun p => p_id p = id) (with_payment_status st) (payments d)),
              returning
                (updated_rows (fun p => p_id p = id) (with_payment_status st) (payments d)))
      end
  | UpdateBookingPaymentStatus status id =>
      match payment_status_in status with
      | None => Throw (enum_error "payment_status" status)
      | Some st =>
          Ok (set_bookings d
                (update_where (fun b => b_id b = id)
                   (with_booking_payment_status st) (bookings d)),
              affected Booking (length (filter (fun b => b_id b = id) (bookings d))))
      end
  | SelectBookingParty id uid =>
      Ok (d,
          returning
            (b ← bookings d;
             t ← trips d;
             if decide (b_trip_id b = t_id t /\ b_id b = id /\
                        (b_rider_id b = uid \/ t_driver_id t = uid))
             then [ {| bd_booking := b; bd_driver_id := t_driver_id t |} ]
             else []))
  | SelectReviewId booking_id reviewer_id =>
      Ok (d,
          returning
            (r_id <$> filter (fun r => r_booking_id r = booking_id /\
                                       r_reviewer_id r = reviewer_id) (reviews d)))
  | InsertReview id booking_id reviewer_id reviewee_id rating comment =>
      if decide (id ∈ r_id <$> reviews d)
      then Throw "duplicate key value violates unique constraint reviews_pkey"
      else if decide (1 <= rating <= 5)
      then
        let row := {| r_id := id; r_booking_id := booking_id;
                      r_reviewer_id := reviewer_id; r_reviewee_id := reviewee_id;
                      r_rating := rating; r_comment := comment |} in
        Ok (set_reviews d (reviews d ++ [row])%list, returning [row])
      else Throw "new row for relation reviews violates check constraint reviews_rating_check"
  | UpdateAverageRating reviewee_id =>
      match filter (fun p => dp_user_id p = reviewee_id) (driver_profiles d) with
      | [] => Ok (d, affected DriverProfile 0)
      | hit :: hits =>
          match avg_rating reviewee_id (reviews d) with
          | Throw e => Throw e
          | Ok a =>
              Ok (set_driver_profiles d
                    (update_where (fun p => dp_user_id p = reviewee_id)
                       (with_average_rating a) (driver_profiles d)),
                  affected DriverProfile (length (hit :: hits)))
          end
      end
  end.

(** A statement together with its row type, for the log of what was sent. *)
Definition sent : Type := { R : Type & Stmt R }.

Definition sending {R} (s : Stmt R) : sent := existT R s.

(** The world a resolver runs in: the store and the statements issued so
    far. Resolvers do not open transactions, so what a resolver wrote
    before it throws stays written. *)
Record World : Type := {
  db : Db;
  issued : list sent
}.

Definition M (A : Type) : Type := World -> World * result A.

Definition ret {A} (a : A) : M A := fun w => (w, Ok a).

Definition throw {A} (msg : string) : M A := fun w => (w, Throw msg).

Definition bind {A B} (m : M A) (k : A -> M B) : M B :=
  fun w =>
    match m w with
    | (w', Ok a) => k a w'
    | (w', Throw e) => (w', Throw e)
    end.

Definition lift {A} (r : result A) : M A := fun w => (w, r).

(** [query(queryText, params)]: runs the statement and returns the rows;
    an error of the store is logged and rethrown. *)
Definition query {R} (s : Stmt R) : M (list R) :=
  fun w =>
    let log := (issued w ++ [sending s])%list in
    match exec s (db w) with
    | Ok (d', res) => ({| db := d'; issued := log |}, Ok (rows res))
    | Throw e => ({| db := db w; issued := log |}, Throw e)
    end.

End Database.

(** ** Resolvers (src/resolvers) *)

Module Resolvers.
Import Store Database Auth.

Notation "x <- m ;; k" := (bind m (fun x => k))
  (at level 100, m at next level, right associativity).

(** *** Trips (tripResolvers.Mutation) *)

Definition cancelTrip (id : string) (context : GraphQLContext) : M Trip :=
  user <- lift (requireAuth context) ;;
  result <- query (UpdateTripStatus "cancelled" id (uid user)) ;;
  match result with
  | [] => throw "Trip not found or unauthorized"
  | row :: _ => ret row
  end.

Definition startTrip (id : string) (context : GraphQLContext) : M Trip :=
  user <- lift (requireAuth context) ;;
  result <- query (UpdateTripStatus "active" id (uid user)) ;;
  match result with
  | [] => throw "Trip not found or unauthorized"
  | row :: _ => ret row
  end.

Definition completeTrip (id : string) (context : GraphQLContext) : M Trip :=
  user <- lift (requireAuth context) ;;
  result <- query (UpdateTripStatus "completed" id (uid user)) ;;
  match result with
  | [] => throw "Trip not found or unauthorized"
  | row :: _ => ret row
  end.

(** *** Vehicles (userResolvers.Mutation) *)

Definition deleteVehicle (id : string) (context : GraphQLContext) : M bool :=
  user <- lift (requireAuth context) ;;
  result <- query (DeleteVehicle id (uid user)) ;;
  ret (bool_decide (0 < length result)%nat).

(** *** Bookings (bookingResolvers.Mutation) *)

Definition confirmBooking (id : string) (context : GraphQLContext) : M Booking :=
  _ <- lift (requireAuth context) ;;
  result <- query (UpdateBookingStatus "confirmed" id) ;;
  match result with
  | [] => throw "Booking not found"
  | row :: _ => ret row
  end.

Definition cancelBooking (id : string) (context : GraphQLContext) : M Booking :=
  user <- lift (requireAuth context) ;;
  result <- query (UpdateBookingStatusOfRider "cancelled" id (uid user)) ;;
  match result with
  | [] => throw "Booking not found or unauthorized"
  | row :: _ => ret row
  end.

(** *** Payments (paymentResolvers.Mutation) *)

(** [JSON.stringify({ status: 'success', message: 'Payment verified' })]. *)
Definition mock_gateway_response : string :=
  ("{" ++ Js.dq ++ "status" ++ Js.dq ++ ":" ++ Js.dq ++ "success" ++ Js.dq ++ ","
       ++ Js.dq ++ "message" ++ Js.dq ++ ":" ++ Js.dq ++ "Payment verified" ++ Js.dq
       ++ "}")%string.

(** [txn] is the mock transaction id, [`txn_${Date.now()}`]. *)
Definition verifyPayment (txn : string) (reference : string) (context : GraphQLContext)
  : M Payment :=
  _ <- lift (requireAuth context) ;;
  result <- query (UpdatePaymentVerified "completed" txn mock_gateway_response reference) ;;
  match result with
  | [] => throw "Payment not found"
  | row :: _ =>
      _ <- query (UpdateBookingPaymentStatus "paid" (p_booking_id row)) ;;
      ret row
  end.

Definition processRefund (paymentId : string) (context : GraphQLContext) : M Payment :=
  _ <- lift (requireAuth context) ;;
  result <- query (UpdatePaymentStatus "refunded" paymentId) ;;
  match result with
  | [] => throw "Payment not found"
  | row :: _ =>
      _ <- query (UpdateBookingPaymentStatus "refunded" (p_booking_id row)) ;;
      ret row
  end.

(** *** Reviews (reviewResolvers.Mutation) *)

(** [comment || null]. *)
Definition or_null (comment : option string) : option string :=
  match comment with
  | Some c => if Js.truthy c then Some c else None
  | None => None
  end.

(** [uuid] is the value of [uuidv4()]. *)
Definition createReview (uuid : string) (bookingId : string) (rating : Z)
    (comment : option string) (context : GraphQLContext) : M Review :=
  user <- lift (requireAuth context) ;;
  if (rating <? 1) || (rating >? 5) then throw "Rating must be between 1 and 5"
  else
    bookingResult <- query (SelectBookingParty bookingId (uid user)) ;;
    match bookingResult with
    | [] => throw "Booking not found or unauthorized"
    | booking :: _ =>
        let revieweeId :=
          if decide (b_rider_id (bd_booking booking) = uid user)
          then bd_driver_id booking
          else b_rider_id (bd_booking booking) in
        existingReview <- query (SelectReviewId bookingId (uid user)) ;;
        match existingReview with
        | _ :: _ => throw "Review already exists for this booking"
        | [] =>
            result <- query (InsertReview uuid bookingId (uid user) revieweeId rating
                               (or_null comment)) ;;
            _ <- (if decide (b_rider_id (bd_booking booking) = uid user)
                  then _ <- query (UpdateAverageRating revieweeId) ;; ret tt
                  else ret tt) ;;
            match result with
            | [] => throw "Failed to create review"
            | row :: _ => ret row
            end
        end
    end.

End Resolvers.

(** ** Requests of many clients (src/middleware/rateLimiter.ts) *)

Module Traffic.
Import RateLimiter.

(** One request as the middleware sees it: the request and the two clock
    readings taken while it is served. *)
Definition arrival : Type := (Request * (Z * Z))%type.

(** The middleware serving the requests of all clients in arrival order. *)
Fixpoint serve_stream (l : limiter) (stream : list arrival) : limiter * list response :=
  match stream with
  | [] => (l, [])
  | (req, (now, now')) :: rest =>
      let '(l1, r) := rateLimiterMiddleware l req now now' in
      let '(l2, rs) := serve_stream l1 rest in
      (l2, r :: rs)
  end.

(** The answers given to the requests that carry the key [k]. *)
Definition answers_for (k : string) (stream : list arrival) (rs : list response)
  : list response :=
  snd <$> filter (fun p => getKey (fst (fst p)) = k) (zip stream rs).

(** Every stored entry has counted at least one request and resets no
    later than one window after [now]. *)
Definition entries_bounded (l : limiter) (now : Z) : Prop :=
  forall key e, store l !! key = Some e ->
                1 <= count e /\ resetTime e <= now + windowMs l.

(** The clock readings of a stream never go backwards, starting from
    [now]. *)
Fixpoint clock_monotone (now : Z) (stream : list arrival) : Prop :=
  match stream with
  | [] => True
  | (_, (t, t')) :: rest => now <= t /\ t <= t' /\ clock_monotone t rest
  end.

End Traffic.

(** ** Role guards (src/middleware/auth.ts) *)

Module Roles.
Import Auth.

Section WithClaims.

(** The decoded token is an open object: besides the fields kept in
    [DecodedIdToken] it carries whatever claims the provider put there.
    [claim_truthy t name] is the truthiness of [t[name]]. *)
Variable claim_truthy : DecodedIdToken -> string -> bool.

(** [requireRole(context, requiredRole)]. *)
Definition requireRole (context : GraphQLContext) (requiredRole : string)
  : result FirebaseUser :=
  match requireAuth context with
  | Throw e => Throw e
  | Ok u =>
      if match custom_claims u with
         | None => true
         | Some t => negb (claim_truthy t requiredRole)
         end
      then Throw ("Insufficient permissions. Required role: " ++ requiredRole)%string
      else Ok u
  end.

(** [requireAdmin(context)]. *)
Definition requireAdmin (context : GraphQLContext) : result FirebaseUser :=
  requireRole context "admin".

End WithClaims.

End Roles.

(** ** Connection pool (src/config/database.ts) *)

Module Connection.

(** The environment variables that [connectDatabase] reads. *)
Record Env : Type := {
  DATABASE_URL : option string;
  DB_HOST : option string;
  DB_PORT : option string;
  DB_NAME : option string;
  DB_USER : option string;
  DB_PASSWORD : option string
}.

(** [v || d] for an environment variable. *)
Definition or_default (v : option string) (d : string) : string :=
  match v with
  | Some s => if Js.truthy s then s else d
  | None => d
  end.

(** The arguments [postgres] is called with. The port is the text handed
    to [parseInt]; the options [ssl: 'require', max: 20, idle_timeout: 30,
    connect_timeout: 15] are the same in both calls. *)
Inductive target : Type :=
| ByConnectionString (url : string)
| ByParameters (host : option string) (port_text : string)
    (database username password : option string).

Inductive log_line : Type :=
| Info (text : string)
| Error (text : string).

Section WithDriver.

(** The pool object of the driver, the driver's constructor, which may
    throw, and the outcome of the test query [SELECT NOW()] on a pool. *)
Variable pool : Type.
Variable postgres : target -> result pool.
Variable test_query : pool -> result unit.

(** The module variable [sql]; [None] is [undefined]. *)
Definition module_state : Type := option pool.

Definition chosen_target (env : Env) : target :=
  match DATABASE_URL env with
  | Some url =>
      if Js.truthy url then ByConnectionString url
      else ByParameters (DB_HOST env) (or_default (DB_PORT env) "5432") (DB_NAME env)
             (DB_USER env) (DB_PASSWORD env)
  | None =>
      ByParameters (DB_HOST env) (or_default (DB_PORT env) "5432") (DB_NAME env)
        (DB_USER env) (DB_PASSWORD env)
  end.

Definition connecting_line (env : Env) : log_line :=
  match chosen_target env with
  | ByConnectionString _ => Info "Connecting to database using connection string..."
  | ByParameters _ _ _ _ _ => Info "Connecting to database using individual parameters..."
  end.

(** [connectDatabase()]: the state of [sql] afterwards, the log, and the
    pool returned or the error rethrown. *)
Definition connectDatabase (env : Env) (sql : module_state)
  : module_state * list log_line * result pool :=
  match postgres (chosen_target env) with
  | Throw e =>
      (sql, [connecting_line env; Error "Database connection failed:"], Throw e)
  | Ok p =>
      match test_query p with
      | Throw e =>
          (Some p, [connecting_line env; Error "Database connection failed:"], Throw e)
      | Ok _ =>
          (Some p,
           [connecting_line env; Info "PostgreSQL database connected successfully"],
           Ok p)
      end
  end.

(** [getDatabase()]. *)
Definition getDatabase (sql : module_state) : result pool :=
  match sql with
  | None => Throw "Database not initialized. Call connectDatabase() first."
  | Some p => Ok p
  end.

End WithDriver.

End Connection.

(** ** Notification resolvers (src/resolvers/notificationResolvers.ts) *)

Module Notifications.
Import Auth Store.

(** The columns of [notifications] that the resolvers read or write.
    [is_read] and [created_at] have defaults but may hold NULL. *)
Record Notification : Type := {
  n_id : string;
  n_user_id : string;
  n_is_read : option bool;
  n_created_at : option Z
}.

Definition with_is_read (b : bool) (n : Notification) : Notification :=
  {| n_id := n_id n; n_user_id := n_user_id n; n_is_read := Some b;
     n_created_at := n_created_at n |}.

(** [ORDER BY created_at DESC]: later rows first, NULLs before all. *)
Definition newest_first (a b : Notification) : Prop :=
  match n_created_at a, n_created_at b with
  | None, _ => True
  | Some _, None => False
  | Some x, Some y => y <= x
  end.

#[export] Instance newest_first_dec a b : Decision (newest_first a b).
Proof.
  unfold newest_first.
  destruct (n_created_at a), (n_created_at b); apply _.
Defined.

(** Rows of equal [created_at] are kept in table order; the store leaves
    their order open. *)
Definition order_by_created_at_desc (l : list Notification) : list Notification :=
  merge_sort newest_first l.

(** A resolver over the notifications table. *)
Definition N (A : Type) : Type := list Notification -> list Notification * result A.

(** [myNotifications(_, { unreadOnly }, context)]. *)
Definition myNotifications (unreadOnly : option bool) (context : GraphQLContext)
  : N (list Notification) :=
  fun t =>
    match requireAuth context with
    | Throw e => (t, Throw e)
    | Ok user =>
        match unreadOnly with
        | Some true =>
            (t, Ok (order_by_created_at_desc
                      (filter (fun n => n_user_id n = uid user /\ n_is_read n = Some false) t)))
        | _ =>
            (t, Ok (order_by_created_at_desc (filter (fun n => n_user_id n = uid user) t)))
        end
    end.

(** [markNotificationAsRead(_, { id }, context)]. *)
Definition markNotificationAsRead (id : string) (context : GraphQLContext)
  : N Notification :=
  fun t =>
    match requireAuth context with
    | Throw e => (t, Throw e)
    | Ok user =>
        let hit := fun n => n_id n = id /\ n_user_id n = uid user in
        match updated_rows hit (with_is_read true) t with
        | [] => (update_where hit (with_is_read true) t,
                 Throw "Notification not found or unauthorized")
        | row :: _ => (update_where hit (with_is_read true) t, Ok row)
        end
    end.

(** [markAllNotificationsAsRead(_, __, context)]. *)
Definition markAllNotificationsAsRead (context : GraphQLContext) : N bool :=
  fun t =>
    match requireAuth context with
    | Throw e => (t, Throw e)
    | Ok user =>
        (update_where (fun n => n_user_id n = uid user /\ n_is_read n = Some false)
           (with_is_read true) t,
         Ok true)
    end.

End Notifications.

(** ** The request pipeline (src/index.ts) *)

Module Server.
Import RateLimiter Auth ErrorHandler Database.

(** What the pipeline reads of an incoming request to [/graphql]: the
    fields the rate limiter keys on and the [authorization] header. *)
Record Incoming : Type := {
  request : Request;
  authorization : option string
}.

(** The answer to one operation: the 429 of the rate limiter, the data of
    the resolver, the formatted error of a resolver that threw, or the
    error of a context function that threw. *)
Inductive reply (A : Type) : Type :=
| TooManyRequests (r : response)
| Data (a : A)
| Errors (e : GraphQLError)
| ContextCreationFailed (e : string).
Arguments TooManyRequests {A} _.
Arguments Data {A} _.
Arguments Errors {A} _.
Arguments ContextCreationFailed {A} _.

Section WithEnvironment.

Variable verifyIdToken : string -> result DecodedIdToken.
Variable production : bool.

(** One operation through [app.use('/graphql', rateLimiter)] and the
    Apollo middleware mounted after it: the limiter runs first and ends
    the request itself when it answers 429; otherwise the context function
    calls [authMiddleware], the resolver runs in that context, and an
    error it throws goes through [formatError], which is [errorHandler]. *)
Definition graphql {A} (resolver : GraphQLContext -> M A)
    (l : limiter) (i : Incoming) (now now' : Z) (w : World)
  : limiter * list event * World * reply A :=
  let '(l', res) := rateLimiterMiddleware l (request i) now now' in
  match served res with
  | Rejected _ _ => (l', [], w, TooManyRequests res)
  | Next =>
      match authMiddleware verifyIdToken (authorization i) with
      | (trace, Throw e) => (l', trace, w, ContextCreationFailed e)
      | (trace, Ok context) =>
          match resolver context w with
          | (w', Ok a) => (l', trace, w', Data a)
          | (w', Throw e) => (l', trace, w', Errors (errorHandler production (thrown e)))
          end
      end
  end.

End WithEnvironment.

End Server.

(** ** Statements built at run time (src/resolvers/userResolvers.ts) *)

Module Builders.

(** A value of an input object. *)
Inductive value : Type :=
| VUndefined
| VNull
| VString (s : string)
| VNumber (z : Z)
| VStrings (l : list string).

(** A parameter handed to [query]: a value as it is, or
    [JSON.stringify(value)]. *)
Inductive param : Type :=
| Plain (v : value)
| Stringified (v : value).

(** The three locals of the builders: [updateFields], [values] and
    [paramCount]. *)
Record builder : Type := {
  updateFields : list string;
  values : list param;
  paramCount : nat
}.

Definition start : builder :=
  {| updateFields := []; values := []; paramCount := 1 |}.

(** [updateFields.push(`${col} = $${paramCount++}`); values.push(v)]. *)
Definition push_field (col : string) (v : param) (b : builder) : builder :=
  {| updateFields := (updateFields b ++ [(col ++ " = $" ++ pretty (paramCount b))%string])%list;
     values := (values b ++ [v])%list;
     paramCount := S (paramCount b) |}.

(** [updateFields.join(', ')]. *)
Definition join (l : list string) : string := String.concat ", " l.

(** *** updateUser *)

(** [UpdateUserInput]; [None] is an absent or null field. *)
Record UpdateUserInput : Type := {
  firstName : option string;
  lastName : option string;
  profileImageUrl : option string
}.

(** [if (field) { push }]. *)
Definition push_if_truthy (col : string) (field : option string) (b : builder) : builder :=
  match field with
  | Some s => if Js.truthy s then push_field col (Plain (VString s)) b else b
  | None => b
  end.

(** The statement text and the parameters that [updateUser] hands to
    [query]. *)
Definition updateUser_statement (input : UpdateUserInput) (uid : string)
  : string * list param :=
  let b1 := push_if_truthy "first_name" (firstName input) start in
  let b2 := push_if_truthy "last_name" (lastName input) b1 in
  let b3 := push_if_truthy "profile_image_url" (profileImageUrl input) b2 in
  let fields := (updateFields b3 ++ ["updated_at = NOW()"])%list in
  let vals := (values b3 ++ [Plain (VString uid)])%list in
  ("UPDATE users SET " ++ join fields ++ " WHERE id = $" ++ pretty (paramCount b3)
     ++ " RETURNING *",
   vals).

(** *** updateVehicle *)

(** The column a key of the input is written to. *)
Definition dbField (key : string) : string :=
  if String.eqb key "licensePlate" then "license_plate"
  else if String.eqb key "vehicleType" then "vehicle_type"
  else if String.eqb key "passengerCapacity" then "passenger_capacity"
  else if String.eqb key "insurancePolicyNumber" then "insurance_policy_number"
  else if String.eqb key "insuranceExpiry" then "insurance_expiry"
  else if String.eqb key "vehicleImages" then "vehicle_images"
  else key.

Definition is_undefined (v : value) : bool :=
  match v with
  | VUndefined => true
  | _ => false
  end.

Definition vehicle_param (key : string) (v : value) : param :=
  if String.eqb key "vehicleImages" then Stringified v else Plain v.

(** The body of the [forEach] over [Object.entries(input)]. *)
Definition vehicle_entry (b : builder) (entry : string * value) : builder :=
  let '(key, v) := entry in
  if is_undefined v then b
  else push_field (dbField key) (vehicle_param key v) b.

(** The statement text and the parameters that [updateVehicle] hands to
    [query]; [input] is [Object.entries(input)]. *)
Definition updateVehicle_statement (input : list (string * value)) (id uid : string)
  : string * list param :=
  let b := fold_left vehicle_entry input start in
  let vals := (values b ++ [Plain (VString id); Plain (VString uid)])%list in
  ("UPDATE vehicles SET " ++ join (updateFields b) ++ " WHERE id = $" ++ pretty (paramCount b)
     ++ " AND driver_id = $" ++ pretty (S (paramCount b)) ++ " RETURNING *",
   vals).

End Builders.

(** * Vocabulary of the properties *)

Section RateLimiterTerms.
Import RateLimiter.

(** The first request of a window: no entry, or an entry whose reset time
    lies strictly before the clock. *)
Definition window_opens (req : Request) (l : limiter) (now : Z) : Prop :=
  match store l !! getKey req with
  | None => True
  | Some e => resetTime e < now
  end.

(** A sample client and the limiter as the module creates it. *)
Definition sample_request : Request :=
  {| x_forwarded_for := FwdString "203.0.113.7, 10.0.0.1"; remoteAddress := Some "10.0.0.1" |}.

Definition configured_limiter : limiter := new_limiter 900000 100.

End RateLimiterTerms.

Section AuthTerms.
Import Auth ErrorHandler Database Resolvers.

(** The header carries no bearer credential: it is absent or does not
    start with [Bearer ]. *)
Definition no_bearer (authorization : option string) : Prop :=
  match authorization with
  | None => True
  | Some h => Js.startsWith "Bearer " h = false
  end.

(** The request lacks a valid bearer credential: no bearer credential, or
    one that the identity provider rejects. *)
Definition lacks_valid_bearer (verifyIdToken : string -> result DecodedIdToken)
    (authorization : option string) : Prop :=
  match authorization with
  | None => True
  | Some h =>
      Js.startsWith "Bearer " h = false \/
      exists e, verifyIdToken (Js.substring_from 7 h) = Throw e
  end.

(** An identity provider that knows one token. *)
Definition sample_provider (token : string) : result DecodedIdToken :=
  if String.eqb token "good-token"
  then Ok {| tok_uid := "rider-1"; tok_email := Some "rider@example.com";
             tok_phone_number := None |}
  else Throw "Decoding Firebase ID token failed".

End AuthTerms.

Section ResolverTerms.
Import Store Database Auth ErrorHandler Resolvers.

(** The caller of an authenticated context. *)
Definition caller (u : string) : GraphQLContext :=
  {| isAuthenticated := true;
     user := Some {| uid := u; email := None; phone_number := None;
                     custom_claims := None |} |}.

(** What a trip mutation with status label [lit] (stored as [st]) leaves
    behind, for the caller [who]: one statement sent, the conditional
    update on [id] and [driver_id]; the store updated by it; the first
    updated row returned, or the not-found-or-unauthorized error when no
    row matched, in which case the store is as before. *)
Definition trip_update_outcome (lit : string) (st : trip_status) (id who : string)
    (w : World) (out : World * result Trip) : Prop :=
  issued (fst out) = (issued w ++ [sending (UpdateTripStatus lit id who)])%list /\
  db (fst out) =
    set_trips (db w)
      (update_where (fun t => t_id t = id /\ t_driver_id t = who)
         (with_trip_status st) (trips (db w))) /\
  match filter (fun t => t_id t = id /\ t_driver_id t = who) (trips (db w)) with
  | [] => snd out = Throw "Trip not found or unauthorized" /\ db (fst out) = db w
  | row :: _ => snd out = Ok (with_trip_status st row)
  end.

(** What the store and the answer show of the status after such a
    mutation: every stored trip with this [id] and driver [who] has status
    [st]; a returned row is a stored row with this id and driver and
    status [st]; the call succeeds exactly when the caller has a trip with
    this id; the trips that do not match are the same before and after,
    and no trip changes its id or its driver. *)
Definition trip_status_written (st : trip_status) (id who : string)
    (w : World) (out : World * result Trip) : Prop :=
  (forall t, t ∈ trips (db (fst out)) -> t_id t = id -> t_driver_id t = who ->
             t_trip_status t = st) /\
  (forall row, snd out = Ok row ->
               row ∈ trips (db (fst out)) /\ t_id row = id /\ t_driver_id row = who /\
               t_trip_status row = st) /\
  ((exists t, t ∈ trips (db w) /\ t_id t = id /\ t_driver_id t = who) <->
   (exists row, snd out = Ok row)) /\
  (forall t, ~ (t_id t = id /\ t_driver_id t = who) ->
             (t ∈ trips (db (fst out)) <-> t ∈ trips (db w))) /\
  t_id <$> trips (db (fst out)) = t_id <$> trips (db w) /\
  t_driver_id <$> trips (db (fst out)) = t_driver_id <$> trips (db w).

(** The labels of the enumerated type [payment_status]. *)
Definition payment_statuses : list payment_status :=
  [PaymentPending; PaymentPaid; PaymentFailed; PaymentRefunded].

(** In the store [d] the payment [row] is a stored row whose status is
    mirrored by the booking it refers to: every stored booking with the
    payment's [booking_id] carries the payment's status, and both are
    labels of the enumerated type. *)
Definition mirrors_booking (d : Db) (row : Payment) : Prop :=
  row ∈ payments d /\
  p_payment_status row ∈ payment_statuses /\
  forall b, b ∈ bookings d -> b_id b = p_booking_id row ->
            b_payment_status b = p_payment_status row /\
            b_payment_status b ∈ payment_statuses.

(** A sample store: a driver with a trip, a vehicle and a profile; a rider
    with a booking on that trip and a pending payment. *)
Definition sample_db : Db :=
  {| trips := [ {| t_id := "trip-1"; t_driver_id := "driver-1";
                   t_trip_status := TripScheduled |} ];
     vehicles := [ {| v_id := "vehicle-1"; v_driver_id := "driver-1" |} ];
     bookings := [ {| b_id := "booking-1"; b_trip_id := "trip-1"; b_rider_id := "rider-1";
                      b_booking_status := BookingPending;
                      b_payment_status := PaymentPending |} ];
     payments := [ {| p_id := "payment-1"; p_booking_id := "booking-1";
                      p_paystack_reference := "yenko_1_abcd1234";
                      p_paystack_transaction_id := None;
                      p_payment_status := PaymentPending;
                      p_gateway_response := None |} ];
     reviews := [];
     driver_profiles := [ {| dp_id := "profile-1"; dp_user_id := "driver-1";
                             dp_vehicle_id := None; dp_average_rating := Some 0 |} ] |}.

Definition sample_world : World := {| db := sample_db; issued := [] |}.

(** A row with key [id] exists in the table, and no such row belongs to
    [who]. *)
Definition someone_elses {A} (table : list A) (key owner : A -> string)
    (id who : string) : Prop :=
  (exists r, r ∈ table /\ key r = id) /\
  (forall r, r ∈ table -> key r = id -> owner r <> who).

(** No row of the table has key [id]. *)
Definition absent {A} (table : list A) (key : A -> string) (id : string) : Prop :=
  forall r, r ∈ table -> key r <> id.

(** Two runs of a mutation from the same world, on ids [x] and [y], that
    the caller cannot tell apart: the same value or error comes back, and
    neither run changes the store. *)
Definition same_outcome {A} (op : string -> GraphQLContext -> M A)
    (context : GraphQLContext) (w : World) (x y : string) : Prop :=
  snd (op x context w) = snd (op y context w) /\
  db (fst (op x context w)) = db w /\
  db (fst (op y context w)) = db w.

(** The rows of the booking lookup of [createReview]. *)
Definition party_rows (d : Db) (bookingId who : string) : list BookingWithDriver :=
  b ← bookings d;
  t ← trips d;
  if decide (b_trip_id b = t_id t /\ b_id b = bookingId /\
             (b_rider_id b = who \/ t_driver_id t = who))
  then [ {| bd_booking := b; bd_driver_id := t_driver_id t |} ]
  else [].

(** The rows of its duplicate check. *)
Definition own_review_ids (d : Db) (bookingId who : string) : list string :=
  r_id <$> filter (fun r => r_booking_id r = bookingId /\ r_reviewer_id r = who) (reviews d).

(** The caller is a party to the booking: its rider, or the driver of its
    trip. *)
Definition is_party (d : Db) (bookingId who : string) : Prop :=
  exists b t, b ∈ bookings d /\ t ∈ trips d /\ b_trip_id b = t_id t /\
              b_id b = bookingId /\ (b_rider_id b = who \/ t_driver_id t = who).

(** A review of the booking by this reviewer is already stored. *)
Definition already_reviewed (d : Db) (bookingId who : string) : Prop :=
  exists r, r ∈ reviews d /\ r_booking_id r = bookingId /\ r_reviewer_id r = who.

(** The reviewee that [createReview] infers from the booking row. *)
Definition reviewee_of (booking : BookingWithDriver) (who : string) : string :=
  if decide (b_rider_id (bd_booking booking) = who)
  then bd_driver_id booking
  else b_rider_id (bd_booking booking).

Definition review_row (uuid bookingId who reviewee : string) (rating : Z)
    (comment : option string) : Review :=
  {| r_id := uuid; r_booking_id := bookingId; r_reviewer_id := who;
     r_reviewee_id := reviewee; r_rating := rating; r_comment := comment |}.

(** One [createReview] request. *)
Record review_call : Type := {
  rc_uuid : string;
  rc_booking : string;
  rc_rating : Z;
  rc_comment : option string;
  rc_context : GraphQLContext
}.

(** Requests served one after the other. *)
Fixpoint run_reviews (cs : list review_call) (w : World) : World * list (result Review) :=
  match cs with
  | [] => (w, [])
  | c :: cs' =>
      let '(w1, r) :=
        createReview (rc_uuid c) (rc_booking c) (rc_rating c) (rc_comment c)
          (rc_context c) w in
      let '(w2, rs) := run_reviews cs' w1 in
      (w2, r :: rs)
  end.

Definition succeeded {A} (r : result A) : Prop := exists a, r = Ok a.

(** The caller is the rider of the booking that the lookup finds, and
    [driver] is the driver of its trip: the reviewee is the driver party. *)
Definition rider_reviews_driver (d : Db) (driver : string) (c : review_call) : Prop :=
  exists u booking,
    requireAuth (rc_context c) = Ok u /\
    head (party_rows d (rc_booking c) (uid u)) = Some booking /\
    b_rider_id (bd_booking booking) = uid u /\
    bd_driver_id booking = driver.

(** The value the aggregate leaves in [average_rating], in hundredths. *)
Definition stored_mean (rs : list Z) : Z :=
  round_hundredths (sum_Z rs) (Z.of_nat (length rs)).

(** [h] hundredths is exactly the arithmetic mean of [rs]. *)
Definition is_mean_of (h : Z) (rs : list Z) : Prop :=
  h * Z.of_nat (length rs) = 100 * sum_Z rs.

(** The uid under which a call is made (empty when unauthenticated). *)
Definition caller_uid (c : review_call) : string :=
  match requireAuth (rc_context c) with
  | Ok u => uid u
  | Throw _ => EmptyString
  end.

(** The pair that the duplicate check looks at. *)
Definition review_key (c : review_call) : string * string :=
  (rc_booking c, caller_uid c).

(** What a call needs from the stored reviews to go through: a rating in
    range, no review of the booking by the caller yet, an unused id. *)
Definition admissible (d : Db) (c : review_call) : Prop :=
  1 <= rc_rating c <= 5 /\
  own_review_ids d (rc_booking c) (caller_uid c) = [] /\
  rc_uuid c ∉ (r_id <$> reviews d).

(** The rating check of the schema holds for the stored reviews of
    [driver]. *)
Definition ratings_in_range (d : Db) (driver : string) : Prop :=
  Forall (fun x => 1 <= x <= 5) (ratings_for driver (reviews d)).

(** A store with three riders booked on one trip of a driver who has a
    profile, and the three riders' reviews of that driver. *)
Definition review_db : Db :=
  {| trips := [ {| t_id := "trip-1"; t_driver_id := "driver-1";
                   t_trip_status := TripCompleted |} ];
     vehicles := [];
     bookings :=
       [ {| b_id := "booking-1"; b_trip_id := "trip-1"; b_rider_id := "rider-1";
            b_booking_status := BookingCompleted; b_payment_status := PaymentPaid |};
         {| b_id := "booking-2"; b_trip_id := "trip-1"; b_rider_id := "rider-2";
            b_booking_status := BookingCompleted; b_payment_status := PaymentPaid |};
         {| b_id := "booking-3"; b_trip_id := "trip-1"; b_rider_id := "rider-3";
            b_booking_status := BookingCompleted; b_payment_status := PaymentPaid |} ];
     payments := [];
     reviews := [];
     driver_profiles := [ {| dp_id := "profile-1"; dp_user_id := "driver-1";
                             dp_vehicle_id := None; dp_average_rating := Some 0 |} ] |}.

Definition review_world : World := {| db := review_db; issued := [] |}.

Definition sample_reviews : list review_call :=
  [ {| rc_uuid := "review-1"; rc_booking := "booking-1"; rc_rating := 5;
       rc_comment := None; rc_context := caller "rider-1" |};
    {| rc_uuid := "review-2"; rc_booking := "booking-2"; rc_rating := 5;
       rc_comment := None; rc_context := caller "rider-2" |};
    {| rc_uuid := "review-3"; rc_booking := "booking-3"; rc_rating := 4;
       rc_comment := Some "late"; rc_context := caller "rider-3" |} ].

End ResolverTerms.

Section TrafficTerms.
Import RateLimiter Traffic.

(** A second client, keyed by its peer address. *)
Definition other_request : Request :=
  {| x_forwarded_for := FwdUndefined; remoteAddress := Some "198.51.100.4" |}.

End TrafficTerms.

Section RoleTerms.
Import Auth ErrorHandler Roles.

(** A token whose only extra claim is [admin]. *)
Definition admin_only (t : DecodedIdToken) (name : string) : bool :=
  String.eqb name "admin" && String.eqb (tok_uid t) "ops-1".

(** The context that [authMiddleware] builds for a rider's token. *)
Definition rider_context : GraphQLContext :=
  {| isAuthenticated := true;
     user := Some {| uid := "rider-1"; email := Some "rider@example.com";
                     phone_number := None;
                     custom_claims := Some {| tok_uid := "rider-1";
                                              tok_email := Some "rider@example.com";
                                              tok_phone_number := None |} |} |}.

End RoleTerms.

Section ClassifierTerms.
Import ErrorHandler.

(** The texts the classifier puts in place of an error's own message. *)
Definition canned_messages : list string :=
  [ "Authentication required"; "Insufficient permissions"; "Resource not found";
    "Resource already exists"; "Validation error"; "Database error occurred";
    "An unexpected error occurred" ].

(** The codes of the taxonomy with their status. *)
Definition taxonomy : list (string * Z) :=
  [ ("UNAUTHENTICATED", 401); ("FORBIDDEN", 403); ("NOT_FOUND", 404);
    ("CONFLICT", 409); ("BAD_USER_INPUT", 400); ("INTERNAL_SERVER_ERROR", 500) ].

End ClassifierTerms.

Section MutationTerms.
Import Store Database Auth ErrorHandler Resolvers.

(** The three status mutations of a trip. *)
Definition trip_mutations : list (string -> GraphQLContext -> M Trip) :=
  [cancelTrip; startTrip; completeTrip].

(** The body shared by the three trip mutations, for the status label
    [lit]. *)
Definition trip_mutation (lit : string) (id : string) (context : GraphQLContext) : M Trip :=
  bind (lift (requireAuth context)) (fun user =>
  bind (query (UpdateTripStatus lit id (uid user))) (fun result =>
  match result with
  | [] => throw "Trip not found or unauthorized"
  | row :: _ => ret row
  end)).

(** Only the trips table differs between two stores. *)
Definition only_trips_differ (d d' : Db) : Prop :=
  vehicles d' = vehicles d /\ bookings d' = bookings d /\ payments d' = payments d /\
  reviews d' = reviews d /\ driver_profiles d' = driver_profiles d.

Definition only_vehicles_differ (d d' : Db) : Prop :=
  trips d' = trips d /\ bookings d' = bookings d /\ payments d' = payments d /\
  reviews d' = reviews d /\ driver_profiles d' = driver_profiles d.

Definition only_bookings_differ (d d' : Db) : Prop :=
  trips d' = trips d /\ vehicles d' = vehicles d /\ payments d' = payments d /\
  reviews d' = reviews d /\ driver_profiles d' = driver_profiles d.

End MutationTerms.

Section ReviewEffects.
Import Store Database Auth ErrorHandler Resolvers.


End ReviewEffects.

Section ConnectionTerms.
Import Connection.

(** A driver whose pools are their targets and whose test query fails. *)
Definition unreachable_test (p : target) : result unit := Throw "connect ECONNREFUSED".

Definition sample_env : Env :=
  {| DATABASE_URL := Some "postgresql://app@db.internal:5432/yenko";
     DB_HOST := None; DB_PORT := None; DB_NAME := None; DB_USER := None;
     DB_PASSWORD := None |}.

End ConnectionTerms.

Section NotificationTerms.
Import Auth Notifications.

Definition sample_notifications : list Notification :=
  [ {| n_id := "n1"; n_user_id := "ama"; n_is_read := Some false; n_created_at := Some 10 |};
    {| n_id := "n2"; n_user_id := "kofi"; n_is_read := Some false; n_created_at := Some 20 |};
    {| n_id := "n3"; n_user_id := "ama"; n_is_read := Some true; n_created_at := Some 30 |};
    {| n_id := "n4"; n_user_id := "ama"; n_is_read := None; n_created_at := None |};
    {| n_id := "n5"; n_user_id := "ama"; n_is_read := Some false; n_created_at := Some 40 |} ].

End NotificationTerms.

Section ServerTerms.
Import RateLimiter Auth Database Resolvers Server.

(** A resolver that starts by requiring authentication. *)
Definition guarded {A} (body : FirebaseUser -> M A) : GraphQLContext -> M A :=
  fun context => user <- lift (requireAuth context) ;; body user.

Definition sample_incoming : Incoming :=
  {| request := sample_request; authorization := Some "Bearer good-token" |}.

(** A limiter whose window for the sample client is used up. *)
Definition exhausted_limiter : limiter :=
  with_store (new_limiter 900000 100)
    {[ getKey sample_request := {| count := 100; resetTime := 900000 |} ]}.

(** A limiter in whose running window the sample client has been served
    57 times. *)
Definition running_limiter : limiter :=
  with_store (new_limiter 900000 100)
    {[ getKey sample_request := {| count := 57; resetTime := 900000 |} ]}.

End ServerTerms.

Section BuilderTerms.
Import Builders.

(** The entries of an input that are written. *)
Definition defined_entries (input : list (string * value)) : list (string * value) :=
  filter (fun e => is_undefined (snd e) = false) input.

(** The fields of an [UpdateUserInput] that are written, with their columns. *)
Definition kept_fields (input : UpdateUserInput) : list (string * string) :=
  omap (fun cf : string * option string =>
          match snd cf with
          | Some s => if Js.truthy s then Some (fst cf, s) else None
          | None => None
          end)
    [("first_name", firstName input); ("last_name", lastName input);
     ("profile_image_url", profileImageUrl input)].

(** [col = $n] for the [i]-th written field, counting from 0. *)
Definition assignment (i : nat) (col : string) : string :=
  col ++ " = $" ++ pretty (S i).

(** The invariant of both loops: the placeholders issued so far are
    [$1 ... $(paramCount - 1)], one per value. *)
Definition lined_up (b : builder) : Prop :=
  paramCount b = S (length (values b)) /\
  length (updateFields b) = length (values b).

Definition sample_user_input : UpdateUserInput :=
  {| firstName := Some "Ama"; lastName := Some ""; profileImageUrl := None |}.

Definition sample_vehicle_input : list (string * value) :=
  [("color", VString "blue"); ("insuranceExpiry", VUndefined);
   ("licensePlate", VString "GR-1234-21"); ("vehicleImages", VStrings ["a.png"])].

End BuilderTerms.

(** * Properties *)

(** ** Rate limiter *)

Section RateLimiterFacts.
Import RateLimiter.

Variable req : Request.

Lemma isAllowed_fresh l now :
  window_opens req l now ->
  isAllowed l req now =
    (with_store l (<[getKey req := {| count := 1; resetTime := now + windowMs l |}]> (store l)),
     {| allowed := true; d_resetTime := now + windowMs l;
        remaining := maxRequests l - 1 |}).
Proof.
  unfold window_opens, isAllowed. intros H.
  destruct (store l !! getKey req) as [e|]; [|reflexivity].
  rewrite bool_decide_eq_true_2 by assumption. reflexivity.
Qed.

Lemma isAllowed_counted l now e :
  store l !! getKey req = Some e ->
  now <= resetTime e ->
  isAllowed l req now =
    (with_store l (<[getKey req := {| count := count e + 1; resetTime := resetTime e |}]> (store l)),
     {| allowed := bool_decide (count e + 1 <= maxRequests l);
        d_resetTime := resetTime e;
        remaining := Z.max 0 (maxRequests l - (count e + 1)) |}).
Proof.
  unfold isAllowed. intros -> H.
  rewrite bool_decide_eq_false_2 by lia. reflexivity.
Qed.

(** A request of another client leaves this client's entry alone. *)
Lemma isAllowed_other_key l req' now :
  getKey req' <> getKey req ->
  store (fst (isAllowed l req' now)) !! getKey req = store l !! getKey req.
Proof.
  intros Hne. unfold isAllowed.
  destruct (store l !! getKey req') as [e|]; [destruct (bool_decide _)|];
    simpl; apply lookup_insert_ne; exact Hne.
Qed.

Lemma ceil_div_le a q : a <= 1000 * q -> Js.ceil_div a 1000 <= q.
Proof.
  intros H. unfold Js.ceil_div.
  assert (- q <= (- a) / 1000); [|lia].
  apply Z.div_le_lower_bound; lia.
Qed.

Lemma ceil_div_nonneg a : 0 <= a -> 0 <= Js.ceil_div a 1000.
Proof.
  intros H. unfold Js.ceil_div.
  assert ((- a) / 1000 <= 0); [|lia].
  apply Z.div_le_upper_bound; lia.
Qed.

(** Requests that fall inside a window already open: each one is counted,
    and the [i]-th is let through exactly when the counter it reaches does
    not exceed the limit. *)
Lemma serve_in_window clock : forall l c R,
  store l !! getKey req = Some {| count := c; resetTime := R |} ->
  Forall (fun tt => fst tt <= R) clock ->
  store (fst (serve l req clock)) !! getKey req
    = Some {| count := c + Z.of_nat (length clock); resetTime := R |} /\
  windowMs (fst (serve l req clock)) = windowMs l /\
  maxRequests (fst (serve l req clock)) = maxRequests l /\
  length (snd (serve l req clock)) = length clock /\
  forall (i : nat) r tt,
    snd (serve l req clock) !! i = Some r -> clock !! i = Some tt ->
    x_ratelimit_reset r = R /\
    x_ratelimit_remaining r = Z.max 0 (maxRequests l - (c + Z.of_nat i + 1)) /\
    served r =
      if bool_decide (c + Z.of_nat i + 1 <= maxRequests l) then Next
      else Rejected 429 (Js.ceil_div (R - snd tt) 1000).
Proof.
  induction clock as [|[t t'] clock IH]; intros l c R Hl Hc.
  - simpl. rewrite Z.add_0_r. split_and!; try done.
  - apply Forall_cons in Hc as [Ht Hc]. simpl in Ht.
    simpl serve. unfold rateLimiterMiddleware.
    rewrite (isAllowed_counted l t _ Hl) by (simpl; lia). simpl count. simpl resetTime.
    set (l1 := with_store l _).
    assert (Hl1 : store l1 !! getKey req = Some {| count := c + 1; resetTime := R |}).
    { subst l1. simpl. apply lookup_insert_eq. }
    specialize (IH l1 (c + 1) R Hl1 Hc).
    destruct (serve l1 req clock) as [l2 rs] eqn:Hs. simpl in IH |- *.
    destruct IH as (IH1 & IH2 & IH3 & IH4 & IH5).
    split; [rewrite IH1; do 2 f_equal; lia|].
    split; [rewrite IH2; reflexivity|].
    split; [rewrite IH3; reflexivity|].
    split; [rewrite IH4; reflexivity|].
    intros [|i] r tt Hr Htt; simpl in Hr, Htt.
    + injection Hr as <-. injection Htt as <-.
      replace (c + Z.of_nat 0 + 1) with (c + 1) by lia. simpl.
      split_and!; try done.
      destruct (bool_decide (c + 1 <= maxRequests l)); reflexivity.
    + destruct (IH5 i r tt Hr Htt) as (E1 & E2 & E3).
      replace (c + Z.of_nat (S i) + 1) with (c + 1 + Z.of_nat i + 1) by lia.
      subst l1. simpl in E2, E3. auto.
Qed.

Lemma cleanup_lookup l t key :
  store (cleanup l t) !! key =
    match store l !! key with
    | Some e => if decide (resetTime e < t) then None else Some e
    | None => None
    end.
Proof.
  unfold cleanup. simpl.
  destruct (store l !! key) as [e|] eqn:He.
  - destruct (decide (resetTime e < t)) as [Hlt|Hge].
    + apply map_lookup_filter_None. right. intros e' He'. simpl.
      rewrite He in He'. injection He' as <-. intros Hn. exact (Hn Hlt).
    + apply map_lookup_filter_Some. split; [exact He|exact Hge].
  - apply map_lookup_filter_None. left. exact He.
Qed.

(** The periodic sweep does not change what a later request is told, nor
    the entry it leaves for its key. *)
Lemma cleanup_transparent l t now :
  t <= now ->
  snd (isAllowed (cleanup l t) req now) = snd (isAllowed l req now) /\
  store (fst (isAllowed (cleanup l t) req now)) !! getKey req
    = store (fst (isAllowed l req now)) !! getKey req.
Proof.
  intros Ht. unfold isAllowed. rewrite cleanup_lookup.
  change (windowMs (cleanup l t)) with (windowMs l).
  change (maxRequests (cleanup l t)) with (maxRequests l).
  destruct (store l !! getKey req) as [e|].
  - destruct (decide (resetTime e < t)) as [Hlt|Hge].
    + rewrite bool_decide_eq_true_2 by lia. simpl.
      split; [reflexivity|]. rewrite !lookup_insert_eq. reflexivity.
    + destruct (bool_decide (resetTime e < now)); simpl;
        (split; [reflexivity|]); rewrite !lookup_insert_eq; reflexivity.
  - simpl. split; [reflexivity|]. rewrite !lookup_insert_eq. reflexivity.
Qed.

End RateLimiterFacts.

Section RateLimiterWindow.
Import RateLimiter.

(** C1 (as amended). With limit 100 and window 900 s: when a request at
    time [t0] opens a window (no entry, or reset time strictly before
    [t0]), it is allowed and the entry becomes count 1 with reset time
    [t0 + W]; of the requests that follow at times not later than that
    reset time, exactly those among the first 100 of the window are passed
    on, every later one is answered 429 with a retry-after of at most 900
    seconds; and the first request strictly after the reset time opens a
    fresh entry with count 1 and reset time [now + W] and is allowed. *)
Theorem rate_limiter_fixed_window (req : Request) (l : limiter)
    (t0 t0' : Z) (clock : list (Z * Z)) :
  windowMs l = 900000 ->
  maxRequests l = 100 ->
  window_opens req l t0 ->
  Forall (fun tt => t0 <= fst tt <= t0 + 900000 /\ fst tt <= snd tt) clock ->
  (forall (i : nat) r, snd (serve l req ((t0, t0') :: clock)) !! i = Some r ->
     x_ratelimit_reset r = t0 + 900000 /\
     x_ratelimit_remaining r = Z.max 0 (99 - Z.of_nat i) /\
     ((i < 100)%nat -> served r = Next) /\
     ((100 <= i)%nat -> exists ra, served r = Rejected 429 ra /\ ra <= 900)) /\
  length (snd (serve l req ((t0, t0') :: clock))) = S (length clock) /\
  store (fst (serve l req ((t0, t0') :: clock))) !! getKey req
    = Some {| count := Z.of_nat (S (length clock)); resetTime := t0 + 900000 |} /\
  (forall t t', t0 + 900000 < t ->
     store (fst (rateLimiterMiddleware (fst (serve l req ((t0, t0') :: clock))) req t t'))
       !! getKey req = Some {| count := 1; resetTime := t + 900000 |} /\
     served (snd (rateLimiterMiddleware (fst (serve l req ((t0, t0') :: clock))) req t t'))
       = Next).
Proof.
  intros HW HM Hopen Hclock.
  remember (serve l req ((t0, t0') :: clock)) as run eqn:Hrun.
  simpl in Hrun. unfold rateLimiterMiddleware in Hrun.
  rewrite (isAllowed_fresh req l t0 Hopen), HW, HM in Hrun.
  set (l1 := with_store l _) in Hrun.
  assert (Hl1 : store l1 !! getKey req = Some {| count := 1; resetTime := t0 + 900000 |}).
  { subst l1. simpl. apply lookup_insert_eq. }
  assert (Hin : Forall (fun tt : Z * Z => fst tt <= t0 + 900000) clock).
  { eapply Forall_impl; [exact Hclock|]. simpl. intros tt H. lia. }
  destruct (serve_in_window req clock l1 1 (t0 + 900000) Hl1 Hin)
    as (S1 & S2 & S3 & S4 & S5).
  destruct (serve l1 req clock) as [l2 rs] eqn:Hs. subst run.
  simpl in S1, S2, S3, S4, S5 |- *.
  assert (HW2 : windowMs l2 = 900000) by (rewrite S2; subst l1; exact HW).
  assert (HM2 : maxRequests l2 = 100) by (rewrite S3; subst l1; exact HM).
  split_and!.
  - intros [|i] r Hr; simpl in Hr.
    + injection Hr as <-. simpl. split_and!; try done. intros H; lia.
    + destruct (lookup_lt_is_Some_2 clock i) as [tt Htt].
      { rewrite <- S4. eapply lookup_lt_Some; eassumption. }
      destruct (S5 i r tt Hr Htt) as (E1 & E2 & E3).
      subst l1. simpl in E2, E3. rewrite HM in E2, E3.
      split_and!.
      * exact E1.
      * rewrite E2. f_equal. lia.
      * intros Hi. rewrite E3. rewrite bool_decide_eq_true_2 by lia. reflexivity.
      * intros Hi. rewrite E3. rewrite bool_decide_eq_false_2 by lia.
        eexists; split; [reflexivity|].
        apply ceil_div_le.
        pose proof (proj1 (Forall_lookup _ clock) Hclock i tt Htt) as Hb.
        simpl in Hb. lia.
  - rewrite S4. reflexivity.
  - rewrite S1. do 2 f_equal. lia.
  - intros t t' Ht. unfold rateLimiterMiddleware.
    rewrite (isAllowed_fresh req l2 t).
    + rewrite HW2. simpl. split; [apply lookup_insert_eq|reflexivity].
    + unfold window_opens. rewrite S1. simpl. lia.
Qed.

Lemma rate_limiter_fixed_window_witness :
  window_opens sample_request configured_limiter 0 /\
  store (fst (serve configured_limiter sample_request [(0, 0); (5, 6); (900000, 900001)]))
    !! getKey sample_request = Some {| count := 3; resetTime := 900000 |}.
Proof.
  split; [exact I|].
  apply (rate_limiter_fixed_window sample_request configured_limiter 0 0
           [(5, 6); (900000, 900001)]).
  - reflexivity.
  - reflexivity.
  - exact I.
  - repeat constructor; simpl; lia.
Defined.

(** C1 as stated fails at the reset time itself: after 100 requests of a
    window opened at time 0, a request arriving exactly at the reset time
    900000 is not given a fresh entry; it is counted as the 101st of the
    old window and answered 429. *)
Lemma rate_limiter_at_reset_time_counterexample :
  let l100 := fst (serve configured_limiter sample_request (repeat (0, 0) 100)) in
  store l100 !! getKey sample_request = Some {| count := 100; resetTime := 900000 |} /\
  store (fst (rateLimiterMiddleware l100 sample_request 900000 900000))
    !! getKey sample_request = Some {| count := 101; resetTime := 900000 |} /\
  served (snd (rateLimiterMiddleware l100 sample_request 900000 900000))
    = Rejected 429 0.
Proof. vm_compute. split_and!; reflexivity. Qed.

End RateLimiterWindow.

(** ** Context builder and authorization guard *)

Section AuthFacts.
Import Auth ErrorHandler Database Resolvers.

Lemma startsWith_truthy h : Js.startsWith "Bearer " h = true -> Js.truthy h = true.
Proof. destruct h; simpl; [intros H; discriminate H|reflexivity]. Qed.

Lemma authMiddleware_no_bearer verifyIdToken authorization :
  no_bearer authorization ->
  authMiddleware verifyIdToken authorization = ([], Ok unauthenticated).
Proof.
  unfold authMiddleware. destruct authorization as [h|]; simpl; [|reflexivity].
  intros ->. rewrite orb_true_r. reflexivity.
Qed.

Lemma authMiddleware_rejected verifyIdToken h e :
  Js.startsWith "Bearer " h = true ->
  verifyIdToken (Js.substring_from 7 h) = Throw e ->
  authMiddleware verifyIdToken (Some h) =
    ([VerifyIdToken (Js.substring_from 7 h); LogWarn "Invalid Firebase token:"],
     Ok unauthenticated).
Proof.
  intros Hb Hv. unfold authMiddleware.
  rewrite Hb, (startsWith_truthy h Hb). simpl negb. simpl orb. cbv iota.
  unfold call_verifyIdToken. rewrite Hv. reflexivity.
Qed.

Lemma authMiddleware_lacking verifyIdToken authorization :
  lacks_valid_bearer verifyIdToken authorization ->
  snd (authMiddleware verifyIdToken authorization) = Ok unauthenticated.
Proof.
  unfold lacks_valid_bearer. destruct authorization as [h|].
  - destruct (Js.startsWith "Bearer " h) eqn:Hb.
    + intros [?|[e He]]; [discriminate|].
      rewrite (authMiddleware_rejected _ h e Hb He). reflexivity.
    + intros _. rewrite authMiddleware_no_bearer; [reflexivity|exact Hb].
  - intros _. reflexivity.
Qed.

Lemma requireAuth_unauthenticated context :
  isAuthenticated context = false \/ user context = None ->
  requireAuth context = Throw "Authentication required".
Proof.
  unfold requireAuth. intros [-> | ->]; [reflexivity|].
  destruct (isAuthenticated context); reflexivity.
Qed.

(** C2. The context builder never throws. With no bearer credential in the
    header it returns the unauthenticated context and leaves no event at
    all, so the identity provider is not called; when the provider rejects
    the token it logs a warning and returns the unauthenticated context. *)
Theorem authMiddleware_never_throws
    (verifyIdToken : string -> result DecodedIdToken) (authorization : option string) :
  (exists context, snd (authMiddleware verifyIdToken authorization) = Ok context) /\
  (no_bearer authorization ->
     authMiddleware verifyIdToken authorization = ([], Ok unauthenticated)) /\
  (forall h e,
     authorization = Some h ->
     Js.startsWith "Bearer " h = true ->
     verifyIdToken (Js.substring_from 7 h) = Throw e ->
     authMiddleware verifyIdToken authorization =
       ([VerifyIdToken (Js.substring_from 7 h); LogWarn "Invalid Firebase token:"],
        Ok unauthenticated)).
Proof.
  split_and!.
  - unfold authMiddleware, call_verifyIdToken.
    destruct authorization as [h|]; [|simpl; eauto].
    destruct (negb (Js.truthy h) || negb (Js.startsWith "Bearer " h)); [simpl; eauto|].
    destruct (verifyIdToken (Js.substring_from 7 h)); simpl; eauto.
  - apply authMiddleware_no_bearer.
  - intros h e -> Hb Hv. apply (authMiddleware_rejected _ h e); assumption.
Qed.

Lemma authMiddleware_never_throws_witness :
  authMiddleware sample_provider (Some "Basic dXNlcjpwdw==") = ([], Ok unauthenticated) /\
  authMiddleware sample_provider (Some "Bearer stale-token") =
    ([VerifyIdToken "stale-token"; LogWarn "Invalid Firebase token:"], Ok unauthenticated).
Proof.
  split.
  - apply (authMiddleware_never_throws sample_provider (Some "Basic dXNlcjpwdw==")).
    reflexivity.
  - apply (proj2 (proj2 (authMiddleware_never_throws sample_provider
                            (Some "Bearer stale-token")))
             "Bearer stale-token" "Decoding Firebase ID token failed");
      reflexivity.
Defined.

(** C3. [requireAuth] returns the user of an authenticated context that
    carries one and otherwise throws [Authentication required], which the
    classifier reports as UNAUTHENTICATED with status 401 in every
    environment; so on a request without a valid bearer credential every
    resolver that starts with [requireAuth], whatever it does next, fails
    with that error before any statement is sent; the modelled mutations
    are instances. *)
Theorem requireAuth_fails_closed :
  (forall context u,
     isAuthenticated context = true -> user context = Some u ->
     requireAuth context = Ok u) /\
  (forall context,
     isAuthenticated context = false \/ user context = None ->
     requireAuth context = Throw "Authentication required") /\
  (forall production,
     code (errorHandler production (thrown "Authentication required")) = "UNAUTHENTICATED" /\
     statusCode (errorHandler production (thrown "Authentication required")) = 401) /\
  (forall verifyIdToken authorization,
     lacks_valid_bearer verifyIdToken authorization ->
     exists context,
       snd (authMiddleware verifyIdToken authorization) = Ok context /\
       (forall (A : Type) (rest : FirebaseUser -> M A) (w : World),
          bind (lift (requireAuth context)) rest w
            = (w, Throw "Authentication required")) /\
       forall (w : World) (id uuid txn : string) (rating : Z) (comment : option string),
         cancelTrip id context w = (w, Throw "Authentication required") /\
         startTrip id context w = (w, Throw "Authentication required") /\
         completeTrip id context w = (w, Throw "Authentication required") /\
         deleteVehicle id context w = (w, Throw "Authentication required") /\
         confirmBooking id context w = (w, Throw "Authentication required") /\
         cancelBooking id context w = (w, Throw "Authentication required") /\
         verifyPayment txn id context w = (w, Throw "Authentication required") /\
         processRefund id context w = (w, Throw "Authentication required") /\
         createReview uuid id rating comment context w
           = (w, Throw "Authentication required")).
Proof.
  split_and!.
  - intros context u H1 H2. unfold requireAuth. rewrite H1, H2. reflexivity.
  - apply requireAuth_unauthenticated.
  - intros production. split; reflexivity.
  - intros verifyIdToken authorization H.
    exists unauthenticated. split; [apply authMiddleware_lacking; exact H|].
    split; [reflexivity|].
    intros. split_and!; reflexivity.
Qed.

Lemma requireAuth_fails_closed_witness :
  requireAuth {| isAuthenticated := true; user := None |} = Throw "Authentication required" /\
  exists context,
    snd (authMiddleware sample_provider (Some "Bearer stale-token")) = Ok context /\
    requireAuth context = Throw "Authentication required".
Proof.
  destruct requireAuth_fails_closed as (_ & H2 & _ & H4).
  split.
  - apply H2. right. reflexivity.
  - destruct (H4 sample_provider (Some "Bearer stale-token")) as (context & Hc & _).
    + right. exists "Decoding Firebase ID token failed". reflexivity.
    + exists context. split; [exact Hc|].
      apply H2. vm_compute in Hc. injection Hc as <-. left. reflexivity.
Defined.

End AuthFacts.

(** ** Store and query wrapper *)

Section StoreFacts.
Import Store Database.

Lemma filter_none {A} (P : A -> Prop) `{forall x, Decision (P x)} (l : list A) :
  (forall x, x ∈ l -> ~ P x) -> filter P l = [].
Proof.
  induction l as [|a l IH]; intros Hl; [reflexivity|].
  rewrite filter_cons_False by (apply Hl; left).
  apply IH. intros x Hx. apply Hl. right. exact Hx.
Qed.

Lemma filter_all {A} (P : A -> Prop) `{forall x, Decision (P x)} (l : list A) :
  (forall x, x ∈ l -> P x) -> filter P l = l.
Proof.
  induction l as [|a l IH]; intros Hl; [reflexivity|].
  rewrite filter_cons_True by (apply Hl; left).
  f_equal. apply IH. intros x Hx. apply Hl. right. exact Hx.
Qed.

Lemma update_where_untouched {A} (P : A -> Prop) `{forall x, Decision (P x)}
    (f : A -> A) (l : list A) :
  filter P l = [] -> update_where P f l = l.
Proof.
  unfold update_where. induction l as [|a l IH]; intros Hf; [reflexivity|].
  rewrite filter_cons in Hf. simpl. destruct (decide (P a)); [discriminate|].
  f_equal. apply IH. exact Hf.
Qed.

Lemma set_trips_same d : set_trips d (trips d) = d.
Proof. destruct d; reflexivity. Qed.

Lemma set_vehicles_same d : set_vehicles d (vehicles d) = d.
Proof. destruct d; reflexivity. Qed.

Lemma set_bookings_same d : set_bookings d (bookings d) = d.
Proof. destruct d; reflexivity. Qed.

Lemma set_payments_same d : set_payments d (payments d) = d.
Proof. destruct d; reflexivity. Qed.

(** What [query] does with a statement that the store accepts or refuses. *)
Lemma query_ok {R} (s : Stmt R) w d' res :
  exec s (db w) = Ok (d', res) ->
  query s w = ({| db := d'; issued := (issued w ++ [sending s])%list |}, Ok (rows res)).
Proof. unfold query. intros ->. reflexivity. Qed.

Lemma query_throw {R} (s : Stmt R) w e :
  exec s (db w) = Throw e ->
  query s w = ({| db := db w; issued := (issued w ++ [sending s])%list |}, Throw e).
Proof. unfold query. intros ->. reflexivity. Qed.

Lemma bind_ok {A B} (m : M A) (k : A -> M B) w w' a :
  m w = (w', Ok a) -> bind m k w = k a w'.
Proof. unfold bind. intros ->. reflexivity. Qed.

Lemma bind_throw {A B} (m : M A) (k : A -> M B) w w' e :
  m w = (w', Throw e) -> bind m k w = (w', Throw e).
Proof. unfold bind. intros ->. reflexivity. Qed.

End StoreFacts.

(** ** Conditional ownership updates *)

Section OwnershipFacts.
Import Store Database Auth ErrorHandler Resolvers.

Lemma trip_update_run lit st id who w (k : list Trip -> M Trip) :
  trip_status_in lit = Some st ->
  (forall rows, k rows = match rows with
                         | [] => throw "Trip not found or unauthorized"
                         | row :: _ => ret row
                         end) ->
  trip_update_outcome lit st id who w (bind (query (UpdateTripStatus lit id who)) k w).
Proof.
  intros Hlit Hk. unfold bind, query. simpl exec. rewrite Hlit. simpl rows.
  rewrite Hk. unfold trip_update_outcome, updated_rows.
  destruct (filter _ (trips (db w))) as [|row rest] eqn:Hf; simpl.
  - split_and!; try reflexivity.
    rewrite update_where_untouched by exact Hf. apply set_trips_same.
  - split_and!; reflexivity.
Qed.

(** The conditional update writes the status: what [trip_update_outcome]
    gives as images of the update, read off the rows. *)
Lemma trip_update_writes lit st id who w out :
  trip_update_outcome lit st id who w out -> trip_status_written st id who w out.
Proof.
  intros (_ & Hdb & Hres). unfold trip_status_written. rewrite Hdb.
  change (trips (set_trips (db w) ?x)) with x.
  assert (Hpost : forall t,
            t ∈ update_where (fun t => t_id t = id /\ t_driver_id t = who)
                  (with_trip_status st) (trips (db w)) <->
            exists x, x ∈ trips (db w) /\
                      ((t_id x = id /\ t_driver_id x = who) /\ t = with_trip_status st x \/
                       ~ (t_id x = id /\ t_driver_id x = who) /\ t = x)).
  { intros t. unfold update_where. rewrite list_elem_of_fmap. split.
    - intros (x & -> & Hx). exists x. split; [exact Hx|].
      destruct (decide (t_id x = id /\ t_driver_id x = who)); [left|right]; split; auto.
    - intros (x & Hx & [[Hp ->]|[Hn ->]]); exists x; (split; [|exact Hx]).
      + rewrite decide_True by exact Hp. reflexivity.
      + rewrite decide_False by exact Hn. reflexivity. }
  assert (Hhit : forall row rest,
            filter (fun t => t_id t = id /\ t_driver_id t = who) (trips (db w)) = row :: rest ->
            row ∈ trips (db w) /\ t_id row = id /\ t_driver_id row = who).
  { intros row rest Hf.
    assert (Hrow : row ∈ filter (fun t => t_id t = id /\ t_driver_id t = who) (trips (db w)))
      by (rewrite Hf; left).
    apply list_elem_of_filter in Hrow as [[Hid Hown] Hin]. auto. }
  split_and!.
  - intros t Ht Hid Hown. apply Hpost in Ht as (x & _ & [[_ ->]|[Hn ->]]).
    + reflexivity.
    + exfalso. apply Hn. split; assumption.
  - intros row Hrow.
    destruct (filter _ (trips (db w))) as [|row0 rest] eqn:Hf.
    + destruct Hres as [Hthrow _]. rewrite Hthrow in Hrow. discriminate.
    + rewrite Hres in Hrow. injection Hrow as <-.
      destruct (Hhit row0 rest eq_refl) as (Hin & Hid & Hown).
      split_and!; [|exact Hid|exact Hown|reflexivity].
      apply Hpost. exists row0. split; [exact Hin|]. left. split; [split; assumption|reflexivity].
  - destruct (filter _ (trips (db w))) as [|row0 rest] eqn:Hf.
    + destruct Hres as [Hthrow _]. split.
      * intros (t & Ht & Hid & Hown). exfalso.
        eapply filter_nil_not_elem_of; [exact Hf| |exact Ht]. split; assumption.
      * intros (row & Hrow). rewrite Hthrow in Hrow. discriminate.
    + destruct (Hhit row0 rest eq_refl) as (Hin & Hid & Hown). split.
      * intros _. eexists. exact Hres.
      * intros _. exists row0. auto.
  - intros t Hn. rewrite Hpost. split.
    + intros (x & Hx & [[[Hid Hown] ->]|[_ ->]]); [|exact Hx].
      exfalso. apply Hn. split; assumption.
    + intros Ht. exists t. split; [exact Ht|]. right. split; [exact Hn|reflexivity].
  - unfold update_where. rewrite <- list_fmap_compose. apply list_fmap_ext.
    intros _ x _. simpl. destruct (decide _); reflexivity.
  - unfold update_where. rewrite <- list_fmap_compose. apply list_fmap_ext.
    intros _ x _. simpl. destruct (decide _); reflexivity.
Qed.

(** C4. For an authenticated caller, [cancelTrip], [startTrip] and
    [completeTrip] each send one conditional update restricted to the trip
    id and [driver_id = caller], and it sets the status: afterwards every
    stored trip with this id that belongs to the caller has status
    cancelled, active and completed respectively, and so has the row
    returned, which is one of them; no other trip changes. When no row
    matches (the trip is absent or not the caller's) they fail with the
    not-found-or-unauthorized error (classified NOT_FOUND, 404) and the
    store is as before; otherwise they return the updated row. *)
Theorem trip_mutations_conditional_update
    (w : World) (id : string) (context : GraphQLContext) (u : FirebaseUser) :
  requireAuth context = Ok u ->
  (trip_update_outcome "cancelled" TripCancelled id (uid u) w (cancelTrip id context w) /\
   trip_status_written TripCancelled id (uid u) w (cancelTrip id context w)) /\
  (trip_update_outcome "active" TripActive id (uid u) w (startTrip id context w) /\
   trip_status_written TripActive id (uid u) w (startTrip id context w)) /\
  (trip_update_outcome "completed" TripCompleted id (uid u) w (completeTrip id context w) /\
   trip_status_written TripCompleted id (uid u) w (completeTrip id context w)) /\
  (forall production,
     code (errorHandler production (thrown "Trip not found or unauthorized")) = "NOT_FOUND" /\
     statusCode (errorHandler production (thrown "Trip not found or unauthorized")) = 404).
Proof.
  intros Hu.
  assert (H1 : trip_update_outcome "cancelled" TripCancelled id (uid u) w
                 (cancelTrip id context w)).
  { unfold cancelTrip. unfold bind at 1, lift. rewrite Hu.
    apply trip_update_run; [reflexivity|]. intros [|? ?]; reflexivity. }
  assert (H2 : trip_update_outcome "active" TripActive id (uid u) w
                 (startTrip id context w)).
  { unfold startTrip. unfold bind at 1, lift. rewrite Hu.
    apply trip_update_run; [reflexivity|]. intros [|? ?]; reflexivity. }
  assert (H3 : trip_update_outcome "completed" TripCompleted id (uid u) w
                 (completeTrip id context w)).
  { unfold completeTrip. unfold bind at 1, lift. rewrite Hu.
    apply trip_update_run; [reflexivity|]. intros [|? ?]; reflexivity. }
  split; [split; [exact H1|exact (trip_update_writes _ _ _ _ _ _ H1)]|].
  split; [split; [exact H2|exact (trip_update_writes _ _ _ _ _ _ H2)]|].
  split; [split; [exact H3|exact (trip_update_writes _ _ _ _ _ _ H3)]|].
  intros production. split; reflexivity.
Qed.

Lemma trip_mutations_conditional_update_witness :
  requireAuth (caller "driver-1") =
    Ok {| uid := "driver-1"; email := None; phone_number := None; custom_claims := None |} /\
  trip_update_outcome "completed" TripCompleted "trip-1" "driver-1" sample_world
    (completeTrip "trip-1" (caller "driver-1") sample_world) /\
  trip_status_written TripCompleted "trip-1" "driver-1" sample_world
    (completeTrip "trip-1" (caller "driver-1") sample_world).
Proof.
  split; [reflexivity|].
  apply (trip_mutations_conditional_update sample_world "trip-1" (caller "driver-1")
           {| uid := "driver-1"; email := None; phone_number := None;
              custom_claims := None |}).
  reflexivity.
Defined.

End OwnershipFacts.

Section NonLeak.
Import Store Database Auth ErrorHandler Resolvers.

Lemma no_match_foreign {A} (table : list A) (key owner : A -> string) id who :
  someone_elses table key owner id who ->
  filter (fun r => key r = id /\ owner r = who) table = [].
Proof.
  intros [_ H]. apply filter_none. intros r Hr [Hk Ho]. exact (H r Hr Hk Ho).
Qed.

Lemma no_match_absent {A} (table : list A) (key owner : A -> string) id who :
  absent table key id ->
  filter (fun r => key r = id /\ owner r = who) table = [].
Proof.
  intros H. apply filter_none. intros r Hr [Hk _]. exact (H r Hr Hk).
Qed.

Lemma trip_update_no_match lit st id who w (k : list Trip -> M Trip) :
  trip_status_in lit = Some st ->
  (forall rows, k rows = match rows with
                         | [] => throw "Trip not found or unauthorized"
                         | row :: _ => ret row
                         end) ->
  filter (fun t => t_id t = id /\ t_driver_id t = who) (trips (db w)) = [] ->
  snd (bind (query (UpdateTripStatus lit id who)) k w)
    = Throw "Trip not found or unauthorized" /\
  db (fst (bind (query (UpdateTripStatus lit id who)) k w)) = db w.
Proof.
  intros Hlit Hk Hf.
  destruct (trip_update_run lit st id who w k Hlit Hk) as (_ & _ & H).
  rewrite Hf in H. exact H.
Qed.

Lemma cancelBooking_no_match id context u w :
  requireAuth context = Ok u ->
  filter (fun b => b_id b = id /\ b_rider_id b = uid u) (bookings (db w)) = [] ->
  snd (cancelBooking id context w) = Throw "Booking not found or unauthorized" /\
  db (fst (cancelBooking id context w)) = db w.
Proof.
  intros Hu Hf. unfold cancelBooking, bind, lift, query. rewrite Hu. simpl exec.
  unfold updated_rows. rewrite Hf. simpl.
  split; [reflexivity|].
  rewrite update_where_untouched by exact Hf. apply set_bookings_same.
Qed.

Lemma deleteVehicle_no_match id context u w :
  requireAuth context = Ok u ->
  filter (fun v => v_id v = id /\ v_driver_id v = uid u) (vehicles (db w)) = [] ->
  snd (deleteVehicle id context w) = Ok false /\
  db (fst (deleteVehicle id context w)) = db w.
Proof.
  intros Hu Hf. unfold deleteVehicle, bind, lift, query. rewrite Hu. simpl exec.
  rewrite Hf.
  destruct (decide (Exists _ (driver_profiles (db w)))) as [He|_].
  - exfalso. apply Exists_exists in He as (p & _ & Hp).
    apply Exists_exists in Hp as (v & Hv & _). inversion Hv.
  - simpl. split; [reflexivity|].
    rewrite filter_all; [apply set_vehicles_same|].
    intros v Hv HP.
    assert (Hin : v ∈ filter (fun v => v_id v = id /\ v_driver_id v = uid u)
                        (vehicles (db w))).
    { apply list_elem_of_filter. split; assumption. }
    rewrite Hf in Hin. inversion Hin.
Qed.

Lemma cancelTrip_no_match id context u w :
  requireAuth context = Ok u ->
  filter (fun t => t_id t = id /\ t_driver_id t = uid u) (trips (db w)) = [] ->
  snd (cancelTrip id context w) = Throw "Trip not found or unauthorized" /\
  db (fst (cancelTrip id context w)) = db w.
Proof.
  intros Hu Hf. unfold cancelTrip. unfold bind at 1, lift. rewrite Hu.
  eapply trip_update_no_match; [reflexivity| |exact Hf]. intros [|? ?]; reflexivity.
Qed.

Lemma startTrip_no_match id context u w :
  requireAuth context = Ok u ->
  filter (fun t => t_id t = id /\ t_driver_id t = uid u) (trips (db w)) = [] ->
  snd (startTrip id context w) = Throw "Trip not found or unauthorized" /\
  db (fst (startTrip id context w)) = db w.
Proof.
  intros Hu Hf. unfold startTrip. unfold bind at 1, lift. rewrite Hu.
  eapply trip_update_no_match; [reflexivity| |exact Hf]. intros [|? ?]; reflexivity.
Qed.

Lemma completeTrip_no_match id context u w :
  requireAuth context = Ok u ->
  filter (fun t => t_id t = id /\ t_driver_id t = uid u) (trips (db w)) = [] ->
  snd (completeTrip id context w) = Throw "Trip not found or unauthorized" /\
  db (fst (completeTrip id context w)) = db w.
Proof.
  intros Hu Hf. unfold completeTrip. unfold bind at 1, lift. rewrite Hu.
  eapply trip_update_no_match; [reflexivity| |exact Hf]. intros [|? ?]; reflexivity.
Qed.

(** C5. For each conditional ownership mutation, an authenticated caller
    who targets an existing row of somebody else gets the same answer as
    when targeting an id that does not exist, and neither attempt changes
    the store: the trip mutations and [cancelBooking] throw their
    not-found-or-unauthorized error, [deleteVehicle] returns false. *)
Theorem ownership_mutations_do_not_leak
    (w : World) (context : GraphQLContext) (u : FirebaseUser) (x y : string) :
  requireAuth context = Ok u ->
  (someone_elses (trips (db w)) t_id t_driver_id x (uid u) ->
   absent (trips (db w)) t_id y ->
   same_outcome cancelTrip context w x y /\
   same_outcome startTrip context w x y /\
   same_outcome completeTrip context w x y /\
   snd (cancelTrip x context w) = Throw "Trip not found or unauthorized" /\
   snd (startTrip x context w) = Throw "Trip not found or unauthorized" /\
   snd (completeTrip x context w) = Throw "Trip not found or unauthorized") /\
  (someone_elses (vehicles (db w)) v_id v_driver_id x (uid u) ->
   absent (vehicles (db w)) v_id y ->
   same_outcome deleteVehicle context w x y /\
   snd (deleteVehicle x context w) = Ok false) /\
  (someone_elses (bookings (db w)) b_id b_rider_id x (uid u) ->
   absent (bookings (db w)) b_id y ->
   same_outcome cancelBooking context w x y /\
   snd (cancelBooking x context w) = Throw "Booking not found or unauthorized").
Proof.
  intros Hu. split_and!.
  - intros Hx Hy.
    pose proof (no_match_foreign _ _ _ _ _ Hx) as Fx.
    pose proof (no_match_absent _ t_id t_driver_id y (uid u) Hy) as Fy.
    destruct (cancelTrip_no_match x context u w Hu Fx) as [X1 X2].
    destruct (cancelTrip_no_match y context u w Hu Fy) as [Y1 Y2].
    destruct (startTrip_no_match x context u w Hu Fx) as [X3 X4].
    destruct (startTrip_no_match y context u w Hu Fy) as [Y3 Y4].
    destruct (completeTrip_no_match x context u w Hu Fx) as [X5 X6].
    destruct (completeTrip_no_match y context u w Hu Fy) as [Y5 Y6].
    unfold same_outcome. rewrite X1, Y1, X3, Y3, X5, Y5. split_and!; done.
  - intros Hx Hy.
    pose proof (no_match_foreign _ _ _ _ _ Hx) as Fx.
    pose proof (no_match_absent _ v_id v_driver_id y (uid u) Hy) as Fy.
    destruct (deleteVehicle_no_match x context u w Hu Fx) as [X1 X2].
    destruct (deleteVehicle_no_match y context u w Hu Fy) as [Y1 Y2].
    unfold same_outcome. rewrite X1, Y1. split_and!; done.
  - intros Hx Hy.
    pose proof (no_match_foreign _ _ _ _ _ Hx) as Fx.
    pose proof (no_match_absent _ b_id b_rider_id y (uid u) Hy) as Fy.
    destruct (cancelBooking_no_match x context u w Hu Fx) as [X1 X2].
    destruct (cancelBooking_no_match y context u w Hu Fy) as [Y1 Y2].
    unfold same_outcome. rewrite X1, Y1. split_and!; done.
Qed.

End NonLeak.

Section Mutations.
Import Store Database Auth ErrorHandler Resolvers.

Lemma ownership_mutations_do_not_leak_witness :
  someone_elses (trips sample_db) t_id t_driver_id "trip-1" "rider-1" /\
  absent (trips sample_db) t_id "trip-404" /\
  same_outcome completeTrip (caller "rider-1") sample_world "trip-1" "trip-404".
Proof.
  assert (H1 : someone_elses (trips sample_db) t_id t_driver_id "trip-1" "rider-1").
  { split.
    - eexists. split; [left|reflexivity].
    - intros r Hr _. apply list_elem_of_singleton in Hr. subst r. simpl. discriminate. }
  assert (H2 : absent (trips sample_db) t_id "trip-404").
  { intros r Hr. apply list_elem_of_singleton in Hr. subst r. simpl. discriminate. }
  split_and!; [exact H1|exact H2|].
  apply (ownership_mutations_do_not_leak sample_world (caller "rider-1")
           {| uid := "rider-1"; email := None; phone_number := None;
              custom_claims := None |} "trip-1" "trip-404");
    [reflexivity|exact H1|exact H2].
Defined.

(** C10. For an authenticated caller, [confirmBooking] sends one update
    whose only condition is the booking id, and it sets [booking_status]
    to confirmed in the store: afterwards every stored booking with this
    id is confirmed, whoever its rider and whoever the caller, each
    booking that had the id is still there, confirmed and otherwise as it
    was, and the bookings with another id are untouched. Whenever a
    booking with that id exists the call succeeds and returns a confirmed
    stored row; it fails, with [Booking not found], only when no booking
    has the id; the outcome is the same for every authenticated caller. *)
Theorem confirmBooking_ignores_ownership
    (w : World) (id : string) (context : GraphQLContext) (u : FirebaseUser) :
  requireAuth context = Ok u ->
  issued (fst (confirmBooking id context w))
    = (issued w ++ [sending (UpdateBookingStatus "confirmed" id)])%list /\
  db (fst (confirmBooking id context w))
    = set_bookings (db w)
        (update_where (fun b => b_id b = id) (with_booking_status BookingConfirmed)
           (bookings (db w))) /\
  (forall b, b ∈ bookings (db (fst (confirmBooking id context w))) -> b_id b = id ->
             b_booking_status b = BookingConfirmed) /\
  (forall b, b ∈ bookings (db w) -> b_id b = id ->
             {| b_id := b_id b; b_trip_id := b_trip_id b; b_rider_id := b_rider_id b;
                b_booking_status := BookingConfirmed;
                b_payment_status := b_payment_status b |}
               ∈ bookings (db (fst (confirmBooking id context w)))) /\
  filter (fun b => b_id b <> id) (bookings (db (fst (confirmBooking id context w))))
    = filter (fun b => b_id b <> id) (bookings (db w)) /\
  ((exists b, b ∈ bookings (db w) /\ b_id b = id) ->
   exists row, snd (confirmBooking id context w) = Ok row /\
               b_id row = id /\ b_booking_status row = BookingConfirmed /\
               row ∈ bookings (db (fst (confirmBooking id context w)))) /\
  (absent (bookings (db w)) b_id id ->
   snd (confirmBooking id context w) = Throw "Booking not found") /\
  ((exists e, snd (confirmBooking id context w) = Throw e) ->
   absent (bookings (db w)) b_id id) /\
  (forall context' u',
     requireAuth context' = Ok u' ->
     confirmBooking id context' w = confirmBooking id context w).
Proof.
  intros Hu.
  assert (Hrun : forall c v, requireAuth c = Ok v ->
    confirmBooking id c w =
      match filter (fun b => b_id b = id) (bookings (db w)) with
      | [] => throw "Booking not found"
      | row :: _ => ret (with_booking_status BookingConfirmed row)
      end
        {| db := set_bookings (db w)
                   (update_where (fun b => b_id b = id)
                      (with_booking_status BookingConfirmed) (bookings (db w)));
           issued := (issued w ++ [sending (UpdateBookingStatus "confirmed" id)])%list |}).
  { intros c v Hc. unfold confirmBooking, bind, lift, query. rewrite Hc. simpl exec.
    unfold updated_rows. simpl rows.
    destruct (filter _ (bookings (db w))); reflexivity. }
  assert (Hmem : forall row rest,
            filter (fun b => b_id b = id) (bookings (db w)) = row :: rest ->
            row ∈ bookings (db w) /\ b_id row = id).
  { intros row rest Hf.
    assert (Hrow : row ∈ filter (fun b => b_id b = id) (bookings (db w)))
      by (rewrite Hf; left).
    apply list_elem_of_filter in Hrow as [Hid Hin]. split; assumption. }
  assert (Hdb : bookings (db (fst (confirmBooking id context w)))
                = update_where (fun b => b_id b = id)
                    (with_booking_status BookingConfirmed) (bookings (db w))).
  { rewrite (Hrun context u Hu).
    destruct (filter _ (bookings (db w))); reflexivity. }
  assert (Hput : forall b, b ∈ bookings (db w) -> b_id b = id ->
            with_booking_status BookingConfirmed b
              ∈ bookings (db (fst (confirmBooking id context w)))).
  { intros b Hb Hid. rewrite Hdb. unfold update_where. apply list_elem_of_fmap.
    exists b. split; [|exact Hb]. rewrite decide_True by exact Hid. reflexivity. }
  split_and!.
  - rewrite (Hrun context u Hu).
    destruct (filter _ (bookings (db w))); reflexivity.
  - rewrite (Hrun context u Hu).
    destruct (filter _ (bookings (db w))); reflexivity.
  - intros b Hb Hid. rewrite Hdb in Hb. unfold update_where in Hb.
    apply list_elem_of_fmap in Hb as (x & -> & _).
    destruct (decide (b_id x = id)) as [_|Hn]; [reflexivity|].
    exfalso. exact (Hn Hid).
  - intros b Hb Hid. exact (Hput b Hb Hid).
  - rewrite Hdb. unfold update_where. clear.
    induction (bookings (db w)) as [|x l IH]; [reflexivity|].
    rewrite fmap_cons, !filter_cons, IH.
    destruct (decide (b_id x = id)) as [Hx|Hx].
    + rewrite decide_False by (intros Hne; exact (Hne Hx)).
      rewrite decide_False by (intros Hne; exact (Hne Hx)). reflexivity.
    + rewrite decide_True by exact Hx. reflexivity.
  - intros (b & Hb & Hid). rewrite (Hrun context u Hu).
    destruct (filter _ (bookings (db w))) as [|row rest] eqn:Hf.
    + exfalso. eapply filter_nil_not_elem_of; [exact Hf| |exact Hb]. exact Hid.
    + exists (with_booking_status BookingConfirmed row).
      destruct (Hmem row rest eq_refl) as [Hin Hrid].
      split_and!; [reflexivity|exact Hrid|reflexivity|].
      pose proof (Hput row Hin Hrid) as Hrow. rewrite Hdb in Hrow. exact Hrow.
  - intros Habs. rewrite (Hrun context u Hu).
    destruct (filter _ (bookings (db w))) as [|row rest] eqn:Hf; [reflexivity|].
    exfalso. destruct (Hmem row rest eq_refl) as [Hin Hrid]. exact (Habs row Hin Hrid).
  - intros [e He]. rewrite (Hrun context u Hu) in He.
    destruct (filter _ (bookings (db w))) as [|row rest] eqn:Hf; [|discriminate He].
    intros r Hr Hid. eapply filter_nil_not_elem_of; [exact Hf| |exact Hr]. exact Hid.
  - intros c v Hc. rewrite (Hrun c v Hc), (Hrun context u Hu). reflexivity.
Qed.

Lemma confirmBooking_ignores_ownership_witness :
  requireAuth (caller "stranger-9") =
    Ok {| uid := "stranger-9"; email := None; phone_number := None;
          custom_claims := None |} /\
  exists row, snd (confirmBooking "booking-1" (caller "stranger-9") sample_world) = Ok row /\
              b_id row = "booking-1" /\ b_booking_status row = BookingConfirmed /\
              row ∈ bookings (db (fst (confirmBooking "booking-1" (caller "stranger-9")
                                         sample_world))).
Proof.
  split; [reflexivity|].
  apply (confirmBooking_ignores_ownership sample_world "booking-1" (caller "stranger-9")
           {| uid := "stranger-9"; email := None; phone_number := None;
              custom_claims := None |}); [reflexivity|].
  eexists. split; [left|reflexivity].
Defined.

End Mutations.

Section VehiclesAndPayments.
Import Store Database Auth ErrorHandler Resolvers.

(** Whatever is deleted, the array that [query] hands back for the DELETE
    is empty, so the value computed from its length is false. *)
Lemma deleteVehicle_returns_false id context w b :
  snd (deleteVehicle id context w) = Ok b -> b = false.
Proof.
  unfold deleteVehicle, bind, lift, query.
  destruct (requireAuth context) as [u|e]; [|discriminate].
  simpl exec. destruct (decide (Exists _ (driver_profiles (db w)))); simpl.
  - discriminate.
  - intros H. injection H as <-. reflexivity.
Qed.

(** C8 (the code departs from the claim). The owner deletes an existing
    vehicle: the row is removed, yet the call returns false, as does the
    second call; the claim expects true, then false. *)
Theorem deleteVehicle_owner_gets_false :
  vehicles (db (fst (deleteVehicle "vehicle-1" (caller "driver-1") sample_world))) = [] /\
  snd (deleteVehicle "vehicle-1" (caller "driver-1") sample_world) = Ok false /\
  snd (deleteVehicle "vehicle-1" (caller "driver-1")
         (fst (deleteVehicle "vehicle-1" (caller "driver-1") sample_world))) = Ok false.
Proof. vm_compute. split_and!; reflexivity. Qed.

(** The label that [verifyPayment] writes into the payments statement is
    not a label of [payment_status], so the store refuses the statement
    whatever the rows are. *)
Lemma verifyPayment_never_succeeds txn reference context w p :
  snd (verifyPayment txn reference context w) <> Ok p.
Proof.
  unfold verifyPayment, bind, lift, query.
  destruct (requireAuth context) as [u|e]; simpl; discriminate.
Qed.

Lemma elem_of_update_where {A} (P : A -> Prop) `{forall x, Decision (P x)}
    (f : A -> A) (l : list A) (y : A) :
  y ∈ update_where P f l ->
  exists x, x ∈ l /\ ((P x /\ y = f x) \/ (~ P x /\ y = x)).
Proof.
  unfold update_where. intros Hy. apply list_elem_of_fmap in Hy as (x & -> & Hx).
  exists x. split; [exact Hx|]. destruct (decide (P x)); [left|right]; split; auto.
Qed.

(** The refund path writes the same label to both tables: after a
    successful [processRefund] the returned payment row and every booking
    row it refers to carry the status refunded. *)
Lemma processRefund_mirrors paymentId context w row :
  snd (processRefund paymentId context w) = Ok row ->
  p_payment_status row = PaymentRefunded /\
  row ∈ payments (db (fst (processRefund paymentId context w))) /\
  forall b, b ∈ bookings (db (fst (processRefund paymentId context w))) ->
            b_id b = p_booking_id row -> b_payment_status b = PaymentRefunded.
Proof.
  unfold processRefund, bind, lift, query.
  destruct (requireAuth context) as [u|e]; [|discriminate].
  simpl exec. unfold updated_rows. simpl rows.
  destruct (filter (fun p => p_id p = paymentId) (payments (db w))) as [|p0 rest] eqn:Hf;
    [discriminate|].
  simpl. intros H. injection H as <-.
  split_and!; [reflexivity| |].
  - unfold update_where. apply list_elem_of_fmap. exists p0.
    assert (Hp0 : p0 ∈ filter (fun p => p_id p = paymentId) (payments (db w)))
      by (rewrite Hf; left).
    apply list_elem_of_filter in Hp0 as [Hid Hin].
    split; [|exact Hin]. destruct (decide (p_id p0 = paymentId)); [reflexivity|contradiction].
  - intros b Hb Hid. apply elem_of_update_where in Hb as (x & _ & [[_ ->]|[Hn ->]]).
    + reflexivity.
    + contradiction.
Qed.

(** [verifyPayment] on an existing pending payment: the payments statement
    carries the label completed, which is not one of pending, paid,
    failed, refunded, while the bookings statement would write paid; the
    store refuses the first statement, nothing is updated and the mutation
    throws. *)
Lemma verifyPayment_writes_unknown_status :
  payment_status_in "completed" = None /\
  payment_status_in "paid" = Some PaymentPaid /\
  verifyPayment "txn_1700000000000" "yenko_1_abcd1234" (caller "rider-1") sample_world =
    ({| db := sample_db;
        issued := [sending (UpdatePaymentVerified "completed" "txn_1700000000000"
                              mock_gateway_response "yenko_1_abcd1234")] |},
     Throw (enum_error "payment_status" "completed")).
Proof. split_and!; reflexivity. Qed.

(** What a successful [processRefund] leaves behind, step by step: the
    first and the second statement have run. *)
Lemma processRefund_run paymentId context u w :
  requireAuth context = Ok u ->
  processRefund paymentId context w =
    match filter (fun p => p_id p = paymentId) (payments (db w)) with
    | [] =>
        ({| db := db w;
            issued := (issued w ++ [sending (UpdatePaymentStatus "refunded" paymentId)])%list |},
         Throw "Payment not found")
    | p0 :: _ =>
        ({| db := set_bookings
                    (set_payments (db w)
                       (update_where (fun p => p_id p = paymentId)
                          (with_payment_status PaymentRefunded) (payments (db w))))
                    (update_where (fun b => b_id b = p_booking_id p0)
                       (with_booking_payment_status PaymentRefunded) (bookings (db w)));
            issued := ((issued w ++ [sending (UpdatePaymentStatus "refunded" paymentId)])
                         ++ [sending (UpdateBookingPaymentStatus "refunded"
                                        (p_booking_id p0))])%list |},
         Ok (with_payment_status PaymentRefunded p0))
    end.
Proof.
  intros Hu. unfold processRefund.
  rewrite (bind_ok _ _ w w u) by (unfold lift; rewrite Hu; reflexivity).
  unfold bind, query. cbn [exec payment_status_in]. cbn.
  unfold updated_rows.
  destruct (filter (fun p => p_id p = paymentId) (payments (db w))) as [|p0 rest] eqn:Hf.
  - cbn. rewrite update_where_untouched by exact Hf. rewrite set_payments_same. reflexivity.
  - cbn. reflexivity.
Qed.

Lemma payment_status_enumerated (s : payment_status) : s ∈ payment_statuses.
Proof. destruct s; unfold payment_statuses; repeat constructor. Qed.

(** C9. After every successful [verifyPayment] or [processRefund] the
    payment row returned is a stored row whose status is the status of
    every stored booking it refers to, and both are labels of pending,
    paid, failed, refunded. For [processRefund] the status is refunded on
    both sides: the returned payment has the given id and status refunded,
    and every booking that had the payment's [booking_id] is stored with
    payment status refunded. [verifyPayment] never reaches the state the
    property speaks of: no call of it succeeds, because the label it
    writes to the payment, completed, is not a label of the type. *)
Theorem payment_status_mirrored_after_success
    (w : World) (txn reference paymentId : string) (context : GraphQLContext) :
  (forall row,
     snd (verifyPayment txn reference context w) = Ok row ->
     mirrors_booking (db (fst (verifyPayment txn reference context w))) row) /\
  (forall row,
     snd (processRefund paymentId context w) = Ok row ->
     mirrors_booking (db (fst (processRefund paymentId context w))) row /\
     p_id row = paymentId /\
     p_payment_status row = PaymentRefunded /\
     (forall b, b ∈ bookings (db w) -> b_id b = p_booking_id row ->
        {| b_id := b_id b; b_trip_id := b_trip_id b; b_rider_id := b_rider_id b;
           b_booking_status := b_booking_status b;
           b_payment_status := PaymentRefunded |}
          ∈ bookings (db (fst (processRefund paymentId context w))))) /\
  (forall row, snd (verifyPayment txn reference context w) <> Ok row).
Proof.
  split_and!.
  - intros row Hrow. exfalso.
    exact (verifyPayment_never_succeeds txn reference context w row Hrow).
  - intros row Hrow.
    destruct (processRefund_mirrors paymentId context w row Hrow) as (Hst & Hin & Hbk).
    split; [|split; [|split; [exact Hst|]]].
    + unfold mirrors_booking. split; [exact Hin|].
      split; [apply payment_status_enumerated|].
      intros b Hb Hid. split; [|apply payment_status_enumerated].
      rewrite Hst. exact (Hbk b Hb Hid).
    + destruct (requireAuth context) as [u|e] eqn:Hu.
      * rewrite (processRefund_run paymentId context u w Hu) in Hrow.
        destruct (filter (fun p => p_id p = paymentId) (payments (db w)))
          as [|p0 rest] eqn:Hf; [discriminate Hrow|].
        simpl in Hrow. injection Hrow as <-.
        assert (Hp0 : p0 ∈ filter (fun p => p_id p = paymentId) (payments (db w)))
          by (rewrite Hf; left).
        apply list_elem_of_filter in Hp0 as [Hid _]. exact Hid.
      * unfold processRefund, bind, lift in Hrow. rewrite Hu in Hrow. discriminate Hrow.
    + intros b Hb Hid.
      destruct (requireAuth context) as [u|e] eqn:Hu.
      * rewrite (processRefund_run paymentId context u w Hu) in Hrow |- *.
        destruct (filter (fun p => p_id p = paymentId) (payments (db w)))
          as [|p0 rest] eqn:Hf; [discriminate Hrow|].
        simpl in Hrow. injection Hrow as <-. simpl.
        unfold update_where. apply list_elem_of_fmap. exists b. split; [|exact Hb].
        rewrite decide_True by exact Hid. reflexivity.
      * unfold processRefund, bind, lift in Hrow. rewrite Hu in Hrow. discriminate Hrow.
  - intros row. apply verifyPayment_never_succeeds.
Qed.

Lemma payment_status_mirrored_after_success_witness :
  exists row,
    snd (processRefund "payment-1" (caller "rider-1") sample_world) = Ok row /\
    mirrors_booking (db (fst (processRefund "payment-1" (caller "rider-1") sample_world))) row /\
    p_payment_status row = PaymentRefunded /\
    {| b_id := "booking-1"; b_trip_id := "trip-1"; b_rider_id := "rider-1";
       b_booking_status := BookingPending; b_payment_status := PaymentRefunded |}
      ∈ bookings (db (fst (processRefund "payment-1" (caller "rider-1") sample_world))).
Proof.
  eexists. split; [reflexivity|].
  destruct (proj1 (proj2 (payment_status_mirrored_after_success sample_world
                            "txn_1700000000000" "yenko_1_abcd1234" "payment-1"
                            (caller "rider-1"))) _ eq_refl) as (H1 & _ & H3 & H4).
  split; [exact H1|]. split; [exact H3|].
  apply (H4 {| b_id := "booking-1"; b_trip_id := "trip-1"; b_rider_id := "rider-1";
               b_booking_status := BookingPending; b_payment_status := PaymentPending |}).
  - left.
  - reflexivity.
Defined.

End VehiclesAndPayments.

(** ** Reviews *)

Section ReviewFacts.
Import Store Database Auth ErrorHandler Resolvers.

Lemma party_rows_elem d bookingId who row :
  row ∈ party_rows d bookingId who <->
  exists b t, b ∈ bookings d /\ t ∈ trips d /\
              (b_trip_id b = t_id t /\ b_id b = bookingId /\
               (b_rider_id b = who \/ t_driver_id t = who)) /\
              row = {| bd_booking := b; bd_driver_id := t_driver_id t |}.
Proof.
  unfold party_rows. rewrite list_elem_of_bind. split.
  - intros (b & Hrow & Hb). apply list_elem_of_bind in Hrow as (t & Hrow & Ht).
    destruct (decide _) as [Hc|Hc].
    + apply list_elem_of_singleton in Hrow. exists b, t.
      split; [exact Hb|split; [exact Ht|split; [exact Hc|exact Hrow]]].
    + apply elem_of_nil in Hrow. contradiction.
  - intros (b & t & Hb & Ht & Hc & ->). exists b. split; [|exact Hb].
    apply list_elem_of_bind. exists t. split; [|exact Ht].
    rewrite decide_True by exact Hc. left.
Qed.

Lemma party_rows_nonempty d bookingId who :
  is_party d bookingId who -> party_rows d bookingId who <> [].
Proof.
  intros (b & t & Hb & Ht & H1 & H2 & H3) Hnil.
  assert (Hin : {| bd_booking := b; bd_driver_id := t_driver_id t |}
                  ∈ party_rows d bookingId who).
  { apply party_rows_elem. exists b, t.
    split; [exact Hb|split; [exact Ht|split; [|reflexivity]]].
    split; [exact H1|split; [exact H2|exact H3]]. }
  rewrite Hnil in Hin. apply elem_of_nil in Hin. exact Hin.
Qed.

Lemma own_review_ids_nonempty d bookingId who :
  already_reviewed d bookingId who -> own_review_ids d bookingId who <> [].
Proof.
  intros (r & Hr & H1 & H2) Hnil. unfold own_review_ids in Hnil.
  apply fmap_nil_inv in Hnil.
  eapply filter_nil_not_elem_of; [exact Hnil| |exact Hr]. simpl. auto.
Qed.

Lemma rating_check_out rating :
  rating < 1 \/ 5 < rating -> (rating <? 1) || (rating >? 5) = true.
Proof.
  intros [H|H].
  - apply Z.ltb_lt in H. rewrite H. reflexivity.
  - rewrite Z.gtb_ltb. apply Z.ltb_lt in H. rewrite H. apply orb_true_r.
Qed.

Lemma rating_check_in rating :
  1 <= rating <= 5 -> (rating <? 1) || (rating >? 5) = false.
Proof.
  intros [H1 H2]. rewrite Z.gtb_ltb.
  rewrite (proj2 (Z.ltb_ge rating 1)) by lia.
  rewrite (proj2 (Z.ltb_ge 5 rating)) by lia. reflexivity.
Qed.

Lemma query_SelectBookingParty bookingId who w :
  query (SelectBookingParty bookingId who) w =
    ({| db := db w;
        issued := (issued w ++ [sending (SelectBookingParty bookingId who)])%list |},
     Ok (party_rows (db w) bookingId who)).
Proof. reflexivity. Qed.

Lemma query_SelectReviewId bookingId who w :
  query (SelectReviewId bookingId who) w =
    ({| db := db w;
        issued := (issued w ++ [sending (SelectReviewId bookingId who)])%list |},
     Ok (own_review_ids (db w) bookingId who)).
Proof. reflexivity. Qed.

(** The path of [createReview] up to the duplicate check. *)
Lemma createReview_duplicate uuid bookingId rating comment context u w :
  requireAuth context = Ok u ->
  1 <= rating <= 5 ->
  party_rows (db w) bookingId (uid u) <> [] ->
  own_review_ids (db w) bookingId (uid u) <> [] ->
  createReview uuid bookingId rating comment context w =
    ({| db := db w;
        issued := ((issued w ++ [sending (SelectBookingParty bookingId (uid u))])
                     ++ [sending (SelectReviewId bookingId (uid u))])%list |},
     Throw "Review already exists for this booking").
Proof.
  intros Hu Hr Hp Ho. unfold createReview.
  rewrite (bind_ok _ _ w w u) by (unfold lift; rewrite Hu; reflexivity).
  rewrite (rating_check_in rating Hr).
  rewrite (bind_ok _ _ _ _ _ (query_SelectBookingParty bookingId (uid u) w)).
  destruct (party_rows (db w) bookingId (uid u)) as [|booking rest]; [contradiction|].
  rewrite (bind_ok _ _ _ _ _ (query_SelectReviewId bookingId (uid u) _)). cbn [db].
  destruct (own_review_ids (db w) bookingId (uid u)) as [|i ids]; [contradiction|].
  reflexivity.
Qed.

End ReviewFacts.

Section ReviewRuns.
Import Store Database Auth ErrorHandler Resolvers.

Lemma query_InsertReview uuid bookingId who reviewee rating comment w :
  query (InsertReview uuid bookingId who reviewee rating comment) w =
    (if decide (uuid ∈ r_id <$> reviews (db w))
     then ({| db := db w;
              issued := (issued w ++ [sending (InsertReview uuid bookingId who reviewee
                                                 rating comment)])%list |},
           Throw "duplicate key value violates unique constraint reviews_pkey")
     else if decide (1 <= rating <= 5)
     then ({| db := set_reviews (db w)
                      (reviews (db w) ++ [review_row uuid bookingId who reviewee rating
                                            comment])%list;
              issued := (issued w ++ [sending (InsertReview uuid bookingId who reviewee
                                                 rating comment)])%list |},
           Ok [review_row uuid bookingId who reviewee rating comment])
     else ({| db := db w;
              issued := (issued w ++ [sending (InsertReview uuid bookingId who reviewee
                                                 rating comment)])%list |},
           Throw "new row for relation reviews violates check constraint reviews_rating_check")).
Proof.
  unfold query. simpl exec.
  destruct (decide (uuid ∈ r_id <$> reviews (db w))); [reflexivity|].
  destruct (decide (1 <= rating <= 5)); reflexivity.
Qed.

(** The store after the aggregate update for [reviewee], when it goes
    through. *)
Lemma exec_UpdateAverageRating_ok reviewee d d' res :
  exec (UpdateAverageRating reviewee) d = Ok (d', res) ->
  trips d' = trips d /\ bookings d' = bookings d /\ reviews d' = reviews d /\
  vehicles d' = vehicles d /\ payments d' = payments d /\
  (dp_user_id <$> driver_profiles d') = (dp_user_id <$> driver_profiles d) /\
  forall p, p ∈ driver_profiles d' -> dp_user_id p = reviewee ->
            exists a, avg_rating reviewee (reviews d) = Ok a /\ dp_average_rating p = a.
Proof.
  simpl exec.
  destruct (filter (fun p => dp_user_id p = reviewee) (driver_profiles d))
    as [|hit hits] eqn:Hf.
  - intros H. injection H as <- <-. split_and!; try reflexivity.
    intros p Hp Hu. exfalso.
    eapply filter_nil_not_elem_of; [exact Hf| |exact Hp]. exact Hu.
  - destruct (avg_rating reviewee (reviews d)) as [a|e] eqn:Ha; [|discriminate].
    intros H. injection H as <- <-. simpl. split_and!; try reflexivity.
    + unfold update_where. rewrite <- list_fmap_compose. apply list_fmap_ext.
      intros i p _. simpl. destruct (decide (dp_user_id p = reviewee)); reflexivity.
    + intros p Hp Hu. exists a. split; [reflexivity|].
      apply elem_of_update_where in Hp as (x & _ & [[_ ->]|[Hn ->]]).
      * reflexivity.
      * contradiction.
Qed.

(** What a successful [createReview] did. *)
Lemma createReview_success uuid bookingId rating comment context w row :
  snd (createReview uuid bookingId rating comment context w) = Ok row ->
  exists u booking rest,
    requireAuth context = Ok u /\
    1 <= rating <= 5 /\
    party_rows (db w) bookingId (uid u) = booking :: rest /\
    own_review_ids (db w) bookingId (uid u) = [] /\
    (uuid ∉ r_id <$> reviews (db w)) /\
    row = review_row uuid bookingId (uid u) (reviewee_of booking (uid u)) rating
            (or_null comment) /\
    let w' := fst (createReview uuid bookingId rating comment context w) in
    trips (db w') = trips (db w) /\
    bookings (db w') = bookings (db w) /\
    reviews (db w') = (reviews (db w) ++ [row])%list /\
    (dp_user_id <$> driver_profiles (db w')) = (dp_user_id <$> driver_profiles (db w)) /\
    (b_rider_id (bd_booking booking) = uid u ->
     forall p, p ∈ driver_profiles (db w') ->
               dp_user_id p = reviewee_of booking (uid u) ->
               exists a, avg_rating (reviewee_of booking (uid u))
                           (reviews (db w) ++ [row])%list = Ok a /\
                         dp_average_rating p = a).
Proof.
  unfold createReview.
  destruct (requireAuth context) as [u|e] eqn:Hu;
    [rewrite (bind_ok _ _ w w u) by reflexivity
    |rewrite (bind_throw _ _ w w e) by reflexivity; discriminate].
  destruct ((rating <? 1) || (rating >? 5)) eqn:Hr; [discriminate|].
  assert (Hrange : 1 <= rating <= 5).
  { apply orb_false_iff in Hr as [H1 H2]. rewrite Z.gtb_ltb in H2.
    apply Z.ltb_ge in H1. apply Z.ltb_ge in H2. lia. }
  rewrite (bind_ok _ _ _ _ _ (query_SelectBookingParty bookingId (uid u) w)).
  destruct (party_rows (db w) bookingId (uid u)) as [|booking rest] eqn:Hp; [discriminate|].
  rewrite (bind_ok _ _ _ _ _ (query_SelectReviewId bookingId (uid u) _)). cbn [db].
  destruct (own_review_ids (db w) bookingId (uid u)) as [|i ids] eqn:Ho; [|discriminate].
  fold (reviewee_of booking (uid u)).
  set (reviewee := reviewee_of booking (uid u)).
  set (new := review_row uuid bookingId (uid u) reviewee rating (or_null comment)).
  pose proof (query_InsertReview uuid bookingId (uid u) reviewee rating (or_null comment)
                {| db := db w;
                   issued := ((issued w ++ [sending (SelectBookingParty bookingId (uid u))])
                                ++ [sending (SelectReviewId bookingId (uid u))])%list |})
    as Hins.
  cbn [db issued] in Hins. fold new in Hins.
  destruct (decide (uuid ∈ r_id <$> reviews (db w))) as [Hdup|Hfresh].
  { rewrite (bind_throw _ _ _ _ _ Hins). discriminate. }
  destruct (decide (1 <= rating <= 5)) as [_|Hno]; [|contradiction].
  rewrite (bind_ok _ _ _ _ _ Hins).
  destruct (decide (b_rider_id (bd_booking booking) = uid u)) as [Hrider|Hdriver].
  - unfold bind, query. cbn [db issued].
    destruct (exec (UpdateAverageRating reviewee) _) as [[d2 res]|e] eqn:Hx;
      [|discriminate].
    simpl. intros H. injection H as <-.
    apply exec_UpdateAverageRating_ok in Hx
      as (T & B & Rv & _ & _ & DP & AV). simpl in T, B, Rv, DP, AV.
    exists u, booking, rest. split_and!; try done; try lia.
  - unfold bind, ret. simpl. intros H. injection H as <-.
    exists u, booking, rest. split_and!; try done; try lia.
Qed.

End ReviewRuns.

Section ReviewValidation.
Import Store Database Auth ErrorHandler Resolvers.

Lemma party_rows_same_tables d d' bookingId who :
  trips d' = trips d -> bookings d' = bookings d ->
  party_rows d' bookingId who = party_rows d bookingId who.
Proof. unfold party_rows. intros -> ->. reflexivity. Qed.

(** C6 (as amended). A rating outside 1..5 makes [createReview] throw
    with the world untouched: no statement is sent, so no row is read or
    written; for an authenticated caller the error is [Rating must be
    between 1 and 5]. When a party to the booking has already reviewed it,
    another review with any rating inside 1..5 is refused with [Review
    already exists for this booking] (classified CONFLICT, 409) and the
    store is unchanged; in particular this is what a second call gets
    after a first call of the same caller on the same booking went
    through. *)
Theorem createReview_validates_then_rejects_duplicates
    (w : World) (uuid bookingId : string) (rating : Z) (comment : option string)
    (context : GraphQLContext) :
  (rating < 1 \/ 5 < rating ->
   exists e,
     createReview uuid bookingId rating comment context w = (w, Throw e) /\
     (forall u, requireAuth context = Ok u -> e = "Rating must be between 1 and 5")) /\
  (forall u,
     requireAuth context = Ok u ->
     1 <= rating <= 5 ->
     is_party (db w) bookingId (uid u) ->
     already_reviewed (db w) bookingId (uid u) ->
     snd (createReview uuid bookingId rating comment context w)
       = Throw "Review already exists for this booking" /\
     db (fst (createReview uuid bookingId rating comment context w)) = db w /\
     forall production,
       code (errorHandler production (thrown "Review already exists for this booking"))
         = "CONFLICT" /\
       statusCode (errorHandler production (thrown "Review already exists for this booking"))
         = 409) /\
  (forall uuid0 rating0 comment0 w0 row,
     snd (createReview uuid0 bookingId rating0 comment0 context w0) = Ok row ->
     w = fst (createReview uuid0 bookingId rating0 comment0 context w0) ->
     1 <= rating <= 5 ->
     snd (createReview uuid bookingId rating comment context w)
       = Throw "Review already exists for this booking" /\
     db (fst (createReview uuid bookingId rating comment context w)) = db w).
Proof.
  split_and!.
  - intros Hout. unfold createReview.
    destruct (requireAuth context) as [u|e] eqn:Hu.
    + rewrite (bind_ok _ _ w w u) by reflexivity.
      rewrite (rating_check_out rating Hout).
      eexists. split; [reflexivity|]. reflexivity.
    + rewrite (bind_throw _ _ w w e) by reflexivity.
      eexists. split; [reflexivity|]. intros u Hu'. discriminate Hu'.
  - intros u Hu Hr Hp Ha.
    rewrite (createReview_duplicate uuid bookingId rating comment context u w Hu Hr
               (party_rows_nonempty _ _ _ Hp) (own_review_ids_nonempty _ _ _ Ha)).
    split_and!; try reflexivity. intros production. split; reflexivity.
  - intros uuid0 rating0 comment0 w0 row Hok Hw Hr.
    apply createReview_success in Hok
      as (u & booking & rest & Hu & _ & Hp & _ & _ & Hrow & T & B & Rv & _).
    rewrite <- Hw in T, B, Rv.
    rewrite (createReview_duplicate uuid bookingId rating comment context u w Hu Hr).
    + split; reflexivity.
    + rewrite (party_rows_same_tables (db w0) (db w) _ _ T B), Hp. discriminate.
    + apply own_review_ids_nonempty. exists row. rewrite Rv.
      split; [apply elem_of_app; right; left|]. rewrite Hrow. split; reflexivity.
Qed.

Lemma createReview_validates_then_rejects_duplicates_witness :
  snd (createReview "review-1" "booking-1" 5 (Some "smooth ride") (caller "rider-1")
         sample_world)
    = Ok (review_row "review-1" "booking-1" "rider-1" "driver-1" 5 (Some "smooth ride")) /\
  snd (createReview "review-2" "booking-1" 1 None (caller "rider-1")
         (fst (createReview "review-1" "booking-1" 5 (Some "smooth ride")
                 (caller "rider-1") sample_world)))
    = Throw "Review already exists for this booking".
Proof.
  split; [reflexivity|].
  apply (proj2 (proj2 (createReview_validates_then_rejects_duplicates
                         (fst (createReview "review-1" "booking-1" 5 (Some "smooth ride")
                                 (caller "rider-1") sample_world))
                         "review-2" "booking-1" 1 None (caller "rider-1")))
           "review-1" 5 (Some "smooth ride") sample_world
           (review_row "review-1" "booking-1" "rider-1" "driver-1" 5 (Some "smooth ride"))).
  - reflexivity.
  - reflexivity.
  - lia.
Defined.

(** C6 as stated fails for a duplicate with a rating out of range: the
    second review of the same booking by the same reviewer, with rating 6,
    is refused by the rating check, not as a conflict, and the classifier
    does not report it as a conflict. *)
Lemma createReview_duplicate_bad_rating_counterexample :
  already_reviewed
    (db (fst (createReview "review-1" "booking-1" 5 None (caller "rider-1") sample_world)))
    "booking-1" "rider-1" /\
  snd (createReview "review-2" "booking-1" 6 None (caller "rider-1")
         (fst (createReview "review-1" "booking-1" 5 None (caller "rider-1") sample_world)))
    = Throw "Rating must be between 1 and 5" /\
  "Rating must be between 1 and 5" <> "Review already exists for this booking" /\
  code (errorHandler true (thrown "Rating must be between 1 and 5")) <> "CONFLICT".
Proof.
  split_and!.
  - exists (review_row "review-1" "booking-1" "rider-1" "driver-1" 5 None).
    split; [|split; reflexivity]. vm_compute. left.
  - reflexivity.
  - discriminate.
  - vm_compute. discriminate.
Qed.

End ReviewValidation.

(** ** Average rating *)

Section AverageRating.
Import Store Database Auth ErrorHandler Resolvers.

Lemma round_hundredths_nearest S N :
  0 < N -> Z.abs (200 * S - 2 * N * round_hundredths S N) <= N.
Proof.
  intros HN. unfold round_hundredths.
  destruct (0 <=? S) eqn:HS.
  - pose proof (Z.div_mod (200 * S + N) (2 * N) ltac:(lia)) as E.
    pose proof (Z.mod_pos_bound (200 * S + N) (2 * N) ltac:(lia)) as B.
    lia.
  - pose proof (Z.div_mod (200 * (- S) + N) (2 * N) ltac:(lia)) as E.
    pose proof (Z.mod_pos_bound (200 * (- S) + N) (2 * N) ltac:(lia)) as B.
    lia.
Qed.

Lemma round_hundredths_exact S N q :
  0 < N -> 100 * S = q * N -> round_hundredths S N = q.
Proof.
  intros HN E. unfold round_hundredths.
  destruct (0 <=? S) eqn:HS.
  - apply Z.leb_le in HS. symmetry. apply (Z.div_unique _ _ q N); nia.
  - apply Z.leb_gt in HS.
    assert ((200 * - S + N) / (2 * N) = - q); [|lia].
    symmetry. apply (Z.div_unique _ _ (- q) N); nia.
Qed.

Lemma sum_Z_app l k : sum_Z (l ++ k) = sum_Z l + sum_Z k.
Proof. unfold sum_Z. induction l as [|a l IH]; simpl; lia. Qed.

Lemma sum_Z_permutation l k : l ≡ₚ k -> sum_Z l = sum_Z k.
Proof.
  unfold sum_Z. induction 1 as [|a l k _ IH|a b l|l k m _ IH1 _ IH2]; simpl; lia.
Qed.

Lemma stored_mean_permutation l k : l ≡ₚ k -> stored_mean l = stored_mean k.
Proof.
  intros H. unfold stored_mean.
  rewrite (sum_Z_permutation l k H), (Permutation_length H). reflexivity.
Qed.

Lemma ratings_for_snoc driver rs row :
  r_reviewee_id row = driver ->
  ratings_for driver (rs ++ [row]) = (ratings_for driver rs ++ [r_rating row])%list.
Proof.
  intros H. unfold ratings_for. rewrite filter_app, fmap_app.
  rewrite filter_cons_True by exact H. reflexivity.
Qed.

Lemma avg_rating_ok driver rs a :
  avg_rating driver rs = Ok a ->
  ratings_for driver rs <> [] ->
  a = Some (stored_mean (ratings_for driver rs)).
Proof.
  unfold avg_rating, stored_mean, decimal_3_2.
  destruct (ratings_for driver rs) as [|x l]; [contradiction|].
  destruct (Z.abs _ <? 1000); [|discriminate].
  intros H _. injection H as <-. reflexivity.
Qed.

(** One successful review of [driver] by the rider of the booking. *)
Lemma createReview_by_rider driver c w row :
  rider_reviews_driver (db w) driver c ->
  snd (createReview (rc_uuid c) (rc_booking c) (rc_rating c) (rc_comment c)
         (rc_context c) w) = Ok row ->
  let w1 := fst (createReview (rc_uuid c) (rc_booking c) (rc_rating c) (rc_comment c)
                   (rc_context c) w) in
  trips (db w1) = trips (db w) /\
  bookings (db w1) = bookings (db w) /\
  (dp_user_id <$> driver_profiles (db w1)) = (dp_user_id <$> driver_profiles (db w)) /\
  ratings_for driver (reviews (db w1))
    = (ratings_for driver (reviews (db w)) ++ [rc_rating c])%list /\
  forall p, p ∈ driver_profiles (db w1) -> dp_user_id p = driver ->
            dp_average_rating p = Some (stored_mean (ratings_for driver (reviews (db w1)))).
Proof.
  intros (u & booking & Hu & Hhead & Hrider & Hdrv) Hok.
  apply createReview_success in Hok
    as (u' & booking' & rest & Hu' & _ & Hp & _ & _ & Hrow & T & B & Rv & DP & AV).
  rewrite Hu in Hu'. injection Hu' as <-.
  rewrite Hp in Hhead. injection Hhead as ->.
  assert (Hree : reviewee_of booking (uid u) = driver).
  { unfold reviewee_of. rewrite decide_True by exact Hrider. exact Hdrv. }
  rewrite Hree in Hrow, AV.
  assert (Hrr : r_reviewee_id row = driver) by (rewrite Hrow; reflexivity).
  assert (Hrt : r_rating row = rc_rating c) by (rewrite Hrow; reflexivity).
  simpl. split_and!; try assumption.
  - rewrite Rv, (ratings_for_snoc driver _ row Hrr), Hrt. reflexivity.
  - intros p Hp' Hpu. destruct (AV Hrider p Hp' Hpu) as (a & Ha & ->).
    rewrite Rv. apply (avg_rating_ok driver _ a Ha).
    rewrite (ratings_for_snoc driver _ row Hrr). intros Hnil.
    apply app_eq_nil in Hnil as [_ Hnil]. discriminate Hnil.
Qed.

End AverageRating.

Section AverageRatingRuns.
Import Store Database Auth ErrorHandler Resolvers.

Lemma rider_reviews_driver_same_tables d d' driver c :
  trips d' = trips d -> bookings d' = bookings d ->
  rider_reviews_driver d driver c -> rider_reviews_driver d' driver c.
Proof.
  intros T B (u & booking & H1 & H2 & H3 & H4). exists u, booking.
  rewrite (party_rows_same_tables d d' _ _ T B). split_and!; assumption.
Qed.

Lemma run_reviews_by_riders driver cs : forall w,
  Forall (rider_reviews_driver (db w) driver) cs ->
  Forall succeeded (snd (run_reviews cs w)) ->
  trips (db (fst (run_reviews cs w))) = trips (db w) /\
  bookings (db (fst (run_reviews cs w))) = bookings (db w) /\
  (dp_user_id <$> driver_profiles (db (fst (run_reviews cs w))))
    = (dp_user_id <$> driver_profiles (db w)) /\
  ratings_for driver (reviews (db (fst (run_reviews cs w))))
    = (ratings_for driver (reviews (db w)) ++ (rc_rating <$> cs))%list /\
  (cs <> [] ->
   forall p, p ∈ driver_profiles (db (fst (run_reviews cs w))) -> dp_user_id p = driver ->
     dp_average_rating p
       = Some (stored_mean (ratings_for driver (reviews (db (fst (run_reviews cs w))))))).
Proof.
  induction cs as [|c cs IH]; intros w Hcs Hok.
  - simpl. rewrite app_nil_r. split_and!; try reflexivity. intros H. contradiction.
  - apply Forall_cons in Hcs as [Hc Hcs].
    simpl in Hok |- *.
    pose proof (createReview_by_rider driver c w) as Hstep.
    destruct (createReview (rc_uuid c) (rc_booking c) (rc_rating c) (rc_comment c)
                (rc_context c) w) as [w1 r] eqn:Hrun.
    specialize (IH w1).
    destruct (run_reviews cs w1) as [w2 rs] eqn:Hrest.
    simpl in Hok, Hstep, IH |- *.
    apply Forall_cons in Hok as [[row ->] Hok].
    destruct (Hstep row Hc eq_refl) as (T1 & B1 & D1 & R1 & A1).
    assert (Hcs1 : Forall (rider_reviews_driver (db w1) driver) cs).
    { eapply Forall_impl; [exact Hcs|]. intros c' Hc'.
      eapply rider_reviews_driver_same_tables; [| |exact Hc']; assumption. }
    destruct (IH Hcs1 Hok) as (T2 & B2 & D2 & R2 & A2).
    split_and!.
    + rewrite T2. exact T1.
    + rewrite B2. exact B1.
    + rewrite D2. exact D1.
    + rewrite R2, R1, <- app_assoc. reflexivity.
    + intros _. destruct cs as [|c' cs'].
      * simpl in Hrest. injection Hrest as <- <-. exact A1.
      * apply A2. discriminate.
Qed.

End AverageRatingRuns.

Section ReviewOrder.
Import Store Database Auth ErrorHandler Resolvers.

Lemma sum_Z_bounds l :
  Forall (fun x => 1 <= x <= 5) l ->
  Z.of_nat (length l) <= sum_Z l <= 5 * Z.of_nat (length l).
Proof.
  unfold sum_Z. induction 1 as [|x l Hx _ IH]; simpl length; simpl foldr; lia.
Qed.

Lemma stored_mean_bounds l :
  l <> [] -> Forall (fun x => 1 <= x <= 5) l -> 100 <= stored_mean l <= 500.
Proof.
  intros Hne Hl. pose proof (sum_Z_bounds l Hl) as HS.
  assert (HN : 0 < Z.of_nat (length l)) by (destruct l; [contradiction|simpl; lia]).
  unfold stored_mean, round_hundredths.
  rewrite (proj2 (Z.leb_le 0 (sum_Z l))) by lia.
  split.
  - apply Z.div_le_lower_bound; lia.
  - assert ((200 * sum_Z l + Z.of_nat (length l)) / (2 * Z.of_nat (length l)) < 501); [|lia].
    apply Z.div_lt_upper_bound; lia.
Qed.

Lemma exec_UpdateAverageRating_total driver d :
  ratings_for driver (reviews d) <> [] ->
  ratings_in_range d driver ->
  exists d' res, exec (UpdateAverageRating driver) d = Ok (d', res).
Proof.
  intros Hne Hr. simpl exec.
  destruct (filter _ (driver_profiles d)); [eauto|].
  unfold avg_rating, decimal_3_2.
  pose proof (stored_mean_bounds _ Hne Hr) as Hb. unfold stored_mean in Hb.
  destruct (ratings_for driver (reviews d)) as [|x xs]; [contradiction|].
  rewrite (proj2 (Z.ltb_lt _ 1000)) by lia. eauto.
Qed.

Lemma caller_uid_ok c u : requireAuth (rc_context c) = Ok u -> caller_uid c = uid u.
Proof. unfold caller_uid. intros ->. reflexivity. Qed.

Lemma createReview_goes_through driver c w :
  rider_reviews_driver (db w) driver c ->
  admissible (db w) c ->
  ratings_in_range (db w) driver ->
  succeeded (snd (createReview (rc_uuid c) (rc_booking c) (rc_rating c) (rc_comment c)
                    (rc_context c) w)).
Proof.
  intros (u & booking & Hu & Hhead & Hrider & Hdrv) (Hr & Ho & Hfresh) Hin.
  rewrite (caller_uid_ok c u Hu) in Ho.
  unfold createReview.
  rewrite (bind_ok _ _ w w u) by (unfold lift; rewrite Hu; reflexivity).
  rewrite (rating_check_in _ Hr).
  rewrite (bind_ok _ _ _ _ _ (query_SelectBookingParty (rc_booking c) (uid u) w)).
  destruct (party_rows (db w) (rc_booking c) (uid u)) as [|b0 rest]; [discriminate|].
  injection Hhead as ->.
  rewrite (bind_ok _ _ _ _ _ (query_SelectReviewId (rc_booking c) (uid u) _)). cbn [db].
  rewrite Ho.
  destruct (decide (b_rider_id (bd_booking booking) = uid u)) as [_|Hn]; [|contradiction].
  match goal with
  | |- context [query (InsertReview ?a ?b ?c0 ?d ?e ?f)] =>
      pose proof (query_InsertReview a b c0 d e f
                {| db := db w;
                   issued := ((issued w ++ [sending (SelectBookingParty (rc_booking c) (uid u))])
                                ++ [sending (SelectReviewId (rc_booking c) (uid u))])%list |})
        as Hins
  end.
  cbn [db issued] in Hins.
  rewrite decide_False in Hins by exact Hfresh.
  rewrite decide_True in Hins by exact Hr.
  rewrite (bind_ok _ _ _ _ _ Hins).
  destruct (exec_UpdateAverageRating_total (bd_driver_id booking)
              (set_reviews (db w)
                 (reviews (db w) ++
                    [review_row (rc_uuid c) (rc_booking c) (uid u) (bd_driver_id booking)
                       (rc_rating c) (or_null (rc_comment c))])%list))
    as (d2 & res & Hx).
  { simpl. rewrite ratings_for_snoc by reflexivity. intros Hnil.
    apply app_eq_nil in Hnil as [_ Hnil]. discriminate Hnil. }
  { unfold ratings_in_range. simpl. rewrite ratings_for_snoc by reflexivity.
    apply Forall_app. split; [rewrite Hdrv; exact Hin|]. apply Forall_singleton. exact Hr. }
  unfold bind, query. cbn [db issued]. rewrite Hx. simpl. eexists. reflexivity.
Qed.

Lemma own_review_ids_snoc d d' row bookingId who :
  reviews d' = (reviews d ++ [row])%list ->
  own_review_ids d' bookingId who =
    (own_review_ids d bookingId who ++
       (if decide (r_booking_id row = bookingId /\ r_reviewer_id row = who)
        then [r_id row] else []))%list.
Proof.
  intros H. unfold own_review_ids. rewrite H, filter_app, fmap_app. f_equal.
  rewrite filter_cons, filter_nil.
  destruct (decide (r_booking_id row = bookingId /\ r_reviewer_id row = who)); reflexivity.
Qed.

(** What a successful review by the rider of a booking of [driver] needed
    and what row it stored. *)
Lemma createReview_post driver c w row :
  rider_reviews_driver (db w) driver c ->
  snd (createReview (rc_uuid c) (rc_booking c) (rc_rating c) (rc_comment c)
         (rc_context c) w) = Ok row ->
  admissible (db w) c /\
  reviews (db (fst (createReview (rc_uuid c) (rc_booking c) (rc_rating c) (rc_comment c)
                      (rc_context c) w)))
    = (reviews (db w) ++ [row])%list /\
  r_id row = rc_uuid c /\
  r_booking_id row = rc_booking c /\
  r_reviewer_id row = caller_uid c.
Proof.
  intros (u & booking & Hu & _) Hok.
  apply createReview_success in Hok
    as (u' & booking' & rest & Hu' & Hr & _ & Ho & Hfresh & Hrow & _ & _ & Rv & _).
  rewrite Hu in Hu'. injection Hu' as <-.
  unfold admissible. rewrite (caller_uid_ok c u Hu).
  split; [split; [exact Hr|split; [exact Ho|exact Hfresh]]|].
  split; [exact Rv|]. rewrite Hrow. split_and!; reflexivity.
Qed.

Lemma run_reviews_cons c cs w :
  run_reviews (c :: cs) w =
    (fst (run_reviews cs
            (fst (createReview (rc_uuid c) (rc_booking c) (rc_rating c) (rc_comment c)
                    (rc_context c) w))),
     snd (createReview (rc_uuid c) (rc_booking c) (rc_rating c) (rc_comment c)
            (rc_context c) w)
     :: snd (run_reviews cs
               (fst (createReview (rc_uuid c) (rc_booking c) (rc_rating c) (rc_comment c)
                       (rc_context c) w)))).
Proof.
  simpl. destruct (createReview _ _ _ _ _ w) as [w1 r]. simpl.
  destruct (run_reviews cs w1) as [w2 rs]. reflexivity.
Qed.

(** Calls that are admissible in the initial store and pairwise distinct
    in id and in (booking, reviewer) all go through, whatever their
    order. *)
Lemma run_reviews_go_through driver cs : forall w,
  Forall (rider_reviews_driver (db w) driver) cs ->
  ratings_in_range (db w) driver ->
  Forall (admissible (db w)) cs ->
  NoDup (rc_uuid <$> cs) ->
  NoDup (review_key <$> cs) ->
  Forall succeeded (snd (run_reviews cs w)).
Proof.
  induction cs as [|c cs IH]; intros w Hrd Hrng Hadm Hid Hkey.
  - simpl. apply Forall_nil_2.
  - rewrite run_reviews_cons. simpl snd.
    apply Forall_cons in Hrd as [Hc Hrd]. apply Forall_cons in Hadm as [Ha Hadm].
    rewrite fmap_cons in Hid. rewrite fmap_cons in Hkey.
    apply NoDup_cons in Hid as [Hid1 Hid]. apply NoDup_cons in Hkey as [Hkey1 Hkey].
    pose proof (createReview_goes_through driver c w Hc Ha Hrng) as [row Hrow].
    apply Forall_cons_2; [exists row; exact Hrow|].
    destruct (createReview_by_rider driver c w row Hc Hrow) as (T & B & _ & R & _).
    destruct (createReview_post driver c w row Hc Hrow) as (_ & Rv & I1 & I2 & I3).
    apply IH.
    + eapply Forall_impl; [exact Hrd|]. intros c' Hc'.
      eapply rider_reviews_driver_same_tables; [| |exact Hc']; assumption.
    + unfold ratings_in_range. rewrite R. apply Forall_app. split; [exact Hrng|].
      apply Forall_singleton. apply Ha.
    + apply Forall_forall. intros c' Hin.
      destruct (proj1 (Forall_forall _ _) Hadm c' Hin) as (A1 & A2 & A3).
      split; [|split].
      * exact A1.
      * rewrite (own_review_ids_snoc (db w) _ row _ _ Rv), A2.
        rewrite decide_False; [reflexivity|].
        intros [E1 E2]. apply Hkey1. apply list_elem_of_fmap. exists c'.
        split; [|exact Hin]. unfold review_key. rewrite <- I2, <- I3, E1, E2. reflexivity.
      * rewrite Rv, fmap_app. intros Hmem. apply elem_of_app in Hmem as [Hmem|Hmem].
        -- exact (A3 Hmem).
        -- apply list_elem_of_singleton in Hmem. apply Hid1.
           apply list_elem_of_fmap. exists c'. split; [|exact Hin]. congruence.
    + exact Hid.
    + exact Hkey.
Qed.

(** Conversely, calls that all went through were admissible in the
    initial store and pairwise distinct. *)
Lemma run_reviews_went_through driver cs : forall w,
  Forall (rider_reviews_driver (db w) driver) cs ->
  Forall succeeded (snd (run_reviews cs w)) ->
  Forall (admissible (db w)) cs /\
  NoDup (rc_uuid <$> cs) /\
  NoDup (review_key <$> cs).
Proof.
  induction cs as [|c cs IH]; intros w Hrd Hok.
  - split_and!; constructor.
  - rewrite run_reviews_cons in Hok. simpl snd in Hok.
    apply Forall_cons in Hrd as [Hc Hrd]. apply Forall_cons in Hok as [[row Hrow] Hok].
    destruct (createReview_by_rider driver c w row Hc Hrow) as (T & B & _ & _ & _).
    destruct (createReview_post driver c w row Hc Hrow) as (Ha & Rv & I1 & I2 & I3).
    assert (Hrd1 : Forall (rider_reviews_driver
                     (db (fst (createReview (rc_uuid c) (rc_booking c) (rc_rating c)
                                 (rc_comment c) (rc_context c) w))) driver) cs).
    { eapply Forall_impl; [exact Hrd|]. intros c' Hc'.
      eapply rider_reviews_driver_same_tables; [| |exact Hc']; assumption. }
    destruct (IH _ Hrd1 Hok) as (Hadm & Hid & Hkey).
    assert (Hstep : forall c', c' ∈ cs ->
              admissible (db w) c' /\ rc_uuid c' <> rc_uuid c /\ review_key c' <> review_key c).
    { intros c' Hin.
      destruct (proj1 (Forall_forall _ _) Hadm c' Hin) as (A1 & A2 & A3).
      rewrite (own_review_ids_snoc (db w) _ row _ _ Rv) in A2.
      apply app_eq_nil in A2 as [A2 A2'].
      rewrite Rv, fmap_app in A3.
      split; [|split].
      - split; [exact A1|split; [exact A2|]].
        intros Hmem. apply A3. apply elem_of_app. left. exact Hmem.
      - intros E. apply A3. apply elem_of_app. right.
        apply list_elem_of_singleton. congruence.
      - intros E. unfold review_key in E. injection E as E1 E2.
        rewrite decide_True in A2' by (rewrite I2, I3; split; congruence).
        discriminate A2'. }
    split_and!.
    + apply Forall_cons_2; [exact Ha|]. apply Forall_forall. intros c' Hin.
      apply (Hstep c' Hin).
    + rewrite fmap_cons. apply NoDup_cons. split; [|exact Hid].
      intros Hmem. apply list_elem_of_fmap in Hmem as (c' & E & Hin).
      destruct (Hstep c' Hin) as (_ & Hne & _). congruence.
    + rewrite fmap_cons. apply NoDup_cons. split; [|exact Hkey].
      intros Hmem. apply list_elem_of_fmap in Hmem as (c' & E & Hin).
      destruct (Hstep c' Hin) as (_ & _ & Hne). congruence.
Qed.

(** Success does not depend on the order of the calls. *)
Lemma run_reviews_succeed_in_any_order driver cs cs' w :
  cs ≡ₚ cs' ->
  Forall (rider_reviews_driver (db w) driver) cs ->
  ratings_in_range (db w) driver ->
  Forall succeeded (snd (run_reviews cs w)) ->
  Forall succeeded (snd (run_reviews cs' w)).
Proof.
  intros Hperm Hrd Hrng Hok.
  destruct (run_reviews_went_through driver cs w Hrd Hok) as (Hadm & Hid & Hkey).
  apply (run_reviews_go_through driver).
  - rewrite <- Hperm. exact Hrd.
  - exact Hrng.
  - rewrite <- Hperm. exact Hadm.
  - rewrite <- Hperm. exact Hid.
  - rewrite <- Hperm. exact Hkey.
Qed.

End ReviewOrder.

Section AverageRatingTheorem.
Import Store Database Auth ErrorHandler Resolvers.

(** C7 (as amended). After a non-empty sequence of successful
    [createReview] calls, each made by the rider of a booking whose trip
    is driven by [driver], the reviews stored for that reviewee are the
    earlier ones followed by the new ratings, and every profile of the
    driver holds their arithmetic mean rounded to two decimals (ties away
    from zero): it lies within half a hundredth of the mean and is the
    mean itself whenever the mean has at most two decimals. When the
    reviews already stored for the driver satisfy the rating check of the
    schema, the calls also succeed in every other order and leave the
    same value. *)
Theorem average_rating_is_rounded_mean
    (w : World) (driver : string) (cs : list review_call) :
  cs <> [] ->
  Forall (rider_reviews_driver (db w) driver) cs ->
  Forall succeeded (snd (run_reviews cs w)) ->
  ratings_for driver (reviews (db (fst (run_reviews cs w))))
    = (ratings_for driver (reviews (db w)) ++ (rc_rating <$> cs))%list /\
  (forall p, p ∈ driver_profiles (db (fst (run_reviews cs w))) -> dp_user_id p = driver ->
     exists h,
       dp_average_rating p = Some h /\
       h = stored_mean (ratings_for driver (reviews (db w)) ++ (rc_rating <$> cs))%list /\
       Z.abs (200 * sum_Z (ratings_for driver (reviews (db w)) ++ (rc_rating <$> cs))%list
              - 2 * Z.of_nat (length (ratings_for driver (reviews (db w))
                                        ++ (rc_rating <$> cs))%list) * h)
         <= Z.of_nat (length (ratings_for driver (reviews (db w))
                                ++ (rc_rating <$> cs))%list) /\
       (forall q, is_mean_of q (ratings_for driver (reviews (db w))
                                  ++ (rc_rating <$> cs))%list -> h = q)) /\
  (dp_user_id <$> driver_profiles (db (fst (run_reviews cs w))))
    = (dp_user_id <$> driver_profiles (db w)) /\
  (ratings_in_range (db w) driver ->
   forall cs',
     cs ≡ₚ cs' ->
     Forall succeeded (snd (run_reviews cs' w)) /\
     forall p p',
       p ∈ driver_profiles (db (fst (run_reviews cs w))) -> dp_user_id p = driver ->
       p' ∈ driver_profiles (db (fst (run_reviews cs' w))) -> dp_user_id p' = driver ->
       dp_average_rating p' = dp_average_rating p).
Proof.
  intros Hne Hcs Hok.
  destruct (run_reviews_by_riders driver cs w Hcs Hok) as (_ & _ & DP & R & A).
  assert (Hlen : 0 < Z.of_nat (length (ratings_for driver (reviews (db w))
                                         ++ (rc_rating <$> cs))%list)).
  { rewrite length_app, length_fmap. destruct cs; [contradiction|]. simpl. lia. }
  split_and!.
  - exact R.
  - intros p Hp Hu. eexists. split; [apply (A Hne p Hp Hu)|]. rewrite R.
    split_and!.
    + reflexivity.
    + apply round_hundredths_nearest. exact Hlen.
    + intros q Hq. unfold stored_mean. apply round_hundredths_exact; [exact Hlen|].
      unfold is_mean_of in Hq. lia.
  - exact DP.
  - intros Hrng cs' Hperm.
    pose proof (run_reviews_succeed_in_any_order driver cs cs' w Hperm Hcs Hrng Hok) as Hok'.
    split; [exact Hok'|].
    intros p p' Hp Hu Hp' Hu'.
    assert (Hcs' : Forall (rider_reviews_driver (db w) driver) cs').
    { rewrite <- Hperm. exact Hcs. }
    assert (Hne' : cs' <> []).
    { intros ->. apply Permutation_nil_r in Hperm. contradiction. }
    destruct (run_reviews_by_riders driver cs' w Hcs' Hok') as (_ & _ & _ & R' & A').
    rewrite (A Hne p Hp Hu), (A' Hne' p' Hp' Hu'), R, R'. f_equal.
    apply stored_mean_permutation. apply Permutation_app_head.
    apply fmap_Permutation. symmetry. exact Hperm.
Qed.

End AverageRatingTheorem.

Section AverageRatingExamples.
Import Store Database Auth ErrorHandler Resolvers.

Lemma sample_reviews_by_riders :
  Forall (rider_reviews_driver review_db "driver-1") sample_reviews.
Proof.
  unfold sample_reviews. repeat apply Forall_cons_2; [| | |apply Forall_nil_2].
  - exists {| uid := "rider-1"; email := None; phone_number := None; custom_claims := None |}.
    eexists. split_and!; reflexivity.
  - exists {| uid := "rider-2"; email := None; phone_number := None; custom_claims := None |}.
    eexists. split_and!; reflexivity.
  - exists {| uid := "rider-3"; email := None; phone_number := None; custom_claims := None |}.
    eexists. split_and!; reflexivity.
Defined.

Lemma sample_reviews_succeed :
  Forall succeeded (snd (run_reviews sample_reviews review_world)).
Proof.
  vm_compute. repeat (apply Forall_cons_2; [eexists; reflexivity|]). apply Forall_nil_2.
Defined.

Lemma average_rating_is_rounded_mean_witness :
  sample_reviews <> [] /\
  ratings_for "driver-1"
    (reviews (db (fst (run_reviews sample_reviews review_world)))) = [5; 5; 4] /\
  stored_mean [5; 5; 4] = 467 /\
  Forall succeeded (snd (run_reviews (reverse sample_reviews) review_world)).
Proof.
  destruct (average_rating_is_rounded_mean review_world "driver-1" sample_reviews)
    as (H1 & _ & _ & H4).
  - discriminate.
  - exact sample_reviews_by_riders.
  - exact sample_reviews_succeed.
  - split_and!; [discriminate|exact H1|reflexivity|].
    apply (H4 (Forall_nil_2 _) (reverse sample_reviews)).
    symmetry. apply reverse_Permutation.
Defined.

(** C7 as stated fails on rounding: after three successful reviews of the
    same driver with ratings 5, 5 and 4 the stored average is 4.67, which
    is not their arithmetic mean 14/3. *)
Lemma average_rating_not_exact_mean_counterexample :
  Forall succeeded (snd (run_reviews sample_reviews review_world)) /\
  ratings_for "driver-1"
    (reviews (db (fst (run_reviews sample_reviews review_world)))) = [5; 5; 4] /\
  (dp_average_rating <$> driver_profiles (db (fst (run_reviews sample_reviews review_world))))
    = [Some 467] /\
  ~ is_mean_of 467 [5; 5; 4].
Proof.
  split_and!.
  - exact sample_reviews_succeed.
  - reflexivity.
  - reflexivity.
  - unfold is_mean_of. simpl. lia.
Qed.

End AverageRatingExamples.

(** * Further properties *)

Section TrafficFacts.
Import RateLimiter Traffic.

Lemma serve_stream_cons l req now now' rest :
  serve_stream l ((req, (now, now')) :: rest) =
    (fst (serve_stream (fst (rateLimiterMiddleware l req now now')) rest),
     snd (rateLimiterMiddleware l req now now')
     :: snd (serve_stream (fst (rateLimiterMiddleware l req now now')) rest)).
Proof.
  simpl. destruct (rateLimiterMiddleware l req now now') as [l1 r]. simpl.
  destruct (serve_stream l1 rest) as [l2 rs]. reflexivity.
Qed.

Lemma serve_stream_length stream : forall l,
  length (snd (serve_stream l stream)) = length stream.
Proof.
  induction stream as [|[req [t t']] rest IH]; intros l; [reflexivity|].
  rewrite serve_stream_cons. simpl. rewrite IH. reflexivity.
Qed.

(** What the middleware answers, and the entry it leaves for the key,
    depend only on the configuration and on the entry stored for the key. *)
Lemma middleware_local l1 l2 req now now' :
  windowMs l1 = windowMs l2 ->
  maxRequests l1 = maxRequests l2 ->
  store l1 !! getKey req = store l2 !! getKey req ->
  snd (rateLimiterMiddleware l1 req now now') = snd (rateLimiterMiddleware l2 req now now') /\
  store (fst (rateLimiterMiddleware l1 req now now')) !! getKey req
    = store (fst (rateLimiterMiddleware l2 req now now')) !! getKey req.
Proof.
  intros HW HM Hk. unfold rateLimiterMiddleware, isAllowed. rewrite Hk, HW, HM.
  destruct (store l2 !! getKey req) as [e|]; [destruct (bool_decide _)|];
    simpl; rewrite !lookup_insert_eq; split; reflexivity.
Qed.

Lemma middleware_config l req now now' :
  windowMs (fst (rateLimiterMiddleware l req now now')) = windowMs l /\
  maxRequests (fst (rateLimiterMiddleware l req now now')) = maxRequests l.
Proof.
  unfold rateLimiterMiddleware, isAllowed.
  destruct (store l !! getKey req) as [e|]; [destruct (bool_decide _)|];
    simpl; split; reflexivity.
Qed.

Lemma middleware_other_key l req now now' k :
  getKey req <> k ->
  store (fst (rateLimiterMiddleware l req now now')) !! k = store l !! k.
Proof.
  intros Hne. unfold rateLimiterMiddleware, isAllowed.
  destruct (store l !! getKey req) as [e|]; [destruct (bool_decide _)|];
    simpl; apply lookup_insert_ne; exact Hne.
Qed.

Lemma serve_stream_config stream : forall l,
  windowMs (fst (serve_stream l stream)) = windowMs l /\
  maxRequests (fst (serve_stream l stream)) = maxRequests l.
Proof.
  induction stream as [|[req [t t']] rest IH]; intros l; [split; reflexivity|].
  rewrite serve_stream_cons. simpl.
  destruct (IH (fst (rateLimiterMiddleware l req t t'))) as [H1 H2].
  destruct (middleware_config l req t t') as [H3 H4].
  split; congruence.
Qed.

Lemma answers_for_cons k a rest r rs :
  answers_for k (a :: rest) (r :: rs) =
    if decide (getKey (fst a) = k) then r :: answers_for k rest rs
    else answers_for k rest rs.
Proof.
  unfold answers_for. simpl zip. rewrite filter_cons. simpl.
  destruct (decide (getKey (fst a) = k)); reflexivity.
Qed.

(** Two limiters with the same configuration that agree on the entry of
    [k] give the requests with key [k] the same answers, whatever other
    traffic the first one serves in between. *)
Lemma serve_stream_isolated k stream : forall l1 l2,
  windowMs l1 = windowMs l2 ->
  maxRequests l1 = maxRequests l2 ->
  store l1 !! k = store l2 !! k ->
  answers_for k stream (snd (serve_stream l1 stream))
    = snd (serve_stream l2 (filter (fun a => getKey (fst a) = k) stream)) /\
  store (fst (serve_stream l1 stream)) !! k
    = store (fst (serve_stream l2 (filter (fun a => getKey (fst a) = k) stream))) !! k.
Proof.
  induction stream as [|[req [t t']] rest IH]; intros l1 l2 HW HM Hk.
  - split; [reflexivity|exact Hk].
  - rewrite serve_stream_cons. cbn [fst snd]. rewrite answers_for_cons. cbn [fst].
    rewrite filter_cons. cbn [fst].
    destruct (middleware_config l1 req t t') as [C1 C2].
    destruct (decide (getKey req = k)) as [Heq|Hne].
    + rewrite serve_stream_cons. cbn [fst snd].
      assert (Hk' : store l1 !! getKey req = store l2 !! getKey req) by (rewrite Heq; exact Hk).
      destruct (middleware_local l1 l2 req t t' HW HM Hk') as [R1 R2].
      destruct (middleware_config l2 req t t') as [C3 C4].
      rewrite Heq in R2.
      destruct (IH (fst (rateLimiterMiddleware l1 req t t'))
                   (fst (rateLimiterMiddleware l2 req t t'))) as [A1 A2];
        [congruence|congruence|exact R2|].
      rewrite A1, R1. split; [reflexivity|exact A2].
    + apply IH; [congruence|congruence|].
      rewrite (middleware_other_key l1 req t t' k Hne). exact Hk.
Qed.

End TrafficFacts.

Section TrafficTheorems.
Import RateLimiter Traffic.

(** X1. The limiter treats clients independently: the answers to the
    requests of one key, served in the middle of any other traffic, are
    the answers those requests would get alone, from any limiter with the
    same configuration and the same entry for that key; and the entry left
    for the key is the same. *)
Theorem rate_limit_keys_are_independent
    (k : string) (stream : list arrival) (l1 l2 : limiter) :
  windowMs l1 = windowMs l2 ->
  maxRequests l1 = maxRequests l2 ->
  store l1 !! k = store l2 !! k ->
  answers_for k stream (snd (serve_stream l1 stream))
    = snd (serve_stream l2 (filter (fun a => getKey (fst a) = k) stream)) /\
  store (fst (serve_stream l1 stream)) !! k
    = store (fst (serve_stream l2 (filter (fun a => getKey (fst a) = k) stream))) !! k.
Proof. apply serve_stream_isolated. Qed.

Lemma rate_limit_keys_are_independent_witness :
  answers_for (getKey sample_request)
    [(other_request, (1, 1)); (sample_request, (2, 2)); (other_request, (3, 3))]
    (snd (serve_stream (new_limiter 900000 1)
            [(other_request, (1, 1)); (sample_request, (2, 2)); (other_request, (3, 3))]))
  = snd (serve_stream (new_limiter 900000 1) [(sample_request, (2, 2))]).
Proof.
  apply (rate_limit_keys_are_independent (getKey sample_request)
           [(other_request, (1, 1)); (sample_request, (2, 2)); (other_request, (3, 3))]
           (new_limiter 900000 1) (new_limiter 900000 1));
    reflexivity.
Defined.

Lemma ceil_div_mono a b : a <= b -> Js.ceil_div a 1000 <= Js.ceil_div b 1000.
Proof.
  intros H. unfold Js.ceil_div.
  assert ((- b) / 1000 <= (- a) / 1000); [|lia].
  apply Z.div_le_mono; lia.
Qed.

Lemma entries_bounded_later l now now1 :
  now <= now1 -> entries_bounded l now -> entries_bounded l now1.
Proof.
  intros H Hb key e He. destruct (Hb key e He) as [H1 H2]. split; [exact H1|lia].
Qed.

(** One request keeps the entries bounded, and its answer within the
    window and the limit. *)
Lemma middleware_bounded l req now0 t t' :
  0 <= windowMs l ->
  entries_bounded l now0 ->
  now0 <= t ->
  entries_bounded (fst (rateLimiterMiddleware l req t t')) t /\
  x_ratelimit_reset (snd (rateLimiterMiddleware l req t t')) <= t + windowMs l /\
  (t <= t' ->
   forall status ra,
     served (snd (rateLimiterMiddleware l req t t')) = Rejected status ra ->
     status = 429 /\ ra <= Js.ceil_div (windowMs l) 1000) /\
  (1 <= maxRequests l ->
   0 <= x_ratelimit_remaining (snd (rateLimiterMiddleware l req t t')) < maxRequests l).
Proof.
  intros HW Hb Ht.
  pose proof (entries_bounded_later l now0 t Ht Hb) as Hb'.
  unfold rateLimiterMiddleware, isAllowed.
  destruct (store l !! getKey req) as [e|] eqn:He.
  - destruct (Hb' _ _ He) as [Hc Hr].
    destruct (bool_decide (resetTime e < t)) eqn:Hexp.
    + cbn. split_and!.
      * intros key e' He'. cbn in He'.
        destruct (decide (getKey req = key)) as [<-|Hne].
        -- rewrite lookup_insert_eq in He'. injection He' as <-. cbn. lia.
        -- rewrite lookup_insert_ne in He' by exact Hne. exact (Hb' _ _ He').
      * lia.
      * intros _ status ra H. discriminate H.
      * intros HM. lia.
    + apply bool_decide_eq_false in Hexp. cbn. split_and!.
      * intros key e' He'. cbn in He'.
        destruct (decide (getKey req = key)) as [<-|Hne].
        -- rewrite lookup_insert_eq in He'. injection He' as <-. cbn. lia.
        -- rewrite lookup_insert_ne in He' by exact Hne. exact (Hb' _ _ He').
      * exact Hr.
      * intros Htt status ra H.
        destruct (bool_decide (count e + 1 <= maxRequests l)); [discriminate H|].
        cbn in H. injection H as <- <-. split; [reflexivity|].
        apply ceil_div_mono. lia.
      * intros HM. lia.
  - cbn. split_and!.
    + intros key e' He'. cbn in He'.
      destruct (decide (getKey req = key)) as [<-|Hne].
      * rewrite lookup_insert_eq in He'. injection He' as <-. cbn. lia.
      * rewrite lookup_insert_ne in He' by exact Hne. exact (Hb' _ _ He').
    + lia.
    + intros _ status ra H. discriminate H.
    + intros HM. lia.
Qed.

(** X2. Along any traffic whose clock never goes backwards, starting from
    bounded entries (the empty store of a new limiter is), every answer
    announces a reset time at most one window ahead of the request, every
    rejection is a 429 whose retry-after is at most the window length in
    seconds (rounded up), and with a limit of at least 1 the announced
    remaining quota lies between 0 and the limit minus one; the entries
    stay bounded. *)
Theorem rate_limit_answers_stay_in_window (stream : list arrival) :
  forall (l : limiter) (now0 : Z),
  0 <= windowMs l ->
  entries_bounded l now0 ->
  clock_monotone now0 stream ->
  (forall (i : nat) a r,
     stream !! i = Some a -> snd (serve_stream l stream) !! i = Some r ->
     x_ratelimit_reset r <= fst (snd a) + windowMs l /\
     (forall status ra, served r = Rejected status ra ->
                        status = 429 /\ ra <= Js.ceil_div (windowMs l) 1000) /\
     (1 <= maxRequests l -> 0 <= x_ratelimit_remaining r < maxRequests l)) /\
  (forall key e, store (fst (serve_stream l stream)) !! key = Some e -> 1 <= count e).
Proof.
  induction stream as [|[req [t t']] rest IH]; intros l now0 HW Hb Hmono.
  - split.
    + intros i a r Ha. rewrite lookup_nil in Ha. discriminate Ha.
    + intros key e He. exact (proj1 (Hb key e He)).
  - destruct Hmono as (H0 & Htt & Hrest).
    rewrite serve_stream_cons. cbn [fst snd].
    destruct (middleware_bounded l req now0 t t' HW Hb H0) as (B1 & B2 & B3 & B4).
    destruct (middleware_config l req t t') as [C1 C2].
    destruct (IH (fst (rateLimiterMiddleware l req t t')) t) as [I1 I2];
      [rewrite C1; exact HW|exact B1|exact Hrest|].
    split; [|exact I2].
    intros [|i] a r Ha Hr; cbn in Ha, Hr.
    + injection Ha as <-. injection Hr as <-. cbn [fst snd].
      split_and!; [exact B2|exact (B3 Htt)|exact B4].
    + rewrite <- C1, <- C2. exact (I1 i a r Ha Hr).
Qed.

Lemma new_limiter_bounded w m now : entries_bounded (new_limiter w m) now.
Proof. intros key e He. cbn in He. rewrite lookup_empty in He. discriminate He. Qed.

Lemma rate_limit_answers_stay_in_window_witness :
  1 <= count {| count := 2; resetTime := 900010 |}.
Proof.
  apply (proj2 (rate_limit_answers_stay_in_window
                  [(sample_request, (10, 11)); (other_request, (12, 12));
                   (sample_request, (12, 15))] configured_limiter 0
                  ltac:(cbn; lia) (new_limiter_bounded 900000 100 0) ltac:(cbn; lia))
           (getKey sample_request)).
  vm_compute. reflexivity.
Defined.

End TrafficTheorems.

Section SweepAndKeys.
Import RateLimiter Traffic.

Lemma serve_cons l req t t' clock :
  serve l req ((t, t') :: clock) =
    (fst (serve (fst (rateLimiterMiddleware l req t t')) req clock),
     snd (rateLimiterMiddleware l req t t')
     :: snd (serve (fst (rateLimiterMiddleware l req t t')) req clock)).
Proof.
  simpl. destruct (rateLimiterMiddleware l req t t') as [l1 r]. simpl.
  destruct (serve l1 req clock) as [l2 rs]. reflexivity.
Qed.

Lemma serve_local req clock : forall l1 l2,
  windowMs l1 = windowMs l2 ->
  maxRequests l1 = maxRequests l2 ->
  store l1 !! getKey req = store l2 !! getKey req ->
  snd (serve l1 req clock) = snd (serve l2 req clock).
Proof.
  induction clock as [|[t t'] clock IH]; intros l1 l2 HW HM Hk; [reflexivity|].
  rewrite !serve_cons. cbn [snd].
  destruct (middleware_local l1 l2 req t t' HW HM Hk) as [R1 R2].
  destruct (middleware_config l1 req t t') as [C1 C2].
  destruct (middleware_config l2 req t t') as [C3 C4].
  rewrite R1. f_equal. apply IH; congruence.
Qed.

Lemma cleanup_middleware l req t now now' :
  t <= now ->
  snd (rateLimiterMiddleware (cleanup l t) req now now')
    = snd (rateLimiterMiddleware l req now now') /\
  store (fst (rateLimiterMiddleware (cleanup l t) req now now')) !! getKey req
    = store (fst (rateLimiterMiddleware l req now now')) !! getKey req.
Proof.
  intros Ht. destruct (cleanup_transparent req l t now Ht) as [D S].
  unfold rateLimiterMiddleware.
  destruct (isAllowed (cleanup l t) req now) as [la da].
  destruct (isAllowed l req now) as [lb db0]. cbn in D, S |- *.
  rewrite D. split; [reflexivity|exact S].
Qed.

(** X3. The periodic sweep drops exactly the entries whose reset time lies
    before the sweep's clock and keeps the others as they are; and a
    client served after the sweep, at times not before it, gets the same
    answers as without the sweep. *)
Theorem cleanup_drops_only_expired_entries (l : limiter) (t : Z) :
  (forall key e,
     store (cleanup l t) !! key = Some e <->
     store l !! key = Some e /\ t <= resetTime e) /\
  (forall req clock,
     Forall (fun tt => t <= fst tt) clock ->
     snd (serve (cleanup l t) req clock) = snd (serve l req clock)).
Proof.
  split.
  - intros key e. rewrite cleanup_lookup.
    destruct (store l !! key) as [e0|]; [|split; [discriminate|intros [H _]; discriminate H]].
    destruct (decide (resetTime e0 < t)) as [Hlt|Hge].
    + split; [discriminate|]. intros [H Ht]. injection H as ->. lia.
    + split.
      * intros H. injection H as ->. split; [reflexivity|lia].
      * intros [H _]. exact H.
  - intros req [|[t1 t1'] clock] Hc; [reflexivity|].
    apply Forall_cons in Hc as [Ht1 _]. cbn in Ht1.
    rewrite !serve_cons. cbn [snd].
    destruct (cleanup_middleware l req t t1 t1' Ht1) as [R S].
    destruct (middleware_config (cleanup l t) req t1 t1') as [C1 C2].
    destruct (middleware_config l req t1 t1') as [C3 C4].
    rewrite R. f_equal. apply serve_local; [| |exact S].
    + rewrite C1, C3. reflexivity.
    + rewrite C2, C4. reflexivity.
Qed.

Lemma cleanup_drops_only_expired_entries_witness :
  snd (serve (cleanup (fst (serve configured_limiter sample_request [(0, 0)])) 900001)
         sample_request [(900001, 900002)])
  = snd (serve (fst (serve configured_limiter sample_request [(0, 0)]))
           sample_request [(900001, 900002)]).
Proof.
  apply (cleanup_drops_only_expired_entries
           (fst (serve configured_limiter sample_request [(0, 0)])) 900001).
  apply Forall_cons_2; [cbn; lia|apply Forall_nil_2].
Defined.

(** X4. A key that has no entry is always let through, whatever the
    limit: traffic in which every request carries a key not seen before
    is never rejected. With a non-empty forwarded-for header the key is
    the header's first entry and the peer address plays no part, so the
    sender chooses the key. *)
Theorem unseen_keys_are_never_limited (stream : list arrival) : forall (l : limiter),
  NoDup ((fun a => getKey (fst a)) <$> stream) ->
  (forall a, a ∈ stream -> store l !! getKey (fst a) = None) ->
  Forall (fun r => served r = Next) (snd (serve_stream l stream)) /\
  (forall s peer peer',
     Js.truthy s = true ->
     getKey {| x_forwarded_for := FwdString s; remoteAddress := peer |}
       = getKey {| x_forwarded_for := FwdString s; remoteAddress := peer' |}).
Proof.
  induction stream as [|[req [t t']] rest IH]; intros l Hnd Hnew.
  - split; [apply Forall_nil_2|]. intros s peer peer' Hs. unfold getKey. cbn. rewrite Hs.
    reflexivity.
  - rewrite fmap_cons in Hnd. apply NoDup_cons in Hnd as [Hk Hnd]. cbn [fst] in Hk.
    rewrite serve_stream_cons. cbn [snd].
    split; [|intros s peer peer' Hs; unfold getKey; cbn; rewrite Hs; reflexivity].
    apply Forall_cons_2.
    + pose proof (Hnew (req, (t, t')) ltac:(left)) as Hreq. cbn [fst] in Hreq.
      unfold rateLimiterMiddleware, isAllowed. rewrite Hreq. reflexivity.
    + apply IH; [exact Hnd|].
      intros a Ha. rewrite middleware_other_key.
      * apply Hnew. right. exact Ha.
      * intros Heq. apply Hk. apply list_elem_of_fmap. exists a. split; [exact Heq|exact Ha].
Qed.

Lemma unseen_keys_are_never_limited_witness :
  Forall (fun r => served r = Next)
    (snd (serve_stream (new_limiter 900000 0)
            [({| x_forwarded_for := FwdString "a"; remoteAddress := Some "10.0.0.1" |}, (1, 1));
             ({| x_forwarded_for := FwdString "b"; remoteAddress := Some "10.0.0.1" |}, (2, 2))])).
Proof.
  apply (unseen_keys_are_never_limited
           [({| x_forwarded_for := FwdString "a"; remoteAddress := Some "10.0.0.1" |}, (1, 1));
            ({| x_forwarded_for := FwdString "b"; remoteAddress := Some "10.0.0.1" |}, (2, 2))]
           (new_limiter 900000 0)).
  - cbn. apply NoDup_cons. split; [|apply NoDup_singleton].
    intros H. apply list_elem_of_singleton in H. discriminate H.
  - intros a Ha. cbn. apply lookup_empty.
Defined.

End SweepAndKeys.

Section AuthMore.
Import Auth ErrorHandler Roles.

(** X5. The context builder authenticates only through the identity
    provider: the context it returns is authenticated exactly when the
    header starts with [Bearer ] and the provider accepts the rest of it;
    the user that [requireAuth] then returns carries the uid, email and
    phone number of the decoded token, and the call to the provider is on
    record. In particular a header [Bearer <token>] with an accepted token
    yields that token's user. *)
Theorem authentication_only_through_provider
    (verifyIdToken : string -> result DecodedIdToken)
    (authorization : option string) (context : GraphQLContext) :
  snd (authMiddleware verifyIdToken authorization) = Ok context ->
  (isAuthenticated context = true <->
   exists h d, authorization = Some h /\ Js.startsWith "Bearer " h = true /\
               verifyIdToken (Js.substring_from 7 h) = Ok d) /\
  (forall u,
     requireAuth context = Ok u ->
     exists h d,
       authorization = Some h /\ Js.startsWith "Bearer " h = true /\
       verifyIdToken (Js.substring_from 7 h) = Ok d /\
       u = {| uid := tok_uid d; email := tok_email d;
              phone_number := tok_phone_number d; custom_claims := Some d |} /\
       VerifyIdToken (Js.substring_from 7 h) ∈ fst (authMiddleware verifyIdToken authorization)) /\
  (forall token d,
     authorization = Some ("Bearer " ++ token)%string ->
     verifyIdToken token = Ok d ->
     requireAuth context
       = Ok {| uid := tok_uid d; email := tok_email d;
               phone_number := tok_phone_number d; custom_claims := Some d |}).
Proof.
  intros Hctx.
  assert (Hcases :
    (context = unauthenticated /\
     ~ exists h d, authorization = Some h /\ Js.startsWith "Bearer " h = true /\
                   verifyIdToken (Js.substring_from 7 h) = Ok d) \/
    (exists h d, authorization = Some h /\ Js.startsWith "Bearer " h = true /\
                 verifyIdToken (Js.substring_from 7 h) = Ok d /\
                 context = {| isAuthenticated := true;
                              user := Some {| uid := tok_uid d; email := tok_email d;
                                              phone_number := tok_phone_number d;
                                              custom_claims := Some d |} |} /\
                 VerifyIdToken (Js.substring_from 7 h)
                   ∈ fst (authMiddleware verifyIdToken authorization))).
  { destruct authorization as [h|].
    - destruct (Js.startsWith "Bearer " h) eqn:Hb.
      + destruct (verifyIdToken (Js.substring_from 7 h)) as [d|e] eqn:Hv.
        * right. exists h, d.
          unfold authMiddleware, call_verifyIdToken in Hctx |- *.
          rewrite Hb, (startsWith_truthy h Hb), Hv in Hctx |- *. cbn in Hctx |- *.
          injection Hctx as <-. split_and!; try reflexivity. left.
        * left. rewrite (authMiddleware_rejected _ h e Hb Hv) in Hctx.
          cbn in Hctx. injection Hctx as <-. split; [reflexivity|].
          intros (h' & d & Hh & _ & Hv'). injection Hh as <-. congruence.
      + left. rewrite (authMiddleware_no_bearer _ (Some h) Hb) in Hctx.
        cbn in Hctx. injection Hctx as <-. split; [reflexivity|].
        intros (h' & d & Hh & Hb' & _). injection Hh as <-. congruence.
    - left. cbn in Hctx. injection Hctx as <-. split; [reflexivity|].
      intros (h' & d & Hh & _). discriminate Hh. }
  destruct Hcases as [[-> Hno]|(h & d & Hh & Hb & Hv & -> & Hev)].
  - split_and!.
    + split; [discriminate|]. intros H. contradiction.
    + intros u Hu. discriminate Hu.
    + intros token d Hh Hv. exfalso. apply Hno. exists ("Bearer " ++ token)%string, d.
      split_and!; [exact Hh|reflexivity|exact Hv].
  - split_and!.
    + split; [|reflexivity]. intros _. exists h, d. split_and!; assumption.
    + intros u Hu. cbn in Hu. injection Hu as <-. exists h, d. split_and!; try assumption.
      reflexivity.
    + intros token d' Hh' Hv'. rewrite Hh in Hh'. injection Hh' as ->.
      change (Js.substring_from 7 ("Bearer " ++ token)%string) with token in Hv.
      rewrite Hv' in Hv. injection Hv as ->. reflexivity.
Qed.

Lemma authentication_only_through_provider_witness :
  requireAuth {| isAuthenticated := true;
                 user := Some {| uid := "rider-1"; email := Some "rider@example.com";
                                 phone_number := None;
                                 custom_claims :=
                                   Some {| tok_uid := "rider-1";
                                           tok_email := Some "rider@example.com";
                                           tok_phone_number := None |} |} |}
  = Ok {| uid := "rider-1"; email := Some "rider@example.com"; phone_number := None;
          custom_claims := Some {| tok_uid := "rider-1";
                                   tok_email := Some "rider@example.com";
                                   tok_phone_number := None |} |}.
Proof.
  apply (proj2 (proj2 (authentication_only_through_provider sample_provider
                         (Some "Bearer good-token") _ eq_refl))
           "good-token"
           {| tok_uid := "rider-1"; tok_email := Some "rider@example.com";
              tok_phone_number := None |});
    reflexivity.
Defined.

End AuthMore.

Section RoleFacts.
Import Auth ErrorHandler Roles.

Variable claim_truthy : DecodedIdToken -> string -> bool.

(** X6. [requireAdmin] lets through exactly the authenticated users whose
    token carries a truthy [admin] claim and returns the user unchanged;
    an unauthenticated context fails as with [requireAuth]; an
    authenticated user without the claim gets [Insufficient permissions],
    which the classifier reports as FORBIDDEN with status 403 in every
    environment. No role guard succeeds where [requireAuth] fails. *)
Theorem requireAdmin_needs_the_admin_claim (context : GraphQLContext) :
  (forall u,
     requireAdmin claim_truthy context = Ok u <->
     requireAuth context = Ok u /\
     exists t, custom_claims u = Some t /\ claim_truthy t "admin" = true) /\
  (forall e, requireAuth context = Throw e -> requireAdmin claim_truthy context = Throw e) /\
  (forall u,
     requireAuth context = Ok u ->
     (forall t, custom_claims u = Some t -> claim_truthy t "admin" = false) ->
     requireAdmin claim_truthy context
       = Throw "Insufficient permissions. Required role: admin" /\
     forall production,
       code (errorHandler production
               (thrown "Insufficient permissions. Required role: admin")) = "FORBIDDEN" /\
       statusCode (errorHandler production
                     (thrown "Insufficient permissions. Required role: admin")) = 403) /\
  (forall role u,
     requireRole claim_truthy context role = Ok u -> requireAuth context = Ok u).
Proof.
  unfold requireAdmin, requireRole. split_and!.
  - intros u. destruct (requireAuth context) as [v|e]; [|split; [discriminate|intros [H _]; discriminate H]].
    destruct (custom_claims v) as [t|] eqn:Hc.
    + destruct (claim_truthy t "admin") eqn:Ht; cbn.
      * split.
        -- intros H. injection H as <-. split; [reflexivity|]. exists t. split; assumption.
        -- intros [H _]. exact H.
      * split; [discriminate|]. intros [H (t' & Hc' & Ht')]. injection H as <-.
        rewrite Hc in Hc'. injection Hc' as <-. congruence.
    + split; [discriminate|]. intros [H (t' & Hc' & _)]. injection H as <-. congruence.
  - intros e ->. reflexivity.
  - intros u -> Hno. split; [|intros production; split; reflexivity].
    destruct (custom_claims u) as [t|]; [|reflexivity].
    rewrite (Hno t eq_refl). reflexivity.
  - intros role u. destruct (requireAuth context) as [v|e]; [|discriminate].
    destruct (match custom_claims v with
              | Some t => negb (claim_truthy t role)
              | None => true
              end); [discriminate|]. intros H. exact H.
Qed.

End RoleFacts.

Section RoleExamples.
Import Auth ErrorHandler Roles.

Lemma requireAdmin_needs_the_admin_claim_witness :
  requireAdmin admin_only rider_context
    = Throw "Insufficient permissions. Required role: admin".
Proof.
  destruct (requireAdmin_needs_the_admin_claim admin_only rider_context)
    as (_ & _ & H & _).
  apply (H {| uid := "rider-1"; email := Some "rider@example.com";
              phone_number := None;
              custom_claims := Some {| tok_uid := "rider-1";
                                       tok_email := Some "rider@example.com";
                                       tok_phone_number := None |} |}).
  - reflexivity.
  - intros t Ht. injection Ht as <-. reflexivity.
Defined.

End RoleExamples.

Section ClassifierFacts.
Import ErrorHandler.

Ltac classify error :=
  unfold errorHandler;
  repeat match goal with
         | |- context [if ?c then _ else _] => destruct c
         end.

(** X7. In production the classifier never passes an error's own text to
    the caller: the message of the reply is one of seven fixed texts. In
    any environment the original message is passed through only by the
    default branch outside production, with code INTERNAL_SERVER_ERROR and
    status 500. *)
Theorem errorHandler_redacts_in_production (error : ApolloGraphQLError) :
  message (errorHandler true error) ∈ canned_messages /\
  (forall production,
     message (errorHandler production error) ∈ canned_messages \/
     (production = false /\
      message (errorHandler production error) = err_message error /\
      code (errorHandler production error) = "INTERNAL_SERVER_ERROR" /\
      statusCode (errorHandler production error) = 500)).
Proof.
  split.
  - classify error; cbn; unfold canned_messages; set_solver.
  - intros production. unfold errorHandler.
    repeat match goal with
           | |- context [if Js.includes ?a ?b then _ else _] => destruct (Js.includes a b)
           | |- context [if ?a || ?b then _ else _] => destruct (a || b)
           end; cbn; try (left; unfold canned_messages; set_solver).
    destruct production; cbn; [left; unfold canned_messages; set_solver|].
    right. split_and!; reflexivity.
Qed.

(** X8. Every reply of the classifier carries one of the six code and
    status pairs of the taxonomy, and except for the default branch
    outside production its [extensions] repeat the code. *)
Theorem errorHandler_stays_in_taxonomy (production : bool) (error : ApolloGraphQLError) :
  (code (errorHandler production error), statusCode (errorHandler production error))
    ∈ taxonomy /\
  (extensions (errorHandler production error)
     = Some (code (errorHandler production error)) \/
   (production = false /\
    extensions (errorHandler production error) = err_extensions error /\
    message (errorHandler production error) = err_message error)).
Proof.
  unfold errorHandler.
  repeat match goal with
         | |- context [if Js.includes ?a ?b then _ else _] => destruct (Js.includes a b)
         | |- context [if ?a || ?b then _ else _] => destruct (a || b)
         end; cbn; try (split; [unfold taxonomy; set_solver|left; reflexivity]).
  destruct production; cbn.
  - split; [unfold taxonomy; set_solver|left; reflexivity].
  - split; [unfold taxonomy; set_solver|right; split_and!; reflexivity].
Qed.

End ClassifierFacts.

Section MutationFacts.
Import Store Database Auth ErrorHandler Resolvers.

Lemma filter_update_where_others {A} (P Q : A -> Prop)
    `{forall x, Decision (P x)} `{forall x, Decision (Q x)} (f : A -> A) (l : list A) :
  (forall x, P x -> ~ Q x /\ ~ Q (f x)) ->
  filter Q (update_where P f l) = filter Q l.
Proof.
  intros HP. unfold update_where. induction l as [|a l IH]; [reflexivity|].
  rewrite fmap_cons, !filter_cons, IH.
  destruct (decide (P a)) as [Hp|Hn]; [|reflexivity].
  destruct (HP a Hp) as [H1 H2].
  rewrite decide_False by exact H2. rewrite decide_False by exact H1. reflexivity.
Qed.

Lemma filter_filter_others {A} (P Q : A -> Prop)
    `{forall x, Decision (P x)} `{forall x, Decision (Q x)} (l : list A) :
  (forall x, P x -> ~ Q x) ->
  filter Q (filter (fun x => ~ P x) l) = filter Q l.
Proof.
  intros HP. induction l as [|a l IH]; [reflexivity|].
  rewrite !filter_cons. destruct (decide (~ P a)) as [Hn|Hp].
  - rewrite filter_cons, IH. reflexivity.
  - rewrite IH. destruct (decide (Q a)) as [Hq|_]; [|reflexivity].
    exfalso. destruct (decide (P a)) as [Hpa|Hna]; [exact (HP a Hpa Hq)|exact (Hp Hna)].
Qed.

Lemma update_where_twice {A} (P : A -> Prop) `{forall x, Decision (P x)}
    (f g : A -> A) (l : list A) :
  (forall x, P x -> P (f x)) ->
  (forall x, g (f x) = g x) ->
  update_where P g (update_where P f l) = update_where P g l.
Proof.
  intros Hf Hg. unfold update_where. rewrite <- list_fmap_compose.
  apply list_fmap_ext. intros i x _. cbn.
  destruct (decide (P x)) as [Hp|Hn].
  - rewrite decide_True by (apply Hf; exact Hp). apply Hg.
  - rewrite decide_False by exact Hn. reflexivity.
Qed.

Lemma filter_update_where {A} (P : A -> Prop) `{forall x, Decision (P x)}
    (f : A -> A) (l : list A) :
  (forall x, P (f x) <-> P x) ->
  filter P (update_where P f l) = f <$> filter P l.
Proof.
  intros Hf. unfold update_where. induction l as [|a l IH]; [reflexivity|].
  rewrite fmap_cons, !filter_cons, IH.
  destruct (decide (P a)) as [Hp|Hn].
  - rewrite decide_True by (apply Hf; exact Hp). reflexivity.
  - rewrite decide_False by exact Hn. reflexivity.
Qed.

Lemma trip_mutation_run lit st id context u w :
  requireAuth context = Ok u ->
  trip_status_in lit = Some st ->
  trip_mutation lit id context w =
    ({| db := set_trips (db w)
                (update_where (fun t => t_id t = id /\ t_driver_id t = uid u)
                   (with_trip_status st) (trips (db w)));
        issued := (issued w ++ [sending (UpdateTripStatus lit id (uid u))])%list |},
     match with_trip_status st
             <$> filter (fun t => t_id t = id /\ t_driver_id t = uid u) (trips (db w)) with
     | [] => Throw "Trip not found or unauthorized"
     | row :: _ => Ok row
     end).
Proof.
  intros Hu Hlit. unfold trip_mutation.
  rewrite (bind_ok _ _ w w u) by (unfold lift; rewrite Hu; reflexivity).
  unfold bind, query. cbn [exec]. rewrite Hlit. unfold updated_rows. cbn [rows returning].
  destruct (with_trip_status st <$> filter _ (trips (db w))); reflexivity.
Qed.

Lemma trip_mutations_are_instances op :
  op ∈ trip_mutations ->
  exists lit st, trip_status_in lit = Some st /\ op = trip_mutation lit.
Proof.
  unfold trip_mutations. intros H.
  apply elem_of_cons in H as [->|H]; [exists "cancelled", TripCancelled; split; reflexivity|].
  apply elem_of_cons in H as [->|H]; [exists "active", TripActive; split; reflexivity|].
  apply list_elem_of_singleton in H as ->. exists "completed", TripCompleted. split; reflexivity.
Qed.

End MutationFacts.

Section MutationTheorems.
Import Store Database Auth ErrorHandler Resolvers.

Lemma trip_mutation_others lit st id context u w :
  requireAuth context = Ok u ->
  trip_status_in lit = Some st ->
  filter (fun t => t_driver_id t <> uid u) (trips (db (fst (trip_mutation lit id context w))))
    = filter (fun t => t_driver_id t <> uid u) (trips (db w)) /\
  only_trips_differ (db w) (db (fst (trip_mutation lit id context w))).
Proof.
  intros Hu Hlit. rewrite (trip_mutation_run lit st id context u w Hu Hlit). cbn.
  split; [|unfold only_trips_differ; split_and!; reflexivity].
  apply filter_update_where_others. intros t [_ Ho]. cbn. split; intros Hq; exact (Hq Ho).
Qed.

(** X9. A conditional ownership mutation never touches a row of somebody
    else: after [cancelTrip], [startTrip] or [completeTrip] the trips of
    all other drivers are as before, after [deleteVehicle] the vehicles of
    all other drivers, after [cancelBooking] the bookings of all other
    riders; and each of them leaves every other table as it was. *)
Theorem mutations_leave_other_owners_rows
    (w : World) (id : string) (context : GraphQLContext) (u : FirebaseUser) :
  requireAuth context = Ok u ->
  (forall op, op ∈ trip_mutations ->
     filter (fun t => t_driver_id t <> uid u) (trips (db (fst (op id context w))))
       = filter (fun t => t_driver_id t <> uid u) (trips (db w)) /\
     only_trips_differ (db w) (db (fst (op id context w)))) /\
  (filter (fun v => v_driver_id v <> uid u) (vehicles (db (fst (deleteVehicle id context w))))
     = filter (fun v => v_driver_id v <> uid u) (vehicles (db w)) /\
   only_vehicles_differ (db w) (db (fst (deleteVehicle id context w)))) /\
  (filter (fun b => b_rider_id b <> uid u) (bookings (db (fst (cancelBooking id context w))))
     = filter (fun b => b_rider_id b <> uid u) (bookings (db w)) /\
   only_bookings_differ (db w) (db (fst (cancelBooking id context w)))).
Proof.
  intros Hu. split_and!.
  - intros op Hop. destruct (trip_mutations_are_instances op Hop) as (lit & st & Hlit & ->).
    apply (trip_mutation_others lit st id context u w Hu Hlit).
  - unfold deleteVehicle.
    rewrite (bind_ok _ _ w w u) by (unfold lift; rewrite Hu; reflexivity).
    unfold bind, query. cbn [exec].
    destruct (decide (Exists _ (driver_profiles (db w)))); cbn; [reflexivity|].
    apply filter_filter_others. intros v [_ Ho] Hq. exact (Hq Ho).
  - unfold only_vehicles_differ, deleteVehicle.
    rewrite (bind_ok _ _ w w u) by (unfold lift; rewrite Hu; reflexivity).
    unfold bind, query. cbn [exec].
    destruct (decide (Exists _ (driver_profiles (db w)))); cbn; split_and!; reflexivity.
  - unfold cancelBooking.
    rewrite (bind_ok _ _ w w u) by (unfold lift; rewrite Hu; reflexivity).
    unfold bind, query. cbn [exec booking_status_in]. cbn.
    destruct (updated_rows _ _ _); cbn;
      apply filter_update_where_others; intros x [_ Ho]; cbn; split; intros Hq; exact (Hq Ho).
  - unfold only_bookings_differ, cancelBooking.
    rewrite (bind_ok _ _ w w u) by (unfold lift; rewrite Hu; reflexivity).
    unfold bind, query. cbn.
    destruct (updated_rows _ _ _); cbn; split_and!; reflexivity.
Qed.

Lemma mutations_leave_other_owners_rows_witness :
  filter (fun t => t_driver_id t <> "rider-1")
    (trips (db (fst (completeTrip "trip-1" (caller "rider-1") sample_world))))
  = filter (fun t => t_driver_id t <> "rider-1") (trips sample_db).
Proof.
  destruct (mutations_leave_other_owners_rows sample_world "trip-1" (caller "rider-1")
              {| uid := "rider-1"; email := None; phone_number := None;
                 custom_claims := None |}) as (H & _); [reflexivity|].
  apply (H completeTrip). unfold trip_mutations. right; right; left.
Defined.

(** X10. The trip mutations have no guard on the current status and the
    last one wins: for the same caller and id, running any of them after
    any other gives the same result and the same store as running it
    alone. So a cancelled trip can still be started or completed by its
    driver. *)
Theorem trip_status_last_writer_wins
    (w : World) (id : string) (context : GraphQLContext) (u : FirebaseUser) :
  requireAuth context = Ok u ->
  forall op1 op2, op1 ∈ trip_mutations -> op2 ∈ trip_mutations ->
    snd (op2 id context (fst (op1 id context w))) = snd (op2 id context w) /\
    db (fst (op2 id context (fst (op1 id context w)))) = db (fst (op2 id context w)).
Proof.
  intros Hu op1 op2 H1 H2.
  destruct (trip_mutations_are_instances op1 H1) as (l1 & s1 & L1 & ->).
  destruct (trip_mutations_are_instances op2 H2) as (l2 & s2 & L2 & ->).
  rewrite (trip_mutation_run l1 s1 id context u w Hu L1). cbn [fst].
  rewrite !(trip_mutation_run l2 s2 id context u _ Hu L2). cbn [fst snd db].
  destruct (db w) as [ts vs bs ps rs dps]. cbn [trips set_trips].
  rewrite filter_update_where by (intros t; reflexivity).
  rewrite <- list_fmap_compose.
  rewrite update_where_twice by (intros; reflexivity || assumption).
  split; reflexivity.
Qed.

Lemma trip_status_last_writer_wins_witness :
  snd (completeTrip "trip-1" (caller "driver-1")
         (fst (cancelTrip "trip-1" (caller "driver-1") sample_world)))
  = snd (completeTrip "trip-1" (caller "driver-1") sample_world).
Proof.
  apply (trip_status_last_writer_wins sample_world "trip-1" (caller "driver-1")
           {| uid := "driver-1"; email := None; phone_number := None;
              custom_claims := None |} eq_refl cancelTrip completeTrip);
    unfold trip_mutations; [left|right; right; left].
Defined.

End MutationTheorems.

Section RefundAndDelete.
Import Store Database Auth ErrorHandler Resolvers.

(** X11. [processRefund] has no condition on the caller and none on the
    current status: for every authenticated caller the outcome is the
    same; it fails, with [Payment not found] and the store unchanged, only
    when no payment has the id; otherwise it returns the payment with
    status refunded, whatever the status was, that row is in the payments
    table afterwards, and every booking it refers to has payment status
    refunded as well. *)
Theorem processRefund_refunds_for_any_caller
    (w : World) (paymentId : string) (context : GraphQLContext) (u : FirebaseUser) :
  requireAuth context = Ok u ->
  (forall context' u',
     requireAuth context' = Ok u' ->
     processRefund paymentId context' w = processRefund paymentId context w) /\
  (absent (payments (db w)) p_id paymentId ->
   snd (processRefund paymentId context w) = Throw "Payment not found" /\
   db (fst (processRefund paymentId context w)) = db w) /\
  ((exists p, p ∈ payments (db w) /\ p_id p = paymentId) ->
   exists row,
     snd (processRefund paymentId context w) = Ok row /\
     p_id row = paymentId /\
     p_payment_status row = PaymentRefunded /\
     row ∈ payments (db (fst (processRefund paymentId context w))) /\
     forall b, b ∈ bookings (db (fst (processRefund paymentId context w))) ->
               b_id b = p_booking_id row -> b_payment_status b = PaymentRefunded).
Proof.
  intros Hu. split_and!.
  - intros c v Hc. rewrite (processRefund_run paymentId c v w Hc),
      (processRefund_run paymentId context u w Hu). reflexivity.
  - intros Habs. rewrite (processRefund_run paymentId context u w Hu).
    rewrite (filter_none (fun p => p_id p = paymentId)); [split; reflexivity|].
    intros p Hp Hid. exact (Habs p Hp Hid).
  - intros (p & Hp & Hid).
    destruct (filter (fun p => p_id p = paymentId) (payments (db w))) as [|p0 rest] eqn:Hf.
    { exfalso. eapply filter_nil_not_elem_of; [exact Hf| |exact Hp]. exact Hid. }
    assert (H0 : p0 ∈ filter (fun p => p_id p = paymentId) (payments (db w)))
      by (rewrite Hf; left).
    apply list_elem_of_filter in H0 as [Hid0 Hin0].
    pose proof (processRefund_mirrors paymentId context w (with_payment_status PaymentRefunded p0))
      as Hm.
    rewrite (processRefund_run paymentId context u w Hu), Hf in Hm |- *.
    destruct (Hm eq_refl) as (M1 & M2 & M3).
    exists (with_payment_status PaymentRefunded p0).
    split_and!; [reflexivity|exact Hid0|reflexivity|exact M2|exact M3].
Qed.

Lemma processRefund_refunds_for_any_caller_witness :
  exists row,
    snd (processRefund "payment-1" (caller "stranger-9") sample_world) = Ok row /\
    p_id row = "payment-1" /\ p_payment_status row = PaymentRefunded.
Proof.
  destruct (processRefund_refunds_for_any_caller sample_world "payment-1"
              (caller "stranger-9")
              {| uid := "stranger-9"; email := None; phone_number := None;
                 custom_claims := None |} eq_refl) as (_ & _ & H).
  destruct H as (row & H1 & H2 & H3 & _).
  - eexists. split; [left|reflexivity].
  - exists row. split_and!; assumption.
Defined.

(** X12. What [deleteVehicle] does to the store for an authenticated
    caller. When it returns, the vehicles table has lost exactly the rows
    with the given id that belong to the caller, a second call changes
    nothing more, and the value returned carries no information (it is
    false). When it throws, a driver profile refers to such a vehicle and
    the store is unchanged. *)
Theorem deleteVehicle_removes_the_callers_vehicle
    (w : World) (id : string) (context : GraphQLContext) (u : FirebaseUser) :
  requireAuth context = Ok u ->
  (forall b,
     snd (deleteVehicle id context w) = Ok b ->
     b = false /\
     vehicles (db (fst (deleteVehicle id context w)))
       = filter (fun v => ~ (v_id v = id /\ v_driver_id v = uid u)) (vehicles (db w)) /\
     (forall v, v ∈ vehicles (db (fst (deleteVehicle id context w))) <->
                v ∈ vehicles (db w) /\ ~ (v_id v = id /\ v_driver_id v = uid u)) /\
     db (fst (deleteVehicle id context (fst (deleteVehicle id context w))))
       = db (fst (deleteVehicle id context w))) /\
  (forall e,
     snd (deleteVehicle id context w) = Throw e ->
     db (fst (deleteVehicle id context w)) = db w /\
     exists p v, p ∈ driver_profiles (db w) /\ v ∈ vehicles (db w) /\
                 v_id v = id /\ v_driver_id v = uid u /\ dp_vehicle_id p = Some id).
Proof.
  intros Hu.
  assert (Hrun : forall w0,
    deleteVehicle id context w0 =
      if decide (Exists (fun p =>
                   Exists (fun v => dp_vehicle_id p = Some (v_id v))
                     (filter (fun v => v_id v = id /\ v_driver_id v = uid u)
                        (vehicles (db w0))))
                   (driver_profiles (db w0)))
      then ({| db := db w0;
               issued := (issued w0 ++ [sending (DeleteVehicle id (uid u))])%list |},
            Throw "update or delete on table vehicles violates foreign key constraint fk_driver_profiles_vehicle_id")
      else ({| db := set_vehicles (db w0)
                       (filter (fun v => ~ (v_id v = id /\ v_driver_id v = uid u))
                          (vehicles (db w0)));
               issued := (issued w0 ++ [sending (DeleteVehicle id (uid u))])%list |},
            Ok false)).
  { intros w0. unfold deleteVehicle.
    rewrite (bind_ok _ _ w0 w0 u) by (unfold lift; rewrite Hu; reflexivity).
    unfold bind, query. cbn [exec].
    destruct (decide (Exists _ (driver_profiles (db w0)))); reflexivity. }
  split.
  - intros b Hb. pose proof (Hrun w) as R.
    destruct (decide (Exists _ (driver_profiles (db w)))) as [He|Hn];
      [rewrite R in Hb; discriminate Hb|].
    rewrite R in Hb. cbn in Hb. injection Hb as <-.
    split_and!.
    + reflexivity.
    + rewrite R. reflexivity.
    + intros v. rewrite R. cbn. rewrite list_elem_of_filter. tauto.
    + rewrite R. rewrite Hrun. cbn [fst db vehicles set_vehicles driver_profiles].
      assert (Hgone : filter (fun v => v_id v = id /\ v_driver_id v = uid u)
                        (filter (fun v => ~ (v_id v = id /\ v_driver_id v = uid u))
                           (vehicles (db w))) = []).
      { apply filter_none. intros v Hv HP. apply list_elem_of_filter in Hv as [Hv _].
        exact (Hv HP). }
      rewrite Hgone.
      destruct (decide (Exists _ (driver_profiles (db w)))) as [He|_].
      * exfalso. apply Exists_exists in He as (p & _ & Hp).
        apply Exists_exists in Hp as (v & Hv & _). inversion Hv.
      * cbn. f_equal.
        apply filter_all. intros v Hv. apply list_elem_of_filter in Hv as [Hv _]. exact Hv.
  - intros e He. rewrite (Hrun w) in He |- *.
    destruct (decide (Exists _ (driver_profiles (db w)))) as [Hex|Hn]; [|discriminate He].
    cbn. split; [reflexivity|].
    apply Exists_exists in Hex as (p & Hp & Hv).
    apply Exists_exists in Hv as (v & Hv & Href).
    apply list_elem_of_filter in Hv as [[Hid Ho] Hin].
    exists p, v. rewrite Hid in Href. split_and!; assumption.
Qed.

Lemma deleteVehicle_removes_the_callers_vehicle_witness :
  vehicles (db (fst (deleteVehicle "vehicle-1" (caller "driver-1") sample_world)))
  = filter (fun v => ~ (v_id v = "vehicle-1" /\ v_driver_id v = "driver-1"))
      (vehicles sample_db).
Proof.
  destruct (deleteVehicle_removes_the_callers_vehicle sample_world "vehicle-1"
              (caller "driver-1")
              {| uid := "driver-1"; email := None; phone_number := None;
                 custom_claims := None |} eq_refl) as [H _].
  apply (H false). reflexivity.
Defined.

End RefundAndDelete.

Section ReviewEffectFacts.
Import Store Database Auth ErrorHandler Resolvers.


(** The whole of [createReview] for an authenticated caller, stage by
    stage. *)
Lemma createReview_stages uuid bookingId rating comment context u w :
  requireAuth context = Ok u ->
  createReview uuid bookingId rating comment context w =
    if (rating <? 1) || (rating >? 5) then (w, Throw "Rating must be between 1 and 5")
    else
      let w1 := {| db := db w;
                   issued := (issued w ++ [sending (SelectBookingParty bookingId (uid u))])%list |} in
      match party_rows (db w) bookingId (uid u) with
      | [] => (w1, Throw "Booking not found or unauthorized")
      | booking :: _ =>
          let w2 := {| db := db w;
                       issued := (issued w1 ++ [sending (SelectReviewId bookingId (uid u))])%list |} in
          match own_review_ids (db w) bookingId (uid u) with
          | _ :: _ => (w2, Throw "Review already exists for this booking")
          | [] =>
              let reviewee := reviewee_of booking (uid u) in
              let row := review_row uuid bookingId (uid u) reviewee rating (or_null comment) in
              let ins := sending (InsertReview uuid bookingId (uid u) reviewee rating
                                    (or_null comment)) in
              if decide (uuid ∈ r_id <$> reviews (db w))
              then ({| db := db w; issued := (issued w2 ++ [ins])%list |},
                    Throw "duplicate key value violates unique constraint reviews_pkey")
              else
                let d3 := set_reviews (db w) (reviews (db w) ++ [row])%list in
                let w3 := {| db := d3; issued := (issued w2 ++ [ins])%list |} in
                if decide (b_rider_id (bd_booking booking) = uid u)
                then
                  match exec (UpdateAverageRating reviewee) d3 with
                  | Ok (d4, _) =>
                      ({| db := d4;
                          issued := (issued w3 ++ [sending (UpdateAverageRating reviewee)])%list |},
                       Ok row)
                  | Throw e =>
                      ({| db := d3;
                          issued := (issued w3 ++ [sending (UpdateAverageRating reviewee)])%list |},
                       Throw e)
                  end
                else (w3, Ok row)
          end
      end.
Proof.
  intros Hu. unfold createReview.
  rewrite (bind_ok _ _ w w u) by (unfold lift; rewrite Hu; reflexivity).
  destruct ((rating <? 1) || (rating >? 5)) eqn:Hr; [reflexivity|].
  assert (Hrange : 1 <= rating <= 5).
  { apply orb_false_iff in Hr as [H1 H2]. rewrite Z.gtb_ltb in H2.
    apply Z.ltb_ge in H1. apply Z.ltb_ge in H2. lia. }
  rewrite (bind_ok _ _ _ _ _ (query_SelectBookingParty bookingId (uid u) w)).
  destruct (party_rows (db w) bookingId (uid u)) as [|booking rest]; [reflexivity|].
  rewrite (bind_ok _ _ _ _ _ (query_SelectReviewId bookingId (uid u) _)). cbn [db issued].
  destruct (own_review_ids (db w) bookingId (uid u)) as [|i ids]; [|reflexivity].
  fold (reviewee_of booking (uid u)).
  pose proof (query_InsertReview uuid bookingId (uid u) (reviewee_of booking (uid u)) rating
                (or_null comment)
                {| db := db w;
                   issued := ((issued w ++ [sending (SelectBookingParty bookingId (uid u))])
                                ++ [sending (SelectReviewId bookingId (uid u))])%list |})
    as Hins.
  cbn [db issued] in Hins.
  destruct (decide (uuid ∈ r_id <$> reviews (db w))) as [Hdup|Hfresh].
  { rewrite (bind_throw _ _ _ _ _ Hins). reflexivity. }
  destruct (decide (1 <= rating <= 5)) as [_|Hno]; [|contradiction].
  rewrite (bind_ok _ _ _ _ _ Hins). cbv zeta.
  destruct (decide (b_rider_id (bd_booking booking) = uid u)) as [Hrider|Hdriver].
  - unfold bind, query. cbn [db issued].
    destruct (exec (UpdateAverageRating (reviewee_of booking (uid u))) _) as [[d4 res]|e];
      reflexivity.
  - reflexivity.
Qed.

End ReviewEffectFacts.

Section ReviewEffectTheorems.
Import Store Database Auth ErrorHandler Resolvers.

Lemma createReview_unauthenticated uuid bookingId rating comment context e w :
  requireAuth context = Throw e ->
  createReview uuid bookingId rating comment context w = (w, Throw e).
Proof.
  intros Hu. unfold createReview.
  apply (bind_throw _ _ w w e). unfold lift. rewrite Hu. reflexivity.
Qed.

(** X13. A review that [createReview] stores is written by the caller
    about the other party of the booking: the caller is the rider and the
    reviewee is the driver of the booking's trip, or the caller is that
    driver (and not the rider) and the reviewee is the rider; in the
    second case no driver profile changes. Exactly one row is appended to
    the reviews, with the given id, booking and rating, and trips,
    bookings, vehicles and payments are left as they were. *)
Theorem createReview_reviews_the_other_party
    (w : World) (uuid bookingId : string) (rating : Z) (comment : option string)
    (context : GraphQLContext) (row : Review) :
  snd (createReview uuid bookingId rating comment context w) = Ok row ->
  exists u b t,
    requireAuth context = Ok u /\
    b ∈ bookings (db w) /\ t ∈ trips (db w) /\
    b_trip_id b = t_id t /\ b_id b = bookingId /\
    row = review_row uuid bookingId (uid u) (r_reviewee_id row) rating (or_null comment) /\
    ((b_rider_id b = uid u /\ r_reviewee_id row = t_driver_id t) \/
     (b_rider_id b <> uid u /\ t_driver_id t = uid u /\ r_reviewee_id row = b_rider_id b /\
      driver_profiles (db (fst (createReview uuid bookingId rating comment context w)))
        = driver_profiles (db w))) /\
    reviews (db (fst (createReview uuid bookingId rating comment context w)))
      = (reviews (db w) ++ [row])%list /\
    trips (db (fst (createReview uuid bookingId rating comment context w))) = trips (db w) /\
    bookings (db (fst (createReview uuid bookingId rating comment context w)))
      = bookings (db w) /\
    vehicles (db (fst (createReview uuid bookingId rating comment context w)))
      = vehicles (db w) /\
    payments (db (fst (createReview uuid bookingId rating comment context w)))
      = payments (db w).
Proof.
  destruct (requireAuth context) as [u|e] eqn:Hu;
    [|rewrite (createReview_unauthenticated _ _ _ _ _ e w Hu); discriminate].
  rewrite (createReview_stages uuid bookingId rating comment context u w Hu).
  destruct ((rating <? 1) || (rating >? 5)); [discriminate|]. cbv zeta.
  destruct (party_rows (db w) bookingId (uid u)) as [|booking rest] eqn:Hp; [discriminate|].
  destruct (own_review_ids (db w) bookingId (uid u)) as [|i ids]; [|discriminate].
  destruct (decide (uuid ∈ r_id <$> reviews (db w))) as [Hdup|Hfresh]; [discriminate|].
  assert (Hb : booking ∈ party_rows (db w) bookingId (uid u)) by (rewrite Hp; left).
  apply party_rows_elem in Hb as (b & t & Hbin & Htin & (J1 & J2 & J3) & ->).
  unfold reviewee_of. cbn [bd_booking bd_driver_id].
  destruct (decide (b_rider_id b = uid u)) as [Hrider|Hdriver].
  - destruct (exec (UpdateAverageRating (t_driver_id t)) _) as [[d4 res]|e] eqn:Hx;
      [|discriminate].
    cbn [fst snd db]. intros H. injection H as <-.
    apply exec_UpdateAverageRating_ok in Hx as (T & B & Rv & V & P & _).
    cbn in T, B, Rv, V, P.
    exists u, b, t. split_and!; try assumption; try reflexivity.
    left. split; [exact Hrider|reflexivity].
  - cbn [fst snd db]. intros H. injection H as <-.
    exists u, b, t. split_and!; try assumption; try reflexivity.
    right. destruct J3 as [J3|J3]; [contradiction|].
    split_and!; [exact Hdriver|exact J3|reflexivity|reflexivity].
Qed.

Lemma createReview_reviews_the_other_party_witness :
  exists u b t,
    requireAuth (caller "driver-1") = Ok u /\
    b ∈ bookings sample_db /\ t ∈ trips sample_db /\
    b_trip_id b = t_id t /\ b_id b = "booking-1".
Proof.
  destruct (createReview_reviews_the_other_party sample_world "review-9" "booking-1" 4 None
              (caller "driver-1")
              (review_row "review-9" "booking-1" "driver-1" "rider-1" 4 None) eq_refl)
    as (u & b & t & H1 & H2 & H3 & H4 & H5 & _).
  exists u, b, t. split_and!; assumption.
Defined.



End ReviewEffectTheorems.

Section ConnectionFacts.
Import Connection.

Variable pool : Type.
Variable postgres : target -> result pool.
Variable test_query : pool -> result unit.

(** X15. [getDatabase] fails with its descriptive error exactly while no
    pool was ever assigned. After [connectDatabase] returns a pool,
    [getDatabase] returns that pool, built from the connection string when
    one is set and from the individual parameters otherwise. But the pool
    is assigned before it is tested: when the test query fails,
    [connectDatabase] rethrows the error and [getDatabase] nevertheless
    returns the untested pool from then on; only when the driver's
    constructor itself throws is the previous state kept. *)
Theorem getDatabase_after_connectDatabase (env : Env) (sql : module_state pool) :
  getDatabase pool None = Throw "Database not initialized. Call connectDatabase() first." /\
  (forall p,
     snd (connectDatabase pool postgres test_query env sql) = Ok p ->
     postgres (chosen_target env) = Ok p /\
     getDatabase pool (fst (fst (connectDatabase pool postgres test_query env sql))) = Ok p) /\
  (forall p e,
     postgres (chosen_target env) = Ok p -> test_query p = Throw e ->
     snd (connectDatabase pool postgres test_query env sql) = Throw e /\
     getDatabase pool (fst (fst (connectDatabase pool postgres test_query env sql))) = Ok p) /\
  (forall e,
     postgres (chosen_target env) = Throw e ->
     snd (connectDatabase pool postgres test_query env sql) = Throw e /\
     fst (fst (connectDatabase pool postgres test_query env sql)) = sql) /\
  (forall url, DATABASE_URL env = Some url -> Js.truthy url = true ->
               chosen_target env = ByConnectionString url).
Proof.
  unfold connectDatabase. split_and!.
  - reflexivity.
  - intros p. destruct (postgres (chosen_target env)) as [q|e]; [|discriminate].
    destruct (test_query q) as [[]|e]; [|discriminate].
    cbn. intros H. injection H as <-. split; reflexivity.
  - intros p e -> ->. split; reflexivity.
  - intros e ->. split; reflexivity.
  - intros url Hu Ht. unfold chosen_target. rewrite Hu, Ht. reflexivity.
Qed.

End ConnectionFacts.

Section ConnectionExample.
Import Connection.

Lemma getDatabase_after_connectDatabase_witness :
  snd (connectDatabase target (fun t => Ok t) unreachable_test sample_env None)
    = Throw "connect ECONNREFUSED" /\
  getDatabase target
    (fst (fst (connectDatabase target (fun t => Ok t) unreachable_test sample_env None)))
    = Ok (ByConnectionString "postgresql://app@db.internal:5432/yenko").
Proof.
  apply (proj1 (proj2 (proj2 (getDatabase_after_connectDatabase target (fun t => Ok t)
                                unreachable_test sample_env None)))
           (ByConnectionString "postgresql://app@db.internal:5432/yenko")
           "connect ECONNREFUSED");
    reflexivity.
Defined.

End ConnectionExample.

Section NotificationFacts.
Import Auth Store Notifications.

Lemma newest_first_total : Total newest_first.
Proof.
  intros a b. unfold newest_first.
  destruct (n_created_at a), (n_created_at b); auto. lia.
Qed.

Lemma update_where_idem {A} (P : A -> Prop) `{forall x, Decision (P x)}
    (f : A -> A) (l : list A) :
  (forall x, P x -> ~ P (f x)) ->
  update_where P f (update_where P f l) = update_where P f l.
Proof.
  intros Hf. unfold update_where. rewrite <- list_fmap_compose.
  apply list_fmap_ext. intros _ x _. simpl.
  destruct (decide (P x)) as [Hp|Hn].
  - rewrite decide_False by (apply Hf; exact Hp). reflexivity.
  - rewrite decide_False by exact Hn. reflexivity.
Qed.

Lemma update_where_keeps {A B} `{EqDecision B} (P : A -> Prop) `{forall x, Decision (P x)}
    (f : A -> A) (key : A -> B) (l : list A) :
  (forall x, key (f x) = key x) ->
  key <$> update_where P f l = key <$> l.
Proof.
  intros Hk. unfold update_where. rewrite <- list_fmap_compose.
  apply list_fmap_ext. intros _ x _. simpl.
  destruct (decide (P x)); [apply Hk|reflexivity].
Qed.

Lemma filter_update_where_disjoint {A} (P Q : A -> Prop)
    `{forall x, Decision (P x)} `{forall x, Decision (Q x)} (f : A -> A) (l : list A) :
  (forall x, P x -> ~ Q x) -> (forall x, P x -> ~ Q (f x)) ->
  filter Q (update_where P f l) = filter Q l.
Proof.
  intros H1 H2. unfold update_where. induction l as [|a l IH]; [reflexivity|].
  rewrite fmap_cons, !filter_cons, IH.
  destruct (decide (P a)) as [Hp|Hn]; [|reflexivity].
  rewrite decide_False by (apply H2; exact Hp).
  rewrite decide_False by (apply H1; exact Hp). reflexivity.
Qed.

(** X16. What [myNotifications] returns to an authenticated caller is
    exactly the caller's own rows (with [unreadOnly] true, exactly those
    whose [is_read] is false, so neither read rows nor rows with a NULL
    flag), each as often as the table has it, newest first; the table is
    not written. *)
Theorem myNotifications_returns_exactly_own_rows
    (unreadOnly : option bool) (context : GraphQLContext) (u : FirebaseUser)
    (t : list Notification) :
  requireAuth context = Ok u ->
  exists l,
    myNotifications unreadOnly context t = (t, Ok l) /\
    Sorted newest_first l /\
    l ≡ₚ filter (fun n => n_user_id n = uid u /\
                          (unreadOnly = Some true -> n_is_read n = Some false)) t /\
    (forall n, n ∈ l -> n_user_id n = uid u).
Proof.
  intros Hu. unfold myNotifications. rewrite Hu.
  assert (Hsel :
    forall (P : Notification -> Prop) `{forall x, Decision (P x)},
      (forall n, P n <-> n_user_id n = uid u /\
                         (unreadOnly = Some true -> n_is_read n = Some false)) ->
      Sorted newest_first (order_by_created_at_desc (filter P t)) /\
      order_by_created_at_desc (filter P t) ≡ₚ
        filter (fun n => n_user_id n = uid u /\
                         (unreadOnly = Some true -> n_is_read n = Some false)) t /\
      (forall n, n ∈ order_by_created_at_desc (filter P t) -> n_user_id n = uid u)).
  { intros P HP Heq. unfold order_by_created_at_desc. split_and!.
    - apply (Sorted_merge_sort newest_first (Total0 := newest_first_total)).
    - rewrite merge_sort_Permutation.
      erewrite list_filter_iff; [reflexivity|]. exact Heq.
    - intros n Hn. rewrite merge_sort_Permutation in Hn.
      apply list_elem_of_filter in Hn as [Hn _]. apply Heq in Hn. tauto. }
  destruct unreadOnly as [[|]|]; eexists; (split; [reflexivity|]); apply Hsel.
  - intros n. split; [intros [H1 H2]; auto|intros [H1 H2]; auto].
  - intros n. split; [intros H1; split; [exact H1|discriminate]|tauto].
  - intros n. split; [intros H1; split; [exact H1|discriminate]|tauto].
Qed.

Lemma myNotifications_returns_exactly_own_rows_witness :
  exists l,
    myNotifications (Some true) (caller "ama") sample_notifications
      = (sample_notifications, Ok l) /\
    Sorted newest_first l /\
    l ≡ₚ filter (fun n => n_user_id n = "ama" /\
                          (Some true = Some true -> n_is_read n = Some false))
           sample_notifications /\
    (forall n, n ∈ l -> n_user_id n = "ama").
Proof.
  apply (myNotifications_returns_exactly_own_rows (Some true) (caller "ama")
           {| uid := "ama"; email := None; phone_number := None; custom_claims := None |}).
  reflexivity.
Defined.

(** X17. [markAllNotificationsAsRead] by an authenticated caller answers
    true and leaves none of the caller's notifications unread: the
    caller's unread list is empty afterwards. It rewrites nothing else:
    ids, owners and dates stay in place, rows of other users are as they
    were, and a row whose flag is NULL is not an unread row and keeps its
    NULL. Marking again changes nothing. *)
Theorem markAllNotificationsAsRead_clears_the_callers_unread
    (context : GraphQLContext) (u : FirebaseUser) (t : list Notification) :
  requireAuth context = Ok u ->
  exists t',
    markAllNotificationsAsRead context t = (t', Ok true) /\
    myNotifications (Some true) context t' = (t', Ok []) /\
    n_id <$> t' = n_id <$> t /\
    n_user_id <$> t' = n_user_id <$> t /\
    n_created_at <$> t' = n_created_at <$> t /\
    filter (fun n => n_user_id n <> uid u) t' = filter (fun n => n_user_id n <> uid u) t /\
    filter (fun n => n_is_read n = None) t' = filter (fun n => n_is_read n = None) t /\
    markAllNotificationsAsRead context t' = (t', Ok true).
Proof.
  intros Hu. unfold markAllNotificationsAsRead, myNotifications. rewrite Hu.
  eexists. split; [reflexivity|].
  split_and!.
  - f_equal. f_equal. unfold order_by_created_at_desc.
    rewrite filter_none; [reflexivity|].
    intros n Hn [Hown Hunread].
    apply elem_of_update_where in Hn as (x & _ & [[[_ Hx] ->]|[Hx ->]]).
    + discriminate.
    + apply Hx. split; assumption.
  - apply update_where_keeps. reflexivity.
  - apply update_where_keeps. reflexivity.
  - apply update_where_keeps. reflexivity.
  - apply filter_update_where_disjoint.
    + intros x [Hx _] Hne. exact (Hne Hx).
    + intros x [Hx _] Hne. exact (Hne Hx).
  - apply filter_update_where_disjoint.
    + intros x [_ Hx] Hnone. rewrite Hx in Hnone. discriminate.
    + intros x _ Hnone. discriminate.
  - f_equal. apply update_where_idem. intros x _ [_ Hx]. discriminate.
Qed.

Lemma markAllNotificationsAsRead_clears_the_callers_unread_witness :
  exists t',
    markAllNotificationsAsRead (caller "ama") sample_notifications = (t', Ok true) /\
    myNotifications (Some true) (caller "ama") t' = (t', Ok []) /\
    n_id <$> t' = n_id <$> sample_notifications /\
    n_user_id <$> t' = n_user_id <$> sample_notifications /\
    n_created_at <$> t' = n_created_at <$> sample_notifications /\
    filter (fun n => n_user_id n <> "ama") t'
      = filter (fun n => n_user_id n <> "ama") sample_notifications /\
    filter (fun n => n_is_read n = None) t'
      = filter (fun n => n_is_read n = None) sample_notifications /\
    markAllNotificationsAsRead (caller "ama") t' = (t', Ok true).
Proof.
  apply (markAllNotificationsAsRead_clears_the_callers_unread (caller "ama")
           {| uid := "ama"; email := None; phone_number := None; custom_claims := None |}).
  reflexivity.
Defined.

(** X18. [markNotificationAsRead] touches a notification only for its
    owner. When the table has no row with this id that belongs to the
    caller (the id is unknown, or the row is someone else's), the call
    fails with the one message for both cases and the table is unchanged.
    When it succeeds, the returned row has this id, belongs to the caller
    and is read, it is in the table afterwards, and the rows with another
    id or another owner are as they were. Without authentication nothing
    is written either. *)
Theorem markNotificationAsRead_only_for_the_owner
    (id : string) (context : GraphQLContext) (t : list Notification) :
  (forall e, requireAuth context = Throw e ->
     markNotificationAsRead id context t = (t, Throw e)) /\
  (forall u, requireAuth context = Ok u ->
     filter (fun n => n_id n = id /\ n_user_id n = uid u) t = [] ->
     markNotificationAsRead id context t
       = (t, Throw "Notification not found or unauthorized")) /\
  (forall u row t', requireAuth context = Ok u ->
     markNotificationAsRead id context t = (t', Ok row) ->
     n_id row = id /\ n_user_id row = uid u /\ n_is_read row = Some true /\
     row ∈ t' /\
     filter (fun n => ~ (n_id n = id /\ n_user_id n = uid u)) t'
       = filter (fun n => ~ (n_id n = id /\ n_user_id n = uid u)) t).
Proof.
  unfold markNotificationAsRead. split_and!.
  - intros e ->. reflexivity.
  - intros u -> Hnone. unfold updated_rows. rewrite Hnone. simpl.
    rewrite update_where_untouched by exact Hnone. reflexivity.
  - intros u row t' -> Hrun.
    destruct (updated_rows _ _ t) as [|r rest] eqn:Hrows; [discriminate|].
    injection Hrun as <- <-.
    assert (Hin : r ∈ updated_rows (fun n => n_id n = id /\ n_user_id n = uid u)
                         (with_is_read true) t) by (rewrite Hrows; left).
    unfold updated_rows in Hin.
    apply list_elem_of_fmap in Hin as (x & -> & Hx).
    apply list_elem_of_filter in Hx as [[Hid Hown] Hx].
    split_and!; try assumption; try reflexivity.
    + unfold update_where. apply list_elem_of_fmap. exists x. split; [|exact Hx].
      rewrite decide_True by (split; assumption). reflexivity.
    + apply filter_update_where_disjoint.
      * intros y Hy Hn. exact (Hn Hy).
      * intros y Hy Hn. exact (Hn Hy).
Qed.

Lemma markNotificationAsRead_only_for_the_owner_witness :
  markNotificationAsRead "n2" (caller "ama") sample_notifications
    = (sample_notifications, Throw "Notification not found or unauthorized").
Proof.
  apply (proj1 (proj2 (markNotificationAsRead_only_for_the_owner "n2" (caller "ama")
                         sample_notifications))
           {| uid := "ama"; email := None; phone_number := None; custom_claims := None |});
    reflexivity.
Defined.

End NotificationFacts.

Section ServerFacts.
Import Auth ErrorHandler Database Resolvers Server RateLimiter.

Variable verifyIdToken : string -> result DecodedIdToken.
Variable production : bool.

(** X19. A request over the limit stops at the rate limiter. When the
    client's entry is still running and already holds the maximum, the
    answer is the 429 of the limiter whatever the operation and whatever
    the credentials: the identity provider is not called, the resolver
    does not run, the store is untouched. The request is counted all the
    same. *)
Theorem limited_requests_reach_no_resolver {A} (resolver : GraphQLContext -> M A)
    (l : limiter) (i : Incoming) (now now' : Z) (w : World) (e : entry) :
  store l !! getKey (request i) = Some e ->
  now <= resetTime e ->
  maxRequests l <= count e ->
  exists l',
    graphql verifyIdToken production resolver l i now now' w
      = (l', [], w,
         TooManyRequests
           {| x_ratelimit_remaining := 0; x_ratelimit_reset := resetTime e;
              served := Rejected 429 (Js.ceil_div (resetTime e - now') 1000) |}) /\
    store l' !! getKey (request i)
      = Some {| count := count e + 1; resetTime := resetTime e |}.
Proof.
  intros He Hnow Hmax. unfold graphql, rateLimiterMiddleware.
  rewrite (isAllowed_counted (request i) l now e He Hnow).
  rewrite bool_decide_eq_false_2 by lia. simpl.
  eexists. split.
  - rewrite Z.max_l by lia. reflexivity.
  - simpl. apply lookup_insert_eq.
Qed.

(** The requests the limiter lets through are those that open a window
    and those counted in a running window that is not used up. *)
Lemma limiter_lets_through (l : limiter) (req : Request) (now now' : Z) :
  served (snd (rateLimiterMiddleware l req now now')) = Next <->
  window_opens req l now \/
  exists e, store l !! getKey req = Some e /\ now <= resetTime e /\
            count e < maxRequests l.
Proof.
  unfold rateLimiterMiddleware, window_opens.
  destruct (store l !! getKey req) as [e|] eqn:He.
  - destruct (decide (resetTime e < now)) as [Hlt|Hge].
    + rewrite (isAllowed_fresh req l now) by (unfold window_opens; rewrite He; exact Hlt).
      simpl. split; [intros _; left; exact Hlt|reflexivity].
    + rewrite (isAllowed_counted req l now e He) by lia. simpl.
      destruct (bool_decide (count e + 1 <= maxRequests l)) eqn:Hc; simpl.
      * apply bool_decide_eq_true_1 in Hc. split; [|reflexivity].
        intros _. right. exists e. split; [reflexivity|]. lia.
      * apply bool_decide_eq_false_1 in Hc. split; [discriminate|].
        intros [Hlt|(e' & He' & _ & Hlim)]; [lia|].
        injection He' as <-. lia.
  - rewrite (isAllowed_fresh req l now) by (unfold window_opens; rewrite He; exact I).
    simpl. split; [intros _; left; exact I|reflexivity].
Qed.

(** X20. A request that passes the limiter without a valid bearer
    credential, be it the one that opens a window or any later one the
    limiter lets through, gets from every resolver that starts by
    requiring authentication the formatted error UNAUTHENTICATED with
    status 401, in production and outside it; the limiter has counted the
    request, the body of the resolver does not run and the store is
    untouched. *)
Theorem unauthenticated_operations_answer_401 {A} (body : FirebaseUser -> M A)
    (l : limiter) (i : Incoming) (now now' : Z) (w : World) :
  served (snd (rateLimiterMiddleware l (request i) now now')) = Next ->
  lacks_valid_bearer verifyIdToken (authorization i) ->
  graphql verifyIdToken production (guarded body) l i now now' w
    = (fst (rateLimiterMiddleware l (request i) now now'),
       fst (authMiddleware verifyIdToken (authorization i)),
       w,
       Errors {| message := "Authentication required"; code := "UNAUTHENTICATED";
                 statusCode := 401; extensions := Some "UNAUTHENTICATED" |}).
Proof.
  intros Hpass Hlack. unfold graphql.
  destruct (rateLimiterMiddleware l (request i) now now') as [l' res].
  simpl in Hpass. rewrite Hpass. simpl fst.
  pose proof (authMiddleware_lacking verifyIdToken (authorization i) Hlack) as Hctx.
  destruct (authMiddleware verifyIdToken (authorization i)) as [trace r].
  simpl in Hctx. subst r. reflexivity.
Qed.

(** The guarded resolvers of the model are of this form. *)
Lemma resolvers_are_guarded id :
  cancelTrip id = guarded (fun user =>
    result <- query (UpdateTripStatus "cancelled" id (uid user)) ;;
    match result with
    | [] => throw "Trip not found or unauthorized"
    | row :: _ => ret row
    end) /\
  deleteVehicle id = guarded (fun user =>
    result <- query (DeleteVehicle id (uid user)) ;;
    ret (bool_decide (0 < length result)%nat)).
Proof. split; reflexivity. Qed.

End ServerFacts.

Section ServerExamples.
Import Auth ErrorHandler Database Resolvers Server RateLimiter.

Lemma limited_requests_reach_no_resolver_witness :
  exists l',
    graphql sample_provider true (cancelTrip "t1") exhausted_limiter sample_incoming
        1000 1001 sample_world
      = (l', [], sample_world,
         TooManyRequests
           {| x_ratelimit_remaining := 0; x_ratelimit_reset := 900000;
              served := Rejected 429 (Js.ceil_div (900000 - 1001) 1000) |}) /\
    store l' !! getKey (request sample_incoming)
      = Some {| count := 100 + 1; resetTime := 900000 |}.
Proof.
  apply (limited_requests_reach_no_resolver sample_provider true (cancelTrip "t1")
           exhausted_limiter sample_incoming 1000 1001 sample_world
           {| count := 100; resetTime := 900000 |}).
  - reflexivity.
  - simpl. lia.
  - simpl. lia.
Defined.

Lemma unauthenticated_operations_answer_401_witness :
  graphql sample_provider true (guarded (fun user => query (DeleteVehicle "v1" (uid user))))
      running_limiter
      {| request := sample_request; authorization := Some "Bearer stale-token" |}
      1000 1001 sample_world
    = (fst (rateLimiterMiddleware running_limiter sample_request 1000 1001),
       fst (authMiddleware sample_provider (Some "Bearer stale-token")),
       sample_world,
       Errors {| message := "Authentication required"; code := "UNAUTHENTICATED";
                 statusCode := 401; extensions := Some "UNAUTHENTICATED" |}).
Proof.
  apply (unauthenticated_operations_answer_401 sample_provider true
           (fun user => query (DeleteVehicle "v1" (uid user)))
           running_limiter
           {| request := sample_request; authorization := Some "Bearer stale-token" |}
           1000 1001 sample_world).
  - vm_compute. reflexivity.
  - right. exists "Decoding Firebase ID token failed". reflexivity.
Defined.

End ServerExamples.

Section BuilderFacts.
Import Builders.

Lemma start_lined_up : lined_up start.
Proof. split; reflexivity. Qed.

Lemma push_field_lined_up col v b : lined_up b -> lined_up (push_field col v b).
Proof.
  intros [H1 H2]. unfold lined_up, push_field. simpl.
  rewrite !length_app. simpl. lia.
Qed.

Lemma fold_vehicle_entry input : forall b,
  lined_up b ->
  let b' := fold_left vehicle_entry input b in
  lined_up b' /\
  updateFields b' =
    (updateFields b ++
       imap (fun i e => assignment (length (values b) + i) (dbField (fst e)))
         (defined_entries input))%list /\
  values b' =
    (values b ++ ((fun e => vehicle_param (fst e) (snd e)) <$> defined_entries input))%list.
Proof.
  induction input as [|[key v] rest IH]; intros b Hb; simpl.
  - rewrite !app_nil_r. auto.
  - unfold defined_entries. rewrite filter_cons. simpl.
    destruct (is_undefined v) eqn:Hv.
    + rewrite decide_False by discriminate. apply IH. exact Hb.
    + rewrite decide_True by reflexivity.
      destruct (IH (push_field (dbField key) (vehicle_param key v) b)
                  (push_field_lined_up _ _ _ Hb)) as (I1 & I2 & I3).
      split; [exact I1|]. split.
      * rewrite I2. simpl. rewrite <- app_assoc. f_equal. simpl.
        destruct Hb as [Hc _]. f_equal.
        -- unfold assignment. rewrite Hc, Nat.add_0_r. reflexivity.
        -- apply imap_ext. intros i e _. simpl. rewrite length_app. simpl.
           f_equal. lia.
      * rewrite I3. simpl. rewrite <- app_assoc. reflexivity.
Qed.

(** X21. The statement [updateVehicle] builds, in closed form. With [n]
    entries of the input not undefined, the SET list assigns placeholder
    [$1] to the column of the first such entry, [$2] to the next and so
    on, the parameters are the values of these entries in the same order
    (the images stringified), and the row is selected by the id as
    [$(n+1)] and by the caller as [$(n+2)], which are the last two
    parameters: placeholders and parameters line up whatever the input.
    A null value is written, an undefined one is left out, and a key
    without a mapped name is used as the column name. *)
Theorem updateVehicle_placeholders_line_up
    (input : list (string * value)) (id uid : string) :
  let written := defined_entries input in
  let n := length written in
  updateVehicle_statement input id uid =
    ("UPDATE vehicles SET "
       ++ join (imap (fun i e => assignment i (dbField (fst e))) written)
       ++ " WHERE id = $" ++ pretty (S n)
       ++ " AND driver_id = $" ++ pretty (S (S n)) ++ " RETURNING *",
     (((fun e => vehicle_param (fst e) (snd e)) <$> written)
        ++ [Plain (VString id); Plain (VString uid)])%list) /\
  (forall i key v, written !! i = Some (key, v) ->
     v <> VUndefined /\
     snd (updateVehicle_statement input id uid) !! i = Some (vehicle_param key v)) /\
  snd (updateVehicle_statement input id uid) !! n = Some (Plain (VString id)) /\
  snd (updateVehicle_statement input id uid) !! S n = Some (Plain (VString uid)) /\
  length (snd (updateVehicle_statement input id uid)) = S (S n).
Proof.
  intros written n.
  destruct (fold_vehicle_entry input start start_lined_up) as ([Hc _] & Hf & Hv).
  simpl in Hf, Hv.
  assert (Hlen : length (values (fold_left vehicle_entry input start)) = n).
  { rewrite Hv. rewrite length_fmap. reflexivity. }
  assert (Hst : updateVehicle_statement input id uid =
    ("UPDATE vehicles SET "
       ++ join (imap (fun i e => assignment i (dbField (fst e))) written)
       ++ " WHERE id = $" ++ pretty (S n)
       ++ " AND driver_id = $" ++ pretty (S (S n)) ++ " RETURNING *",
     (((fun e => vehicle_param (fst e) (snd e)) <$> written)
        ++ [Plain (VString id); Plain (VString uid)])%list)).
  { unfold updateVehicle_statement. rewrite Hc, Hlen, Hf, Hv. reflexivity. }
  split; [exact Hst|]. rewrite Hst. simpl snd.
  assert (Hn : length ((fun e => vehicle_param (fst e) (snd e)) <$> written) = n)
    by (rewrite length_fmap; reflexivity).
  split_and!.
  - intros i key v Hi. split.
    + apply list_elem_of_lookup_2 in Hi. unfold written, defined_entries in Hi.
      apply list_elem_of_filter in Hi as [Hu _]. simpl in Hu.
      intros ->. discriminate.
    + rewrite lookup_app_l by (rewrite Hn; apply lookup_lt_Some in Hi; exact Hi).
      rewrite list_lookup_fmap, Hi. reflexivity.
  - rewrite lookup_app_r by (rewrite Hn; lia). rewrite Hn, Nat.sub_diag. reflexivity.
  - rewrite lookup_app_r by (rewrite Hn; lia). rewrite Hn.
    replace (S n - n)%nat with 1%nat by lia. reflexivity.
  - rewrite length_app, Hn. simpl. lia.
Qed.

(** X22. The statement [updateUser] builds, in closed form: the fields of
    the input that are present and not the empty string, numbered from
    [$1], then [updated_at = NOW()], so that the SET list is never empty;
    the caller's uid is the last parameter and the placeholder of the
    WHERE clause is its position. An empty string is treated as an absent
    field: the builder cannot blank a name. *)
Theorem updateUser_statement_closed_form (input : UpdateUserInput) (uid : string) :
  let kept := kept_fields input in
  updateUser_statement input uid =
    ("UPDATE users SET "
       ++ join (imap (fun i cf => assignment i (fst cf)) kept ++ ["updated_at = NOW()"])%list
       ++ " WHERE id = $" ++ pretty (S (length kept)) ++ " RETURNING *",
     (((fun cf => Plain (VString (snd cf))) <$> kept) ++ [Plain (VString uid)])%list) /\
  snd (updateUser_statement input uid) !! length kept = Some (Plain (VString uid)) /\
  (forall cf, cf ∈ kept -> snd cf <> "") /\
  updateUser_statement
    {| firstName := None; lastName := lastName input;
       profileImageUrl := profileImageUrl input |} uid
  = updateUser_statement
      {| firstName := Some ""; lastName := lastName input;
         profileImageUrl := profileImageUrl input |} uid.
Proof.
  intros kept.
  assert (Hst : updateUser_statement input uid =
    ("UPDATE users SET "
       ++ join (imap (fun i cf => assignment i (fst cf)) kept ++ ["updated_at = NOW()"])%list
       ++ " WHERE id = $" ++ pretty (S (length kept)) ++ " RETURNING *",
     (((fun cf => Plain (VString (snd cf))) <$> kept) ++ [Plain (VString uid)])%list)).
  { unfold kept, kept_fields, updateUser_statement, push_if_truthy.
    destruct input as [[f|] [l|] [p|]]; simpl;
      repeat match goal with
             | |- context [Js.truthy ?s] => destruct (Js.truthy s)
             end; reflexivity. }
  split; [exact Hst|]. rewrite Hst. simpl snd. split_and!.
  - rewrite lookup_app_r by (rewrite length_fmap; lia).
    rewrite length_fmap, Nat.sub_diag. reflexivity.
  - intros [c s] Hin. unfold kept, kept_fields in Hin.
    apply list_elem_of_omap in Hin as ([c' [s'|]] & _ & Hs); simpl in Hs; [|discriminate].
    destruct (Js.truthy s') eqn:Ht; [|discriminate].
    injection Hs as <- <-. simpl. intros ->. discriminate.
  - reflexivity.
Qed.

Lemma updateVehicle_placeholders_line_up_witness :
  VString "GR-1234-21" <> VUndefined /\
  snd (updateVehicle_statement sample_vehicle_input "v1" "ama") !! 1%nat
    = Some (Plain (VString "GR-1234-21")).
Proof.
  apply (proj1 (proj2 (updateVehicle_placeholders_line_up sample_vehicle_input "v1" "ama"))
           1%nat "licensePlate" (VString "GR-1234-21")).
  reflexivity.
Defined.

Lemma updateUser_statement_closed_form_witness :
  snd (updateUser_statement sample_user_input "ama") !! length (kept_fields sample_user_input)
    = Some (Plain (VString "ama")).
Proof.
  apply (proj1 (proj2 (updateUser_statement_closed_form sample_user_input "ama"))).
Defined.

End BuilderFacts.
